(** * Aquawatch: the risk-modelling and time-series core, embedded in Rocq

    The Python sources compute on binary64 floats.  Every finite float is a
    rational number, so inputs and every value the code obtains by field
    operations, comparisons and decimal rounding are embedded as [Q] (these
    definitions run); values that go through [exp], [log], [sqrt] or the
    trigonometric functions are embedded as [R].  Arithmetic is exact: the
    rounding error of the float operations themselves is not modelled, and
    NaN appears only where the code tests for it ([trend_slope_7day],
    [percentile_ranking]), as [None].  Integers are [Z], Python lists are
    [list], [None] is [option], dicts of fixed shape are records. *)

From Stdlib Require Import ZArith QArith Qround Qminmax Qabs.
From Stdlib Require Import Reals Qreals Lra Lia Psatz.
From Stdlib Require Import String List Bool Sorted DecimalString.
Import ListNotations.

(** ** Numeric helpers shared by the modules (numpy / builtins) *)

Module Py.

(** [np.clip(x, lo, hi)] is [minimum(maximum(x, lo), hi)]. *)
Definition clip (x lo hi : Q) : Q := Qmin (Qmax x lo) hi.

Definition clipR (x lo hi : R) : R := Rmin (Rmax x lo) hi.

(** Round half to even of a rational to an integer. *)
Definition round_half_even (q : Q) : Z :=
  let f := Qfloor q in
  match Qcompare (q - inject_Z f) (1 # 2) with
  | Lt => f
  | Gt => (f + 1)%Z
  | Eq => if Z.even f then f else (f + 1)%Z
  end.

(** [round(x, ndigits)] with [scale = 10 ^ ndigits]. *)
Definition round (x : Q) (scale : positive) : Q :=
  round_half_even (x * inject_Z (Zpos scale)) # scale.

(** The same rounding for a value known only as a real number. *)
Definition round_half_evenR (x : R) : Z :=
  let f := Zfloor x in
  if Rlt_dec (x - IZR f) (1 / 2) then f
  else if Rlt_dec (1 / 2) (x - IZR f) then (f + 1)%Z
  else if Z.even f then f else (f + 1)%Z.

Definition roundR (x : R) (scale : positive) : Q :=
  round_half_evenR (x * IZR (Zpos scale)) # scale.

(** [int(x)] truncates towards zero. *)
Definition int (x : R) : Z :=
  if Rle_dec 0 x then Zfloor x else Zceil x.

(** [dict.get(key, default)] on a key that holds a number. *)
Definition get (v : option Q) (default : Q) : Q :=
  match v with Some x => x | None => default end.

(** [a or b] on numbers: zero is falsy. *)
Definition or_else (a b : Q) : Q := if Qeq_bool a 0 then b else a.

(** [enumerate(l)]: the entries with their indices. *)
Definition enumerate {A : Type} (l : list A) : list (nat * A) :=
  combine (seq 0 (length l)) l.

End Py.

(** ** models/bloom_probability_model.py *)

Module BloomProbability.

Inductive RiskLevel := SAFE | LOW | WARNING | CRITICAL.

Inductive WhoSeverity := low_risk | moderate_risk | high_risk | very_high_risk.

(** [_classify_risk]: level, colour and emoji of a score. *)
Definition _classify_risk (score : Q) : RiskLevel * string * string :=
  if Qlt_le_dec score 25 then (SAFE, "#2ecc71"%string, "✅"%string)
  else if Qlt_le_dec score 50 then (LOW, "#f1c40f"%string, "⚠️"%string)
  else if Qlt_le_dec score 75 then (WARNING, "#e67e22"%string, "🟠"%string)
  else (CRITICAL, "#e74c3c"%string, "🔴"%string).

Definition risk_level_of (score : Q) : RiskLevel :=
  fst (fst (_classify_risk score)).

(** [_estimate_cells]: exponential map from the score to cells/mL. *)
Definition _estimate_cells (risk_score : R) : Z :=
  let cells := (100 * exp (risk_score * 0.115))%R in
  Py.int (Py.clipR cells 100 20000000).

Definition _who_severity (cells : Z) : WhoSeverity :=
  if (cells <? 20000)%Z then low_risk
  else if (cells <? 100000)%Z then moderate_risk
  else if (cells <? 10000000)%Z then high_risk
  else very_high_risk.

(** [WHO_RISK_LEVELS]: the cell range, label and colour of a severity;
    [np.inf] is [None]. *)
Record WhoBand := {
  min_cells : Z;
  max_cells : option Z;
  who_label : string;
  who_color : string
}.

Definition WHO_RISK_LEVELS (severity : WhoSeverity) : WhoBand :=
  match severity with
  | low_risk =>
      {| min_cells := 0; max_cells := Some 20000%Z;
         who_label := "Low Risk"; who_color := "#2ecc71" |}
  | moderate_risk =>
      {| min_cells := 20000; max_cells := Some 100000%Z;
         who_label := "Moderate Risk"; who_color := "#f1c40f" |}
  | high_risk =>
      {| min_cells := 100000; max_cells := Some 10000000%Z;
         who_label := "High Risk"; who_color := "#e67e22" |}
  | very_high_risk =>
      {| min_cells := 10000000; max_cells := None;
         who_label := "Very High Risk"; who_color := "#e74c3c" |}
  end.

(** The keys of the [growth_rate] dict that the aggregators read; a missing
    ["mu_per_day"] is [None]. *)
Record GrowthDict := { gd_mu_per_day : option Q }.

(** The result dict of [compute_bloom_probability] (the advisory text, a
    formatted string, is left out). *)
Record RiskResult := {
  risk_score : Q;
  risk_level : RiskLevel;
  risk_color : string;
  risk_emoji : string;
  who_severity : WhoSeverity;
  estimated_cells_per_ml : Z;
  confidence : string;
  component_scores : list (string * Q)
}.

(** Satellite adjustment: [cyfi] is [None] for a missing or empty dict,
    [Some None] when ["cells_per_mL"] is absent or null. *)
Definition cyfi_adjustment (cyfi : option (option Q)) : Q :=
  match cyfi with
  | Some (Some cells) =>
      if Qlt_le_dec 100000 cells then 15
      else if Qlt_le_dec 20000 cells then 8
      else if Qlt_le_dec 5000 cells then 3
      else 0
  | _ => 0
  end.

Definition compute_bloom_probability
    (t_score n_score s_score l_score : Q) (growth_rate : GrowthDict)
    (cyfi : option (option Q)) (data_confidence : string) : RiskResult :=
  let mu := match gd_mu_per_day growth_rate with Some m => m | None => 0 end in
  let growth_score := Py.clip (mu / 1.2 * 100) 0 100 in
  let base_score :=
    0.30 * t_score + 0.25 * n_score + 0.20 * s_score + 0.10 * l_score
    + 0.15 * growth_score in
  let cyfi_adj := cyfi_adjustment cyfi in
  let risk_score := Py.round (Py.clip (base_score + cyfi_adj) 0 100) 10 in
  let '(risk_level, risk_color, risk_emoji) := _classify_risk risk_score in
  let cells_per_ml := _estimate_cells (Q2R risk_score) in
  let who_sev := _who_severity cells_per_ml in
  {| risk_score := risk_score;
     risk_level := risk_level;
     risk_color := risk_color;
     risk_emoji := risk_emoji;
     who_severity := who_sev;
     estimated_cells_per_ml := cells_per_ml;
     confidence := data_confidence;
     component_scores :=
       [("Temperature"%string, Py.round t_score 10);
        ("Nutrients"%string, Py.round n_score 10);
        ("Stagnation"%string, Py.round s_score 10);
        ("Light"%string, Py.round l_score 10);
        ("Growth Rate"%string, Py.round growth_score 10)] |}.

(** The five clipped sub-scores of [calculate_bloom_risk], in the order of the
    [weights] dict. *)
Definition clipped_scores
    (temperature_score nutrient_score stagnation_score light_score
     growth_rate_mu : Q) : list (string * Q) :=
  let growth_score := Py.clip (growth_rate_mu / 1.2 * 100) 0 100 in
  [("temperature"%string, Py.clip temperature_score 0.001 100);
   ("nutrients"%string, Py.clip nutrient_score 0.001 100);
   ("stagnation"%string, Py.clip stagnation_score 0.001 100);
   ("light"%string, Py.clip light_score 0.001 100);
   ("growth"%string, Py.clip growth_score 0.001 100)].

Definition geo_weights : list Q := [0.30; 0.25; 0.20; 0.10; 0.15].

(** [sum(weights[k] * np.log(scores[k]) for k in weights)], summed from 0 in
    dict order, then [exp]. *)
Definition geo_mean (scores : list (string * Q)) : R :=
  let log_sum :=
    fold_left Rplus
      (map (fun wk => (Q2R (fst wk) * ln (Q2R (snd (snd wk))))%R)
           (combine geo_weights scores)) 0%R in
  exp log_sum.

Definition interaction_boost (temperature_score nutrient_score : Q) : Q :=
  if Qlt_le_dec 60 temperature_score then
    if Qlt_le_dec 60 nutrient_score
    then 0.10 * Qmin temperature_score nutrient_score
    else 0
  else 0.

(** The score of [calculate_bloom_risk] before [np.clip] and [round]. *)
Definition unclipped_risk
    (temperature_score nutrient_score stagnation_score light_score
     growth_rate_mu : Q) : R :=
  (geo_mean (clipped_scores temperature_score nutrient_score stagnation_score
               light_score growth_rate_mu)
   + Q2R (interaction_boost temperature_score nutrient_score))%R.

Record BloomRisk := {
  br_risk_score : Q;
  br_risk_level : RiskLevel;
  br_risk_color : string;
  br_risk_emoji : string;
  br_who_level : WhoSeverity;
  br_estimated_cells_per_ml : Z;
  br_component_scores : list (string * Q);
  br_interaction_boost : Q
}.

Definition calculate_bloom_risk
    (temperature_score nutrient_score stagnation_score light_score
     growth_rate_mu : Q) : BloomRisk :=
  let scores :=
    clipped_scores temperature_score nutrient_score stagnation_score
      light_score growth_rate_mu in
  let boost := interaction_boost temperature_score nutrient_score in
  let risk_score :=
    Py.roundR
      (Py.clipR
         (unclipped_risk temperature_score nutrient_score stagnation_score
            light_score growth_rate_mu) 0 100) 10 in
  let '(risk_level, risk_color, risk_emoji) := _classify_risk risk_score in
  let cells_per_ml := _estimate_cells (Q2R risk_score) in
  let who_level := _who_severity cells_per_ml in
  {| br_risk_score := risk_score;
     br_risk_level := risk_level;
     br_risk_color := risk_color;
     br_risk_emoji := risk_emoji;
     br_who_level := who_level;
     br_estimated_cells_per_ml := cells_per_ml;
     br_component_scores :=
       map (fun kv => (fst kv, Py.round (snd kv) 10)) scores;
     br_interaction_boost := Py.round boost 100 |}.

End BloomProbability.

(** ** models/growth_rate_model.py *)

Module GrowthRate.

Definition MU_MAX : Q := 1.2.

(** [_arrhenius_correction]: the cardinal-temperature factor. *)
Definition _arrhenius_correction (water_temp : Q) : Q :=
  let t_opt := 28.0 in
  let t_min := 5.0 in
  let t_max := 40.0 in
  if Qle_bool water_temp t_min || Qle_bool t_max water_temp then 0.01
  else
    let num := (water_temp - t_max) * (water_temp - t_min) ^ 2 in
    let den :=
      (t_opt - t_min)
      * ((t_opt - t_min) * (water_temp - t_opt)
         - (t_opt - t_max) * (t_opt + t_min - 2 * water_temp)) in
    if Qeq_bool den 0 then 0.01
    else
      let correction := num / den in
      Py.clip correction 0.01 1.0.

(** [min(factors, key=factors.get)]: the first key with the least value. *)
Fixpoint argmin_from (best : string * Q) (rest : list (string * Q)) : string :=
  match rest with
  | [] => fst best
  | kv :: rest' =>
      if Qlt_le_dec (snd kv) (snd best) then argmin_from kv rest'
      else argmin_from best rest'
  end.

(** The seven appended points of the biomass trajectory. *)
Fixpoint trajectory_from (days : nat) (biomass : R) (mu : Q) : list Q :=
  match days with
  | O => []
  | S d =>
      let biomass' := (biomass * exp (Q2R mu))%R in
      Py.roundR biomass' 1000 :: trajectory_from d biomass' mu
  end.

Record GrowthRateResult := {
  mu_per_day : Q;
  doubling_time_hours : option Q;
  limiting_factor : string;
  factor_values : list (string * Q);
  biomass_trajectory : list Q;
  temp_correction : Q
}.

Definition compute_growth_rate
    (t_score n_score l_score s_score water_temp : Q) : GrowthRateResult :=
  let f_t := Py.clip (t_score / 100) 0.01 1.0 in
  let f_n := Py.clip (n_score / 100) 0.01 1.0 in
  let f_l := Py.clip (l_score / 100) 0.01 1.0 in
  let f_s := Py.clip (s_score / 100) 0.01 1.0 in
  let temp_correction := _arrhenius_correction water_temp in
  let mu :=
    Py.clip (MU_MAX * f_t * f_n * f_l * f_s * temp_correction) 0 MU_MAX in
  let doubling_h :=
    if Qlt_le_dec 0.001 mu
    then Some (Py.roundR (ln 2 / Q2R mu * 24)%R 10)
    else None in
  let trajectory := 1.0 :: trajectory_from 7 1%R mu in
  let factors :=
    [("Temperature"%string, f_t); ("Nutrients"%string, f_n);
     ("Light"%string, f_l); ("Stagnation"%string, f_s)] in
  let limiting := argmin_from ("Temperature"%string, f_t) (tl factors) in
  {| mu_per_day := Py.round mu 10000;
     doubling_time_hours := doubling_h;
     limiting_factor := limiting;
     factor_values := map (fun kv => (fst kv, Py.round (snd kv) 1000)) factors;
     biomass_trajectory := trajectory;
     temp_correction := Py.round temp_correction 1000 |}.

End GrowthRate.

(** ** light_features.py *)

Module LightFeatures.

(** [np.radians]. *)
Definition radians (deg : R) : R := (deg * PI / 180)%R.

(** [np.arccos]: defined on [[-1, 1]] only; outside it numpy signals an
    invalid value. *)
Definition arccos (x : R) : option R :=
  if Rle_dec (-1) x then
    if Rle_dec x 1 then Some (acos x) else None
  else None.

Definition normalize_uv (uv_index max_uv : R) : R :=
  Py.clipR (uv_index / max_uv) 0 1.

(** The default [max_uv=11]. *)
Definition max_uv_default : R := 11%R.

(** The value handed to [np.arccos]: the hour-angle cosine after the clip. *)
Definition cos_hour_angle (latitude day_of_year : R) : R :=
  let lat_rad := radians latitude in
  let decl := (23.44 * cos (radians ((172 - day_of_year) * 360 / 365)))%R in
  let decl_rad := radians decl in
  let cos_ha := (- tan lat_rad * tan decl_rad)%R in
  Py.clipR cos_ha (-1) 1.

Definition photoperiod (latitude day_of_year : R) : option R :=
  match arccos (cos_hour_angle latitude day_of_year) with
  | Some ha => Some (24 * ha / PI)%R
  | None => None
  end.

Definition cloud_suppression (cloud_cover : R) : R :=
  let cc_frac :=
    if Rle_dec cloud_cover 1 then cloud_cover else (cloud_cover / 100)%R in
  Py.clipR (1 - cc_frac) 0 1.

Definition compute_light_score
    (uv_index cloud_cover latitude day_of_year : R) : option R :=
  let uv_norm := normalize_uv uv_index max_uv_default in
  match photoperiod latitude day_of_year with
  | Some daylen =>
      let daylen_norm := Py.clipR (daylen / 24) 0 1 in
      let cloud_factor := cloud_suppression cloud_cover in
      let combined := (uv_norm * daylen_norm * cloud_factor)%R in
      Some (combined * 100)%R
  | None => None
  end.

End LightFeatures.

(** ** analysis/forecast_engine.py *)

Module ForecastEngine.

(** The [daily] dict of the weather payload; a missing key is the empty
    list, a JSON null entry is [None]. *)
Record Daily := {
  time : list string;
  temperature_2m_max : list (option Q);
  temperature_2m_min : list (option Q);
  precipitation_sum : list (option Q);
  wind_speed_10m_max : list (option Q);
  uv_index_max : list (option Q)
}.

(** [raw.get("weather") or {}] then [.get("daily", {})]: [None] when either
    is absent. *)
Definition daily_of (raw : option Daily) : Daily :=
  match raw with
  | Some d => d
  | None => {| time := []; temperature_2m_max := []; temperature_2m_min := [];
               precipitation_sum := []; wind_speed_10m_max := [];
               uv_index_max := [] |}
  end.

(** The two slices the function builds: [slice(-n, None)] and [slice(0, n)]. *)
Inductive PySlice := SliceLast (n : nat) | SliceFirst (n : nat).

(** [lst[slc]]; [slice(-0, None)] is the whole list. *)
Definition apply_slice {A : Type} (lst : list A) (slc : PySlice) : list A :=
  match slc with
  | SliceLast O => lst
  | SliceLast n => skipn (length lst - n) lst
  | SliceFirst n => firstn n lst
  end.

(** The slices the function builds: [slice(0, n)], or [slice(-n, None)] with
    a positive [n]. *)
Definition slice_of_width (slc : PySlice) (n : nat) : Prop :=
  slc = SliceFirst n \/ (slc = SliceLast n /\ n <> 0%nat).

(** [_safe_slice]: slice, replace nulls, pad with the default up to [n]. *)
Definition _safe_slice
    (lst : list (option Q)) (slc : PySlice) (n : nat) (default : Q) : list Q :=
  match lst with
  | [] => repeat default n
  | _ =>
      let result := apply_slice lst slc in
      let result :=
        map (fun v => match v with Some x => x | None => default end) result in
      result ++ repeat default (n - length result)
  end.

(** One iteration of the projection loop, appending to [risk_scores];
    [t_max[i]] and the like are in range because every sliced list has
    length [n]. *)
Definition project_day
    (t_max t_min p_sum w_max : list Q) (current_risk : Q)
    (risk_scores : list Q) (i : nat) : list Q :=
  let t_avg :=
    (Py.or_else (nth i t_max 0) 20 + Py.or_else (nth i t_min 0) 10) / 2 in
  let rain := Py.or_else (nth i p_sum 0) 0 in
  let wind := Py.or_else (nth i w_max 0) 10 in
  let temp_factor := Py.clip ((t_avg - 15) / 20) 0 1 in
  let rain_factor := Py.clip (1 - rain / 20) 0 1 in
  let wind_factor := Py.clip (1 - wind / 30) 0 1 in
  let projected :=
    current_risk * 0.5
    + (temp_factor * 40 + rain_factor * 15 + wind_factor * 10) * 0.5 in
  let projected :=
    if (0 <? i)%nat
    then projected * 0.7 + last risk_scores 0 * 0.3
    else projected in
  risk_scores ++ [Py.round (Py.clip projected 0 100) 10].

(** [while len(risk_scores) < 7: risk_scores.append(...)], one append per
    missing entry. *)
Fixpoint pad_scores
    (missing : nat) (risk_scores : list Q) (current_risk : Q) : list Q :=
  match missing with
  | O => risk_scores
  | S m =>
      pad_scores m (risk_scores ++ [last risk_scores current_risk]) current_risk
  end.

Record Forecast := {
  dates : list string;
  risk_scores : list Q;
  temp_max : list Q;
  temp_min : list Q;
  precip : list Q;
  wind_max : list Q;
  uv_max : list Q
}.

(** [build_7day_forecast]; [fallback_date i] is the formatted date of
    [datetime.now() + timedelta(days=i)]. *)
Definition build_7day_forecast
    (fallback_date : nat -> string) (raw : option Daily) (current_risk : Q)
    : Forecast :=
  let daily := daily_of raw in
  let dates_raw := time daily in
  let n := Nat.min 7 (length dates_raw) in
  let forecast_slice :=
    if (7 <? length dates_raw)%nat then SliceLast n else SliceFirst n in
  let dates :=
    match dates_raw with
    | [] => []
    | _ => apply_slice dates_raw forecast_slice
    end in
  let t_max := _safe_slice (temperature_2m_max daily) forecast_slice n 20.0 in
  let t_min := _safe_slice (temperature_2m_min daily) forecast_slice n 10.0 in
  let p_sum := _safe_slice (precipitation_sum daily) forecast_slice n 0.0 in
  let w_max := _safe_slice (wind_speed_10m_max daily) forecast_slice n 10.0 in
  let u_max := _safe_slice (uv_index_max daily) forecast_slice n 3.0 in
  let dates :=
    if (length dates <? 7)%nat then map fallback_date (seq 0 7) else dates in
  let risk_scores :=
    fold_left (project_day t_max t_min p_sum w_max current_risk)
      (seq 0 (Nat.min 7 (length t_max))) [] in
  let risk_scores :=
    pad_scores (7 - length risk_scores) risk_scores current_risk in
  {| dates := firstn 7 dates;
     risk_scores := firstn 7 risk_scores;
     temp_max := firstn 7 t_max;
     temp_min := firstn 7 t_min;
     precip := firstn 7 p_sum;
     wind_max := firstn 7 w_max;
     uv_max := firstn 7 u_max |}.

End ForecastEngine.

(** ** analysis/trend_analysis.py *)

Module TrendAnalysis.

(** A Python call returns a value or raises. *)
Inductive Outcome (A : Type) :=
| Returned (value : A)
| Raised (exception : string).
Arguments Returned {A} value.
Arguments Raised {A} exception.

(** [itertools.combinations(range(n), 2)]: the pairs [(i, j)] with [i < j],
    in lexicographic order. *)
Definition combinations2 (n : nat) : list (nat * nat) :=
  flat_map (fun i => map (fun j => (i, j)) (seq (S i) (n - S i))) (seq 0 n).

(** Sorting, as [np.unique] and [np.median] do first. *)
Fixpoint insert_sorted (v : Q) (l : list Q) : list Q :=
  match l with
  | [] => [v]
  | y :: l' => if Qle_bool v y then v :: l else y :: insert_sorted v l'
  end.

Definition sort (l : list Q) : list Q := fold_right insert_sorted [] l.

(** Run lengths of a sorted list: the counts of [np.unique]. *)
Fixpoint count_runs (prev : Q) (k : Z) (l : list Q) : list (Q * Z) :=
  match l with
  | [] => [(prev, k)]
  | y :: l' =>
      if Qeq_bool y prev then count_runs prev (k + 1) l'
      else (prev, k) :: count_runs y 1 l'
  end.

(** [np.unique(x, return_counts=True)]. *)
Definition unique_counts (x : list Q) : list (Q * Z) :=
  match sort x with
  | [] => []
  | v :: l => count_runs v 1 l
  end.

(** [np.median]: the middle of the sorted values, or the mean of the two
    middle ones. *)
Definition median (l : list Q) : Q :=
  let s := sort l in
  let n := length s in
  if Nat.even n
  then (nth (n / 2 - 1) s 0 + nth (n / 2) s 0) / 2
  else nth (n / 2) s 0.

Inductive MKTrend := increasing | decreasing | no_trend.

Record MannKendall := {
  mk_S : Z;
  mk_var_S : Q;
  mk_z_score : Q;
  mk_p_value : Q;
  mk_trend : MKTrend;
  mk_significant : bool
}.

(** The S statistic: the signs of [x[j] - x[i]] summed over all pairs. *)
Definition s_statistic (x : list Q) : Z :=
  fold_left
    (fun s ij =>
       let diff := nth (snd ij) x 0 - nth (fst ij) x 0 in
       if Qlt_le_dec 0 diff then (s + 1)%Z
       else if Qlt_le_dec diff 0 then (s - 1)%Z
       else s)
    (combinations2 (length x)) 0%Z.

Definition tie_correction (x : list Q) : Z :=
  fold_left
    (fun acc vt =>
       let t := snd vt in
       if (1 <? t)%Z then (acc + t * (t - 1) * (2 * t + 5))%Z else acc)
    (unique_counts x) 0%Z.

Definition variance_S (x : list Q) : Q :=
  let n := Z.of_nat (length x) in
  inject_Z (n * (n - 1) * (2 * n + 5) - tie_correction x) / 18.

Definition z_of (s : Z) (var_s : Q) : R :=
  if Qeq_bool var_s 0 then 0%R
  else if (0 <? s)%Z then (IZR (s - 1) / sqrt (Q2R var_s))%R
  else if (s <? 0)%Z then (IZR (s + 1) / sqrt (Q2R var_s))%R
  else 0%R.

Section WithNormalCdf.

(** [scipy.stats.norm.cdf], the standard normal distribution function. *)
Variable norm_cdf : R -> R.

Definition p_of (z : R) : R := (2 * (1 - norm_cdf (Rabs z)))%R.

(** The unrounded p-value of the test on a series of at least 3 values. *)
Definition p_value_of (x : list Q) : R :=
  p_of (z_of (s_statistic x) (variance_S x)).

Definition mann_kendall_test (data : list Q) : MannKendall :=
  let x := data in
  let n := length x in
  if (n <? 3)%nat then
    {| mk_S := 0; mk_var_S := 0; mk_z_score := 0; mk_p_value := 1;
       mk_trend := no_trend; mk_significant := false |}
  else
    let s := s_statistic x in
    let var_s := variance_S x in
    let z := z_of s var_s in
    let p_value := p_of z in
    let alpha := 0.05%R in
    let trend :=
      if Rle_dec p_value alpha
      then (if (0 <? s)%Z then increasing else decreasing)
      else no_trend in
    {| mk_S := s;
       mk_var_S := Py.round var_s 10000;
       mk_z_score := Py.roundR z 10000;
       mk_p_value := Py.roundR p_value 1000000;
       mk_trend := trend;
       mk_significant := if Rle_dec p_value alpha then true else false |}.

End WithNormalCdf.

Record SenSlope := {
  slope : Q;
  intercept : Q;
  n_slopes : nat
}.

(** The pairwise slopes [(x[j] - x[i]) / (j - i)] over all [i < j]. *)
Definition pairwise_slopes (x : list Q) : list Q :=
  flat_map
    (fun ij =>
       let dt := (Z.of_nat (snd ij) - Z.of_nat (fst ij))%Z in
       if (dt =? 0)%Z then []
       else [(nth (snd ij) x 0 - nth (fst ij) x 0) / inject_Z dt])
    (combinations2 (length x)).

Definition sens_slope (data : list Q) : Outcome SenSlope :=
  let x := data in
  let n := length x in
  if (n <? 2)%nat then
    Returned {| slope := 0.0;
                intercept := match x with [x0] => x0 | _ => 0.0 end;
                n_slopes := 0 |}
  else
    let slopes := pairwise_slopes x in
    match slopes with
    | [] => Returned {| slope := 0.0; intercept := median x; n_slopes := 0 |}
    | _ =>
        let median_slope := median slopes in
        let intercepts :=
          map (fun i => nth i x 0 - median_slope * inject_Z (Z.of_nat i))
              (seq 0 n) in
        let median_intercept := median intercepts in
        Returned {| slope := Py.round median_slope 1000000;
                    intercept := Py.round median_intercept 10000;
                    n_slopes := length slopes |}
    end.

End TrendAnalysis.

(** ** temperature_features.py *)

Module TemperatureFeatures.

(** A float array entry: [None] is NaN. *)
Definition Float := option Q.

(** [temps[-7:]]. *)
Definition last7 {A : Type} (a : list A) : list A := skipn (length a - 7) a.

(** [recent[~np.isnan(recent)]]. *)
Definition drop_nan (a : list Float) : list Q :=
  flat_map (fun v => match v with Some y => [y] | None => [] end) a.

(** [np.sum] and [.mean()]. *)
Definition sum (a : list Q) : Q := fold_left Qplus a 0.

Definition mean (a : list Q) : Q := sum a / inject_Z (Z.of_nat (length a)).

(** [np.arange(n, dtype=float)]. *)
Definition arange (n : nat) : list Q :=
  map (fun i => inject_Z (Z.of_nat i)) (seq 0 n).

(** [np.sum((x - x_mean) * (recent - y_mean))] and
    [np.sum((x - x_mean) ** 2)]. *)
Definition ss_xy (x recent : list Q) : Q :=
  sum (map (fun xy => (fst xy - mean x) * (snd xy - mean recent))
           (combine x recent)).

Definition ss_xx (x : list Q) : Q :=
  sum (map (fun xi => (xi - mean x) ^ 2) x).

Definition trend_slope_7day (temps : list Float) : Q :=
  let recent := last7 temps in
  let recent := drop_nan recent in
  if (length recent <? 3)%nat then 0.0
  else
    let x := arange (length recent) in
    if Qeq_bool (ss_xx x) 0 then 0.0
    else ss_xy x recent / ss_xx x.

(** [estimate_water_temp]: the Livingstone and Lotter formula, clamped at
    0 degrees. *)
Definition estimate_water_temp (air_temp : Q) : Q :=
  Qmax 0.0 (Py.round (0.97 * air_temp - 3.24) 10).

(** [percentile_ranking]: the rank of one valid value among the valid ones,
    [100.0 * np.sum(valid <= val) / len(valid)]. *)
Definition rank_among (valid : list Q) (val : Q) : Q :=
  100.0 * inject_Z (Z.of_nat (length (filter (fun v => Qle_bool v val) valid)))
  / inject_Z (Z.of_nat (length valid)).

Definition percentile_ranking (anomalies : list Float) : list Q :=
  let a := anomalies in
  let valid := drop_nan a in
  if (length valid =? 0)%nat then map (fun _ => 50.0) a
  else
    map (fun v => match v with
                  | None => 50.0
                  | Some val => rank_among valid val
                  end) a.

(** [composite_risk_score]: anomaly, trend and water-temperature components,
    clipped to [[0, 100]]. *)
Definition anomaly_component (anomaly_zscore : Q) : Q :=
  Qmin 40 (Qabs anomaly_zscore * 20).

Definition trend_component (trend_slope : Q) : Q :=
  Qmin 20 (Qmax 0 (trend_slope * 20)).

Definition water_temp_component (water_temp : Q) : R :=
  (40.0 / (1.0 + exp (- 0.3 * (Q2R water_temp - 25.0))))%R.

Definition composite_risk_score (anomaly_zscore trend_slope water_temp : Q)
    : R :=
  let anomaly_score := anomaly_component anomaly_zscore in
  let trend_score := trend_component trend_slope in
  let wt_score := water_temp_component water_temp in
  let total := (Q2R anomaly_score + Q2R trend_score + wt_score)%R in
  Py.clipR total 0 100.

End TemperatureFeatures.

(** ** models/temperature_model.py *)

Module TemperatureModel.

(** The [temp_features] dict; a missing key is [None]. *)
Record TempFeatures := {
  tf_water_temp : option Q;
  tf_temp_anomaly_c : option Q;
  tf_diurnal_range : option Q
}.

Record TemperatureResult := {
  tr_score : Q;
  tr_water_temp : Q;
  tr_anomaly : Q;
  tr_diurnal_range : Q;
  tr_sub_scores : list (string * Q)
}.

Definition compute_temperature_score (temp_features : TempFeatures)
    : TemperatureResult :=
  let water_temp := Py.get (tf_water_temp temp_features) 20.0 in
  let anomaly := Py.get (tf_temp_anomaly_c temp_features) 0.0 in
  let diurnal := Py.get (tf_diurnal_range temp_features) 8.0 in
  let anomaly_z :=
    if Qlt_le_dec 0 (Qabs anomaly) then anomaly / 3.0 else 0.0 in
  let trend_slope :=
    if Qlt_le_dec 0 anomaly then Qmax 0 (anomaly / 7.0) else 0.0 in
  let base_score :=
    TemperatureFeatures.composite_risk_score anomaly_z trend_slope water_temp in
  let diurnal_bonus := Py.clip ((12 - diurnal) * 1.5) 0 15 in
  let total := Py.clipR (base_score + Q2R diurnal_bonus) 0 100 in
  let total := Py.roundR total 10 in
  {| tr_score := total;
     tr_water_temp := water_temp;
     tr_anomaly := anomaly;
     tr_diurnal_range := diurnal;
     tr_sub_scores :=
       [("composite_risk"%string, Py.roundR base_score 10);
        ("diurnal_bonus"%string, Py.round diurnal_bonus 10)] |}.

End TemperatureModel.

(** ** stagnation_features.py and models/stagnation_model.py *)

Module StagnationFeatures.

Definition wind_mixing_score (wind_7d_avg : Q) : Q :=
  if Qle_bool wind_7d_avg 1 then 100
  else if Qle_bool 5 wind_7d_avg then 0
  else 100 * (5 - wind_7d_avg) / 4.

Definition hydrological_stagnation (rainfall_deficit_30d : Q) : Q :=
  if Qle_bool rainfall_deficit_30d 0 then 0
  else if Qle_bool 100 rainfall_deficit_30d then 100
  else 100 * rainfall_deficit_30d / 100.

Definition stratification_proxy (diurnal_temp_range water_temp_est : Q) : Q :=
  let dtr_score := Qmax 0 (Qmin 60 (6 * diurnal_temp_range)) in
  let temp_score := Qmax 0 (Qmin 40 (water_temp_est / 30 * 40)) in
  dtr_score + temp_score.

Definition combined_stagnation_index (wind_score hydro_score strat_score : Q)
    : Q :=
  let combined := 0.4 * wind_score + 0.3 * hydro_score + 0.3 * strat_score in
  Qmax 0 (Qmin 100 combined).

Definition stagnation_score
    (wind_7d_avg rainfall_deficit_30d diurnal_temp_range water_temp_est : Q)
    : Q :=
  let wind_sc := wind_mixing_score wind_7d_avg in
  let hydro_sc := hydrological_stagnation rainfall_deficit_30d in
  let strat_sc := stratification_proxy diurnal_temp_range water_temp_est in
  combined_stagnation_index wind_sc hydro_sc strat_sc.

(** The [stag_features] dict; a missing key is [None]. *)
Record StagFeatures := {
  sf_avg_wind_7d : option Q;
  sf_rainfall_deficit_30d : option Q;
  sf_diurnal_range : option Q;
  sf_water_temp : option Q
}.

Record StagnationResult := {
  sr_score : Q;
  sr_wind_score : Q;
  sr_hydro_score : Q;
  sr_stratification_score : Q;
  sr_avg_wind_7d : Q;
  sr_rainfall_deficit_30d : Q
}.

(** [compute_stagnation_score] of models/stagnation_model.py. *)
Definition compute_stagnation_score (stag_features : StagFeatures)
    : StagnationResult :=
  let wind := Py.get (sf_avg_wind_7d stag_features) 10.0 in
  let deficit := Py.get (sf_rainfall_deficit_30d stag_features) 0.0 in
  let diurnal := Py.get (sf_diurnal_range stag_features) 8.0 in
  let water_temp := Py.get (sf_water_temp stag_features) 20.0 in
  let combined := stagnation_score wind deficit diurnal water_temp in
  let combined := Py.round (Py.clip combined 0 100) 10 in
  let wind_sc := Py.round (wind_mixing_score wind) 10 in
  let hydro_sc := Py.round (hydrological_stagnation deficit) 10 in
  let strat_sc :=
    Py.round (Py.clip (stratification_proxy diurnal water_temp) 0 100) 10 in
  {| sr_score := combined;
     sr_wind_score := wind_sc;
     sr_hydro_score := hydro_sc;
     sr_stratification_score := strat_sc;
     sr_avg_wind_7d := wind;
     sr_rainfall_deficit_30d := deficit |}.

End StagnationFeatures.

(** ** models/nutrient_model.py *)

Module NutrientModel.

(** The [nutrient_features] dict; a missing key is [None]. *)
Record NutrientFeatures := {
  nf_agricultural_pct : option Q;
  nf_urban_pct : option Q;
  nf_forest_pct : option Q;
  nf_wetland_pct : option Q
}.

Record NutrientResult := {
  nr_score : Q;
  nr_agricultural_pct : Q;
  nr_urban_pct : Q;
  nr_forest_pct : Q;
  nr_wetland_pct : Q;
  nr_sub_scores : list (string * Q)
}.

Definition compute_nutrient_score (nutrient_features : NutrientFeatures)
    : NutrientResult :=
  let ag := Py.get (nf_agricultural_pct nutrient_features) 0 in
  let urban := Py.get (nf_urban_pct nutrient_features) 0 in
  let forest := Py.get (nf_forest_pct nutrient_features) 0 in
  let wetland := Py.get (nf_wetland_pct nutrient_features) 0 in
  let ag_score := Py.clip (ag * 1.2) 0 50 in
  let urban_score := Py.clip (urban * 1.5) 0 30 in
  let buffer_reduction := Py.clip ((forest + wetland) * 0.3) 0 20 in
  let total := Py.clip (ag_score + urban_score - buffer_reduction) 0 100 in
  let total := Py.round total 10 in
  {| nr_score := total;
     nr_agricultural_pct := ag;
     nr_urban_pct := urban;
     nr_forest_pct := forest;
     nr_wetland_pct := wetland;
     nr_sub_scores :=
       [("agriculture"%string, Py.round ag_score 10);
        ("urban"%string, Py.round urban_score 10);
        ("buffer_reduction"%string, Py.round buffer_reduction 10)] |}.

End NutrientModel.

(** ** analysis/trend_analysis.py: [compute_trend] *)

Module ComputeTrend.

Inductive Trend := WORSENING | STABLE | IMPROVING.

(** The result dict (the description, a formatted text, is left out). *)
Record TrendResult := {
  trend : Trend;
  direction_emoji : string;
  slope_per_day : Q;
  p_value : Q
}.

Definition _neutral : TrendResult :=
  {| trend := STABLE; direction_emoji := "➡️"%string;
     slope_per_day := 0.0; p_value := 1.0 |}.

(** [np.sum(residuals ** 2)] for the fitted line: the sums are the ones of
    [trend_slope_7day]. *)
Definition ss_res (x y : list Q) (slope : Q) : Q :=
  let x_mean := TemperatureFeatures.mean x in
  let y_mean := TemperatureFeatures.mean y in
  TemperatureFeatures.sum
    (map (fun xy =>
            let y_pred := slope * fst xy + (y_mean - slope * x_mean) in
            (snd xy - y_pred) ^ 2)
         (combine x y)).

(** The standard error, the t statistic and the pseudo p-value. *)
Definition std_error (n : nat) (ss_res ss_xx : Q) : R :=
  if Qlt_le_dec 0 ss_xx
  then (sqrt (Q2R (ss_res / inject_Z (Z.max (Z.of_nat n - 2) 1)))
        / sqrt (Q2R ss_xx))%R
  else 1000000000%R.

Definition t_statistic (slope : Q) (se : R) : R :=
  if Rlt_dec 0 se then (Q2R slope / se)%R else 0%R.

Definition pseudo_p_value (t_stat : R) : R :=
  (2 / (1 + exp (Rabs t_stat)))%R.

(** The unrounded slope of a series that passes the two guards. *)
Definition raw_slope (scores : list Q) : Q :=
  let x := TemperatureFeatures.arange (length scores) in
  TemperatureFeatures.ss_xy x scores / TemperatureFeatures.ss_xx x.

(** The unrounded p-value of a series that passes the two guards. *)
Definition p_value_of (scores : list Q) : R :=
  let y := scores in
  let x := TemperatureFeatures.arange (length y) in
  let ss_xx := TemperatureFeatures.ss_xx x in
  let slope := TemperatureFeatures.ss_xy x y / ss_xx in
  pseudo_p_value
    (t_statistic slope (std_error (length y) (ss_res x y slope) ss_xx)).

(** [compute_trend].  The arithmetic is exact, so the pseudo p-value of the
    model is the code's only up to the rounding error of the residuals: on
    points that lie exactly on a line the residuals are 0 here and of the
    order of 1e-15 in binary64, which decides between a t statistic of 0 and
    a huge one. *)
Definition compute_trend (scores : list Q) : TrendResult :=
  if (length scores <? 3)%nat then _neutral
  else
    let y := scores in
    let x := TemperatureFeatures.arange (length y) in
    let ss_xy := TemperatureFeatures.ss_xy x y in
    let ss_xx := TemperatureFeatures.ss_xx x in
    if Qeq_bool ss_xx 0 then _neutral
    else
      let slope := ss_xy / ss_xx in
      let p_value := p_value_of scores in
      let '(trend, emoji) :=
        if Qlt_le_dec 0.3 slope then
          if Rlt_dec p_value 0.1 then (WORSENING, "📈"%string)
          else (STABLE, "➡️"%string)
        else if Qlt_le_dec slope (-0.3) then
          if Rlt_dec p_value 0.1 then (IMPROVING, "📉"%string)
          else (STABLE, "➡️"%string)
        else (STABLE, "➡️"%string) in
      {| trend := trend;
         direction_emoji := emoji;
         slope_per_day := Py.round slope 1000;
         p_value := Py.roundR p_value 10000 |}.

End ComputeTrend.

(** ** analysis/uncertainty.py *)

Module Uncertainty.
Import ForecastEngine.

(** [{"HIGH": 5, "MEDIUM": 10, "LOW": 18}.get(confidence, 12)]. *)
Definition base_width (confidence : string) : Q :=
  if String.eqb confidence "HIGH" then 5
  else if String.eqb confidence "MEDIUM" then 10
  else if String.eqb confidence "LOW" then 18
  else 12.

(** The forecast with the three keys the function sets on it. *)
Record Banded := {
  forecast : Forecast;
  upper_band : list Q;
  lower_band : list Q;
  band_confidence : string
}.

(** [compute_confidence_bands] on a forecast of [build_7day_forecast], which
    holds the key ["risk_scores"]; [raw_confidence] is
    [raw["data_quality"]["confidence"]], [None] when either key is
    missing. *)
Definition compute_confidence_bands
    (forecast : Forecast) (raw_confidence : option string) : Banded :=
  let scores := risk_scores forecast in
  let confidence :=
    match raw_confidence with Some c => c | None => "MEDIUM"%string end in
  let base_width := base_width confidence in
  let day_width (i : nat) := base_width + inject_Z (Z.of_nat i) * 2.5 in
  {| forecast := forecast;
     upper_band :=
       map (fun i_s => Py.round (Qmin 100 (snd i_s + day_width (fst i_s))) 10)
           (Py.enumerate scores);
     lower_band :=
       map (fun i_s => Py.round (Qmax 0 (snd i_s - day_width (fst i_s))) 10)
           (Py.enumerate scores);
     band_confidence := confidence |}.

End Uncertainty.

(** ** analysis/predictive_alerts.py *)

Module PredictiveAlerts.
Import ForecastEngine.

Inductive Severity :=
| WARNING | CRITICAL | RAPID_INCREASE | HEAT | STAGNATION | NUTRIENT_FLUSH.

(** An alert without its icon and message texts. *)
Record Alert := {
  severity : Severity;
  day : nat;
  date : string;
  score : Q
}.

Inductive Trajectory := worsening | stable | improving.

(** [dates[i] if i < len(dates) else f"Day {day_num}"]. *)
Definition date_of (dates : list string) (i : nat) : string :=
  if (i <? length dates)%nat then nth i dates ""%string
  else ("Day " ++ NilEmpty.string_of_uint (Nat.to_uint (i + 1)))%string.

(** The variables the loop over the scores updates. *)
Record Scan := {
  scan_alerts : list Alert;
  scan_days_to_warning : option nat;
  scan_days_to_critical : option nat;
  scan_max_risk : Q
}.

Definition is_none {A : Type} (v : option A) : bool :=
  match v with None => true | Some _ => false end.

(** One iteration of [for i, score in enumerate(scores)]. *)
Definition scan_day
    (dates : list string) (scores : list Q)
    (currently_warning currently_critical : bool)
    (st : Scan) (i_score : nat * Q) : Scan :=
  let i := fst i_score in
  let score := snd i_score in
  let day_num := (i + 1)%nat in
  let alert (sev : Severity) :=
    {| severity := sev; day := day_num; date := date_of dates i;
       score := score |} in
  let max_risk :=
    if Qlt_le_dec (scan_max_risk st) score then score
    else scan_max_risk st in
  let alerts := scan_alerts st in
  let crosses_warning :=
    negb currently_warning && Qle_bool 50.0 score
    && is_none (scan_days_to_warning st) in
  let days_to_warning :=
    if crosses_warning then Some day_num else scan_days_to_warning st in
  let alerts :=
    if crosses_warning then alerts ++ [alert WARNING] else alerts in
  let crosses_critical :=
    negb currently_critical && Qle_bool 75.0 score
    && is_none (scan_days_to_critical st) in
  let days_to_critical :=
    if crosses_critical then Some day_num else scan_days_to_critical st in
  let alerts :=
    if crosses_critical then alerts ++ [alert CRITICAL] else alerts in
  let alerts :=
    if (0 <? i)%nat
    then (if Qlt_le_dec 15 (score - nth (i - 1) scores 0)
          then alerts ++ [alert RAPID_INCREASE] else alerts)
    else alerts in
  {| scan_alerts := alerts;
     scan_days_to_warning := days_to_warning;
     scan_days_to_critical := days_to_critical;
     scan_max_risk := max_risk |}.

(** [i >= 2 and all(t > 30 for t in temp_max[max(0, i-2):i+1])]. *)
Definition heat_spell (temp_max : list Q) (i : nat) : bool :=
  (2 <=? i)%nat
  && forallb (fun t => if Qlt_le_dec 30 t then true else false)
       (skipn (Nat.max 0 (i - 2)) (firstn (i + 1) temp_max)).

(** The loop over [range(len(temp_max))] stops at the first heat spell. *)
Definition heat_alerts
    (dates : list string) (scores temp_max : list Q) : list Alert :=
  match find (heat_spell temp_max) (seq 0 (length temp_max)) with
  | Some i =>
      [{| severity := HEAT; day := (i + 1)%nat; date := date_of dates i;
          score := if (i <? length scores)%nat then nth i scores 0 else 0 |}]
  | None => []
  end.

Definition calm_alerts (wind_max : list Q) : list Alert :=
  match wind_max with
  | [] => []
  | _ =>
      let calm_days :=
        length
          (filter (fun w => if Qlt_le_dec (Py.or_else w 0) 8
                            then true else false) wind_max) in
      if (3 <=? calm_days)%nat
      then [{| severity := STAGNATION; day := 0; date := ""%string;
               score := 0 |}]
      else []
  end.

Definition heavy_rain_days (precip : list Q) : list nat :=
  map (fun i_p => (fst i_p + 1)%nat)
      (filter (fun i_p => if Qlt_le_dec 15 (Py.or_else (snd i_p) 0)
                          then true else false)
              (Py.enumerate precip)).

Definition flush_alerts (precip : list Q) : list Alert :=
  match heavy_rain_days precip with
  | [] => []
  | d :: _ =>
      [{| severity := NUTRIENT_FLUSH; day := d; date := ""%string;
          score := 0 |}]
  end.

Definition trajectory_of (scores : list Q) : Trajectory :=
  if (2 <=? length scores)%nat then
    let trend := last scores 0 - nth 0 scores 0 in
    if Qlt_le_dec 10 trend then worsening
    else if Qlt_le_dec trend (-10) then improving
    else stable
  else stable.

(** The result without its summary text. *)
Record PredictiveAlerts := {
  alerts : list Alert;
  days_to_warning : option nat;
  days_to_critical : option nat;
  max_forecast_risk : Q;
  risk_trajectory : Trajectory;
  n_alerts : nat
}.

(** [build_predictive_alerts] on a forecast of [build_7day_forecast], which
    holds every key the function reads. *)
Definition build_predictive_alerts
    (forecast : Forecast) (current_risk_score : Q)
    (current_risk_level : string) : PredictiveAlerts :=
  let dates := dates forecast in
  let scores := risk_scores forecast in
  let temp_max := temp_max forecast in
  let precip := precip forecast in
  let wind_max := wind_max forecast in
  let currently_warning := Qle_bool 50.0 current_risk_score in
  let currently_critical := Qle_bool 75.0 current_risk_score in
  let st :=
    fold_left (scan_day dates scores currently_warning currently_critical)
      (Py.enumerate scores)
      {| scan_alerts := []; scan_days_to_warning := None;
         scan_days_to_critical := None;
         scan_max_risk := current_risk_score |} in
  let alerts := scan_alerts st ++ heat_alerts dates scores temp_max in
  let alerts := alerts ++ calm_alerts wind_max in
  let alerts := alerts ++ flush_alerts precip in
  {| alerts := alerts;
     days_to_warning := scan_days_to_warning st;
     days_to_critical := scan_days_to_critical st;
     max_forecast_risk := Py.round (scan_max_risk st) 10;
     risk_trajectory := trajectory_of scores;
     n_alerts := length alerts |}.

End PredictiveAlerts.

(** ** models/light_model.py *)

Module LightModel.

(** The keys of the [light_features] dict; a missing key is [None]. *)
Record LightDict := {
  uv_index : option R;
  cloud_cover : option R;
  latitude : option R;
  day_of_year : option R
}.

Record LightResult := {
  score : Q;
  uv_norm : Q;
  day_length_h : Q;
  cloud_factor : Q
}.

Definition get (v : option R) (default : R) : R :=
  match v with Some x => x | None => default end.

(** [compute_light_score]; [None] where [light_features.py] hands back an
    invalid value. *)
Definition compute_light_score (light_features : LightDict)
    : option LightResult :=
  let uv := get (uv_index light_features) 3.0 in
  let cloud := get (cloud_cover light_features) 50 in
  let lat := get (latitude light_features) 45.0 in
  let doy := get (day_of_year light_features) 180 in
  match LightFeatures.compute_light_score uv cloud lat doy,
        LightFeatures.photoperiod lat doy with
  | Some combined, Some hours =>
      Some {| score := Py.roundR (Py.clipR combined 0 100) 10;
              uv_norm :=
                Py.roundR
                  (LightFeatures.normalize_uv uv
                     LightFeatures.max_uv_default) 1000;
              day_length_h := Py.roundR hours 10;
              cloud_factor :=
                Py.roundR (LightFeatures.cloud_suppression cloud) 1000 |}
  | _, _ => None
  end.

End LightModel.

(** ** config/constants.py *)

Module Constants.

Record RiskBand := {
  band_min : Q;
  band_max : Q;
  band_color : string;
  band_label : string
}.

(** [RISK_LEVELS], keyed by the level (the emoji are left out). *)
Definition RISK_LEVELS (level : BloomProbability.RiskLevel) : RiskBand :=
  match level with
  | BloomProbability.SAFE =>
      {| band_min := 0; band_max := 25; band_color := "#2ecc71";
         band_label := "Safe" |}
  | BloomProbability.LOW =>
      {| band_min := 25; band_max := 50; band_color := "#f1c40f";
         band_label := "Low Risk" |}
  | BloomProbability.WARNING =>
      {| band_min := 50; band_max := 75; band_color := "#e67e22";
         band_label := "Warning" |}
  | BloomProbability.CRITICAL =>
      {| band_min := 75; band_max := 100; band_color := "#e74c3c";
         band_label := "Critical" |}
  end.

(** [WHO_CYANO_THRESHOLDS]: label, cells/mL and colour (the descriptions
    are left out). *)
Definition WHO_CYANO_THRESHOLDS : list (string * Z * string) :=
  [("WHO Low"%string, 20000%Z, "#2ecc71"%string);
   ("WHO Moderate"%string, 100000%Z, "#f1c40f"%string);
   ("WHO High"%string, 10000000%Z, "#e74c3c"%string)].

End Constants.

(** ** analysis/who_comparison.py *)

Module WhoComparison.

(** The four proximity texts, by the branch that builds them. *)
Inductive Proximity :=
| below_low_threshold
| exceeds_low_threshold
| exceeds_moderate_threshold
| far_exceeds_high_threshold.

(** The result without the formatted cell count; the proximity text is
    given by its branch. *)
Record WhoInfo := {
  thresholds : list (string * Z * string);
  risk_color : string;
  proximity_text : Proximity;
  who_severity : BloomProbability.WhoSeverity
}.

Definition format_who_comparison
    (risk_score : Q) (estimated_cells : Z)
    (who_severity : BloomProbability.WhoSeverity) : WhoInfo :=
  let risk_color :=
    if Qlt_le_dec risk_score 25 then "#2ecc71"%string
    else if Qlt_le_dec risk_score 50 then "#f1c40f"%string
    else if Qlt_le_dec risk_score 75 then "#e67e22"%string
    else "#e74c3c"%string in
  let proximity :=
    if (estimated_cells <? 20000)%Z then below_low_threshold
    else if (estimated_cells <? 100000)%Z then exceeds_low_threshold
    else if (estimated_cells <? 10000000)%Z then exceeds_moderate_threshold
    else far_exceeds_high_threshold in
  {| thresholds := Constants.WHO_CYANO_THRESHOLDS;
     risk_color := risk_color;
     proximity_text := proximity;
     who_severity := who_severity |}.

End WhoComparison.

(** ** Certified enclosures of [exp] at rational points

    Fixed-point integers with [fx_digits] decimals: [exp (p/q)] is enclosed by
    scaling the argument down by [2 ^ k], bounding [exp h] between [1 + h] and
    [1 / (1 - h)], and squaring [k] times with outward rounding. *)

Module ExpBounds.

Definition fx_one : Z := (10 ^ 40)%Z.

Fixpoint sq_down (k : nat) (n : Z) : Z :=
  match k with
  | O => n
  | S k' => sq_down k' (n * n / fx_one)%Z
  end.

Fixpoint sq_up (k : nat) (n : Z) : Z :=
  match k with
  | O => n
  | S k' => sq_up k' (n * n / fx_one + 1)%Z
  end.

Definition exp_lo (p q : Z) (k : nat) : Z :=
  sq_down k (fx_one + fx_one * p / (q * 2 ^ Z.of_nat k))%Z.

Definition exp_hi (p q : Z) (k : nat) : Z :=
  let d := (q * 2 ^ Z.of_nat k)%Z in
  sq_up k (fx_one * d / (d - p) + 1)%Z.

End ExpBounds.

(** ** Notions the specification uses *)

Module Spec.

(** The specification's [clamp(x, lo, hi)]: [x] brought into [[lo, hi]]. *)
Definition clamp (x lo hi : R) : R := Rmax lo (Rmin x hi).

(** "About [target] cells": within a factor of two of the target, the widest
    reading of the specification's [~]. *)
Definition about (cells target : Z) : Prop :=
  (target <= 2 * cells)%Z /\ (cells <= 2 * target)%Z.

(** The weighted geometric mean of scores [xs] under weights [ws]: the
    product of the powers [x ^ w]. *)
Definition weighted_geometric_mean (ws xs : list R) : R :=
  fold_right Rmult 1%R
    (map (fun wx => Rpower (snd wx) (fst wx)) (combine ws xs)).

(** Ordinary least squares on the points [(x, y)]: the sum of squared
    residuals of the line [y = a + b x], and the slope of the normal
    equations. *)
Definition squared_error (pts : list (Q * Q)) (a b : Q) : Q :=
  fold_right Qplus 0 (map (fun p => (snd p - (a + b * fst p)) ^ 2) pts).

Definition total (f : Q * Q -> Q) (pts : list (Q * Q)) : Q :=
  fold_right Qplus 0 (map f pts).

(** The non-NaN values of a series, in their order. *)
Fixpoint valid_values (series : list (option Q)) : list Q :=
  match series with
  | [] => []
  | Some y :: rest => y :: valid_values rest
  | None :: rest => valid_values rest
  end.

(** The last [n] entries of a list: all of them when there are fewer. *)
Definition last_entries {A : Type} (n : nat) (l : list A) : list A :=
  rev (firstn n (rev l)).

(** Values taken as consecutive days: the points [(0, y0), (1, y1), ...]. *)
Definition indexed (ys : list Q) : list (Q * Q) :=
  combine (map (fun i => inject_Z (Z.of_nat i)) (seq 0 (length ys))) ys.

(** What the scan has recorded about a threshold after [k] scores: the day
    of the first score at or above it, unless the current score was
    already there. *)
Definition crossing_by
    (thr : Q) (scores : list Q) (k : nat) (already : bool)
    (days_to : option nat) : Prop :=
  match days_to with
  | Some d =>
      already = false /\ (1 <= d <= k)%nat
      /\ thr <= nth (d - 1) scores 0
      /\ forall j, (j < d - 1)%nat -> nth j scores 0 < thr
  | None =>
      already = true \/ forall j, (j < k)%nat -> nth j scores 0 < thr
  end.

(** How many alerts of a list have a given severity. *)
Definition count_severity
    (sev : PredictiveAlerts.Severity) (l : list PredictiveAlerts.Alert)
    : nat :=
  length
    (filter
       (fun a =>
          match PredictiveAlerts.severity a, sev with
          | PredictiveAlerts.WARNING, PredictiveAlerts.WARNING
          | PredictiveAlerts.CRITICAL, PredictiveAlerts.CRITICAL
          | PredictiveAlerts.RAPID_INCREASE, PredictiveAlerts.RAPID_INCREASE
          | PredictiveAlerts.HEAT, PredictiveAlerts.HEAT
          | PredictiveAlerts.STAGNATION, PredictiveAlerts.STAGNATION
          | PredictiveAlerts.NUTRIENT_FLUSH, PredictiveAlerts.NUTRIENT_FLUSH
            => true
          | _, _ => false
          end) l).

Definition ols_slope (pts : list (Q * Q)) : Q :=
  let n := inject_Z (Z.of_nat (length pts)) in
  let sx := total fst pts in
  let sy := total snd pts in
  let sxy := total (fun p => fst p * snd p) pts in
  let sxx := total (fun p => fst p * fst p) pts in
  (n * sxy - sx * sy) / (n * sxx - sx * sx).

End Spec.

(** ** Sample inputs *)

Module Samples.

(** A logistic stand-in for the normal distribution function, to run the
    Mann-Kendall test on concrete series. *)
Definition logistic_cdf (z : R) : R := (1 / (1 + exp (- 1.702 * z)))%R.

(** A rising week followed by five days without a reading. *)
Definition week_then_gap : list (option Q) :=
  map Some [1; 2; 3; 4; 5; 6; 7] ++ repeat None 5.

(** Fallback dates of a forecast built on 1 July 2024. *)
Definition july_dates (i : nat) : string :=
  nth i ["2024-07-01"; "2024-07-02"; "2024-07-03"; "2024-07-04";
         "2024-07-05"; "2024-07-06"; "2024-07-07"]%string ""%string.

(** A weather payload with three raw forecast days. *)
Definition three_days : ForecastEngine.Daily :=
  {| ForecastEngine.time := ["2024-07-01"; "2024-07-02"; "2024-07-03"]%string;
     ForecastEngine.temperature_2m_max := [Some 30; Some 31; None];
     ForecastEngine.temperature_2m_min := [Some 18; Some 19; Some 17];
     ForecastEngine.precipitation_sum := [Some 0; Some 2.5; Some 0];
     ForecastEngine.wind_speed_10m_max := [Some 6; Some 12; Some 9];
     ForecastEngine.uv_index_max := [Some 7; Some 8; Some 6] |}.

(** Ten raw days: seven historical and three more, all at the same values. *)
Definition ten_days : ForecastEngine.Daily :=
  {| ForecastEngine.time := repeat "2024-07-01"%string 10;
     ForecastEngine.temperature_2m_max := repeat (Some 30) 10;
     ForecastEngine.temperature_2m_min := repeat (Some 18) 10;
     ForecastEngine.precipitation_sum := repeat (Some 0) 10;
     ForecastEngine.wind_speed_10m_max := repeat (Some 6) 10;
     ForecastEngine.uv_index_max := repeat (Some 7) 10 |}.

End Samples.

(** * Theorems *)

(** ** Risk bands *)

Section RiskBands.
Import BloomProbability.

Lemma risk_level_bands (s : Q) :
  ((s < 25 -> risk_level_of s = SAFE)
   /\ (25 <= s -> s < 50 -> risk_level_of s = LOW)
   /\ (50 <= s -> s < 75 -> risk_level_of s = WARNING)
   /\ (75 <= s -> risk_level_of s = CRITICAL))%Q.
Proof.
  unfold risk_level_of, _classify_risk.
  repeat split; intros;
    repeat (destruct Qlt_le_dec; simpl; try reflexivity; try lra).
Qed.

(** C5: risk-level classification is piecewise in the score with four fixed
    bands and a strict [<] on the upper bound of each tier: below 25 is SAFE,
    from 25 and below 50 is LOW, from 50 and below 75 is WARNING, from 75 on is
    CRITICAL; the six boundary scores 24.9, 25.0, 49.9, 50.0, 74.9 and 75.0 are
    classified SAFE, LOW, LOW, WARNING, WARNING and CRITICAL; and both
    aggregators report the band of the score they report. *)
Theorem classify_risk_bands :
  (forall s : Q,
      (s < 25 -> risk_level_of s = SAFE) /\
      (25 <= s -> s < 50 -> risk_level_of s = LOW) /\
      (50 <= s -> s < 75 -> risk_level_of s = WARNING) /\
      (75 <= s -> risk_level_of s = CRITICAL))%Q
  /\ risk_level_of 24.9 = SAFE
  /\ risk_level_of 25.0 = LOW
  /\ risk_level_of 49.9 = LOW
  /\ risk_level_of 50.0 = WARNING
  /\ risk_level_of 74.9 = WARNING
  /\ risk_level_of 75.0 = CRITICAL
  /\ (forall t n s l g c conf,
        risk_level (compute_bloom_probability t n s l g c conf)
        = risk_level_of
            (risk_score (compute_bloom_probability t n s l g c conf)))
  /\ (forall t n s l mu,
        br_risk_level (calculate_bloom_risk t n s l mu)
        = risk_level_of (br_risk_score (calculate_bloom_risk t n s l mu))).
Proof.
  split; [exact risk_level_bands |].
  do 6 (split; [reflexivity |]).
  split.
  - intros t n s l g c conf. unfold compute_bloom_probability, risk_level_of.
    destruct (_classify_risk _) as [[lv col] em] eqn:E.
    cbn [risk_score risk_level]. now rewrite E.
  - intros t n s l mu. unfold calculate_bloom_risk, risk_level_of.
    destruct (_classify_risk _) as [[lv col] em] eqn:E.
    cbn [br_risk_score br_risk_level]. now rewrite E.
Qed.

End RiskBands.

(** ** Enclosures of [exp] *)

Section ExpEnclosure.
Import ExpBounds.
Local Open Scope R_scope.

Lemma fx_one_pos : 0 < IZR fx_one.
Proof. apply IZR_lt. reflexivity. Qed.

Lemma exp_le_mono (x y : R) : x <= y -> exp x <= exp y.
Proof.
  intros [Hlt | ->]; [left; now apply exp_increasing | right; reflexivity].
Qed.

Lemma exp_double (a : R) : exp (a * 2) = exp a * exp a.
Proof. replace (a * 2) with (a + a) by lra. apply exp_plus. Qed.

Lemma exp_upper_inv (h : R) : h < 1 -> exp h <= / (1 - h).
Proof.
  intros Hh.
  assert (Hneg := exp_ineq1_le (- h)).
  assert (Hpos := exp_pos (- h)).
  rewrite exp_Ropp in Hneg, Hpos.
  assert (He := exp_pos h).
  rewrite <- (Rinv_inv (exp h)).
  apply Rinv_le_contravar; lra.
Qed.

(** Integer division rounds down. *)
Lemma IZR_div_floor (m d : Z) :
  (0 < d)%Z -> IZR (m / d) * IZR d <= IZR m < IZR (m / d + 1) * IZR d.
Proof.
  intros Hd. rewrite <- !mult_IZR. split.
  - apply IZR_le. rewrite Z.mul_comm. now apply Z.mul_div_le.
  - apply IZR_lt. rewrite Z.mul_comm. now apply Z.mul_succ_div_gt.
Qed.

Lemma Rdiv_le_l (a b c : R) : 0 < c -> a <= b * c -> a / c <= b.
Proof.
  intros Hc H. apply Rmult_le_reg_r with c; [exact Hc |].
  unfold Rdiv. rewrite Rmult_assoc, Rinv_l, Rmult_1_r by lra. exact H.
Qed.

Lemma Rdiv_le_r (a b c : R) : 0 < c -> a * c <= b -> a <= b / c.
Proof.
  intros Hc H. apply Rmult_le_reg_r with c; [exact Hc |].
  unfold Rdiv. rewrite Rmult_assoc, Rinv_l, Rmult_1_r by lra. exact H.
Qed.

Lemma sq_down_sound (k : nat) :
  forall (n : Z) (a : R),
    (0 <= n)%Z -> IZR n / IZR fx_one <= exp a ->
    IZR (sq_down k n) / IZR fx_one <= exp (a * 2 ^ k).
Proof.
  induction k as [| k IH]; intros n a Hn Hle; simpl.
  - now rewrite Rmult_1_r.
  - replace (a * (2 * 2 ^ k)) with (a * 2 * 2 ^ k) by ring.
    assert (HD := fx_one_pos).
    apply IH.
    + apply Z.div_pos; [nia | reflexivity].
    + rewrite exp_double.
      destruct (IZR_div_floor (n * n) fx_one eq_refl) as [Hlo _].
      rewrite mult_IZR in Hlo.
      assert (H0 : 0 <= IZR n) by now apply IZR_le.
      set (x := IZR n / IZR fx_one) in *.
      assert (Hx : IZR n = x * IZR fx_one) by (unfold x; field; lra).
      assert (Hx0 : 0 <= x)
        by (unfold x; apply Rmult_le_pos;
            [| left; apply Rinv_0_lt_compat]; lra).
      apply Rle_trans with (x * x).
      * apply Rdiv_le_l; [exact HD |].
        apply Rmult_le_reg_r with (IZR fx_one); [exact HD |].
        replace (x * x * IZR fx_one * IZR fx_one)
          with (x * IZR fx_one * (x * IZR fx_one)) by ring.
        now rewrite <- Hx.
      * apply Rmult_le_compat; lra.
Qed.

Lemma sq_up_sound (k : nat) :
  forall (n : Z) (a : R),
    exp a <= IZR n / IZR fx_one ->
    exp (a * 2 ^ k) <= IZR (sq_up k n) / IZR fx_one.
Proof.
  induction k as [| k IH]; intros n a Hle; simpl.
  - now rewrite Rmult_1_r.
  - replace (a * (2 * 2 ^ k)) with (a * 2 * 2 ^ k) by ring.
    assert (HD := fx_one_pos).
    apply IH.
    rewrite exp_double.
    destruct (IZR_div_floor (n * n) fx_one eq_refl) as [_ Hhi].
    rewrite mult_IZR in Hhi.
    assert (He := exp_pos a).
    set (x := IZR n / IZR fx_one) in *.
    assert (Hx : IZR n = x * IZR fx_one) by (unfold x; field; lra).
    apply Rle_trans with (x * x).
    + apply Rmult_le_compat; lra.
    + apply Rdiv_le_r; [exact HD |].
      apply Rmult_le_reg_r with (IZR fx_one); [exact HD |].
      replace (x * x * IZR fx_one * IZR fx_one)
        with (x * IZR fx_one * (x * IZR fx_one)) by ring.
      rewrite <- Hx. lra.
Qed.

Lemma pow2_IZR (k : nat) : IZR (2 ^ Z.of_nat k) = 2 ^ k.
Proof. now rewrite <- pow_IZR. Qed.

(** The enclosure: [exp_lo / 10^40 <= exp (p/q) <= exp_hi / 10^40]. *)
Lemma exp_enclosure (p q : Z) (k : nat) :
  (0 <= p)%Z -> (0 < q)%Z -> (p < q * 2 ^ Z.of_nat k)%Z ->
  IZR (exp_lo p q k) / IZR fx_one <= exp (IZR p / IZR q)
  /\ exp (IZR p / IZR q) <= IZR (exp_hi p q k) / IZR fx_one.
Proof.
  intros Hp Hq Hlt.
  assert (HD := fx_one_pos).
  set (d := (q * 2 ^ Z.of_nat k)%Z) in *.
  assert (Hd : (0 < d)%Z) by lia.
  assert (HdR : 0 < IZR d) by now apply IZR_lt.
  assert (HpR : 0 <= IZR p) by now apply IZR_le.
  assert (HqR : 0 < IZR q) by now apply IZR_lt.
  assert (Hpd : IZR p < IZR d) by now apply IZR_lt.
  assert (Harg : IZR p / IZR q = IZR p / IZR d * 2 ^ k).
  { unfold d. rewrite mult_IZR, pow2_IZR.
    assert (0 < 2 ^ k) by (apply pow_lt; lra). field; lra. }
  rewrite Harg. split.
  - unfold exp_lo. fold d. apply sq_down_sound.
    + assert (0 <= fx_one * p / d)%Z by (apply Z.div_pos; [| lia];
        apply Z.mul_nonneg_nonneg; [discriminate | lia]).
      assert (0 < fx_one)%Z by reflexivity. lia.
    + destruct (IZR_div_floor (fx_one * p) d Hd) as [Hlo _].
      rewrite mult_IZR in Hlo. rewrite plus_IZR.
      apply Rle_trans with (1 + IZR p / IZR d); [| apply exp_ineq1_le].
      apply Rmult_le_reg_r with (IZR fx_one * IZR d);
        [apply Rmult_lt_0_compat; lra |].
      replace ((IZR fx_one + IZR (fx_one * p / d)) / IZR fx_one
               * (IZR fx_one * IZR d))
        with (IZR fx_one * IZR d + IZR (fx_one * p / d) * IZR d)
        by (field; lra).
      replace ((1 + IZR p / IZR d) * (IZR fx_one * IZR d))
        with (IZR fx_one * IZR d + IZR fx_one * IZR p) by (field; lra).
      lra.
  - unfold exp_hi. fold d. apply sq_up_sound.
    assert (Hdp : (0 < d - p)%Z) by lia.
    assert (HdpR : 0 < IZR d - IZR p) by lra.
    destruct (IZR_div_floor (fx_one * d) (d - p) Hdp) as [_ Hhi].
    rewrite mult_IZR, minus_IZR in Hhi.
    apply Rle_trans with (/ (1 - IZR p / IZR d)).
    + apply exp_upper_inv.
      apply Rmult_lt_reg_r with (IZR d); [lra |].
      unfold Rdiv. rewrite Rmult_assoc, Rinv_l by lra. lra.
    + replace (/ (1 - IZR p / IZR d)) with (IZR d / (IZR d - IZR p))
        by (field; lra).
      apply Rmult_le_reg_r with (IZR fx_one * (IZR d - IZR p));
        [apply Rmult_lt_0_compat; lra |].
      replace (IZR d / (IZR d - IZR p) * (IZR fx_one * (IZR d - IZR p)))
        with (IZR fx_one * IZR d) by (field; lra).
      replace (IZR (fx_one * d / (d - p) + 1) / IZR fx_one
               * (IZR fx_one * (IZR d - IZR p)))
        with (IZR (fx_one * d / (d - p) + 1) * (IZR d - IZR p))
        by (field; lra).
      lra.
Qed.

End ExpEnclosure.

(** ** [_estimate_cells] and the WHO severity *)

Section EstimateCells.
Import ExpBounds BloomProbability.
Local Open Scope R_scope.

Ltac enclose p q :=
  let Hlo := fresh "Hlo" in
  let Hhi := fresh "Hhi" in
  destruct (exp_enclosure p q 50 ltac:(discriminate) eq_refl eq_refl)
    as [Hlo Hhi];
  let lo := fresh "lo" in
  let hi := fresh "hi" in
  let one := fresh "one" in
  set (lo := exp_lo p q 50) in Hlo; vm_compute in lo; subst lo;
  set (hi := exp_hi p q 50) in Hhi; vm_compute in hi; subst hi;
  set (one := fx_one) in Hlo, Hhi; vm_compute in one; subst one.

Lemma exp_23_2 : 98715.771 < exp (23 / 2) < 98715.772.
Proof. enclose 23%Z 2%Z. lra. Qed.

Lemma exp_23_4 : 314.1906 < exp (23 / 4) < 314.1907.
Proof. enclose 23%Z 4%Z. lra. Qed.

Lemma clipR_id (x lo hi : R) : lo <= x <= hi -> Py.clipR x lo hi = x.
Proof.
  intros [H1 H2]. unfold Py.clipR.
  rewrite (Rmax_left x lo H1). now apply Rmin_left.
Qed.

Lemma clipR_bounds (x lo hi : R) : lo <= hi -> lo <= Py.clipR x lo hi <= hi.
Proof.
  intros H. unfold Py.clipR, Rmin, Rmax.
  repeat destruct Rle_dec; lra.
Qed.

Lemma clipR_mono (x y lo hi : R) :
  x <= y -> Py.clipR x lo hi <= Py.clipR y lo hi.
Proof.
  intros H. unfold Py.clipR, Rmin, Rmax.
  repeat destruct Rle_dec; lra.
Qed.

Lemma int_nonneg (x : R) : 0 <= x -> Py.int x = Zfloor x.
Proof. intros H. unfold Py.int. now destruct Rle_dec. Qed.

(** Whatever the score, the clamp keeps the value positive, so [int] is the
    floor. *)
Lemma estimate_cells_floor (s : R) :
  _estimate_cells s = Zfloor (Py.clipR (100 * exp (s * 0.115)) 100 20000000).
Proof.
  unfold _estimate_cells. apply int_nonneg.
  pose proof (clipR_bounds (100 * exp (s * 0.115)) 100 20000000). lra.
Qed.

Lemma estimate_cells_mono (a b : R) :
  a <= b -> (_estimate_cells a <= _estimate_cells b)%Z.
Proof.
  intros Hab. rewrite !estimate_cells_floor.
  apply Zfloor_le, clipR_mono.
  apply Rmult_le_compat_l; [lra |]. apply exp_le_mono. lra.
Qed.

Lemma estimate_cells_100 : _estimate_cells 100 = 9871577%Z.
Proof.
  rewrite estimate_cells_floor.
  replace (100 * 0.115) with (23 / 2) by lra.
  pose proof exp_23_2 as H.
  rewrite clipR_id by lra.
  apply Zfloor_eq. lra.
Qed.

Lemma estimate_cells_50 : _estimate_cells 50 = 31419%Z.
Proof.
  rewrite estimate_cells_floor.
  replace (50 * 0.115) with (23 / 4) by lra.
  pose proof exp_23_4 as H.
  rewrite clipR_id by lra.
  apply Zfloor_eq. lra.
Qed.

Lemma estimate_cells_0 : _estimate_cells 0 = 100%Z.
Proof.
  rewrite estimate_cells_floor.
  replace (0 * 0.115) with 0 by lra. rewrite exp_0.
  rewrite clipR_id by lra.
  apply Zfloor_eq. lra.
Qed.

(** Scores at least 0.1 apart, the granularity of the rounded score, give
    strictly more cells. *)
Lemma estimate_cells_strict (a b : R) :
  0 <= a -> a + 0.1 <= b -> b <= 100 ->
  (_estimate_cells a < _estimate_cells b)%Z.
Proof.
  intros Ha Hab Hb.
  assert (Hmono : (_estimate_cells (a + 0.1) <= _estimate_cells b)%Z)
    by now apply estimate_cells_mono.
  enough (_estimate_cells a + 1 <= _estimate_cells (a + 0.1))%Z by lia.
  rewrite !estimate_cells_floor.
  assert (H1 : exp 0 <= exp (a * 0.115)) by (apply exp_le_mono; lra).
  assert (H2 : exp ((a + 0.1) * 0.115) <= exp (23 / 2))
    by (apply exp_le_mono; lra).
  assert (H3 : exp (a * 0.115) <= exp ((a + 0.1) * 0.115))
    by (apply exp_le_mono; lra).
  rewrite exp_0 in H1. pose proof exp_23_2 as H4.
  rewrite !clipR_id by lra.
  rewrite <- Zfloor_addz. apply Zfloor_le.
  replace ((a + 0.1) * 0.115) with (a * 0.115 + 0.0115) by lra.
  rewrite exp_plus.
  pose proof (exp_ineq1_le 0.0115) as H5.
  assert (H6 : exp (a * 0.115) * (1 + 0.0115)
               <= exp (a * 0.115) * exp 0.0115)
    by (apply Rmult_le_compat_l; lra).
  lra.
Qed.

(** On scores in [0, 100] the clamp is inactive. *)
Lemma estimate_cells_unclamped (s : R) :
  0 <= s <= 100 -> _estimate_cells s = Zfloor (100 * exp (s * 0.115)).
Proof.
  intros Hs. rewrite estimate_cells_floor. f_equal.
  apply clipR_id.
  assert (H1 : exp 0 <= exp (s * 0.115)) by (apply exp_le_mono; lra).
  assert (H2 : exp (s * 0.115) <= exp (23 / 2)) by (apply exp_le_mono; lra).
  rewrite exp_0 in H1. pose proof exp_23_2. lra.
Qed.

End EstimateCells.

Section Rounding.
Local Open Scope Q_scope.

Lemma clip_bounds (x lo hi : Q) : lo <= hi -> lo <= Py.clip x lo hi <= hi.
Proof.
  intros H. unfold Py.clip.
  destruct (Q.max_spec x lo) as [[H1 E1] | [H1 E1]];
    destruct (Q.min_spec (Qmax x lo) hi) as [[H2 E2] | [H2 E2]];
    rewrite E2; rewrite ?E1 in *; split; lra.
Qed.

Lemma round_half_even_bounds (q : Q) (m : Z) :
  0 <= q -> q <= inject_Z m ->
  (0 <= Py.round_half_even q <= m)%Z.
Proof.
  intros H0 Hm. unfold Py.round_half_even.
  pose proof (Qfloor_le q) as Hfl.
  pose proof (Qlt_floor q) as Hfu.
  assert (Hf0 : (0 <= Qfloor q)%Z).
  { change 0%Z with (Qfloor 0). now apply Qfloor_resp_le. }
  assert (Hfm : (Qfloor q <= m)%Z).
  { rewrite <- (Qfloor_Z m). now apply Qfloor_resp_le. }
  assert (Hstep : 1 # 2 <= q - inject_Z (Qfloor q) -> (Qfloor q + 1 <= m)%Z).
  { intros Hhalf.
    assert (Hlt : inject_Z (Qfloor q) < inject_Z m) by lra.
    rewrite <- Zlt_Qlt in Hlt. lia. }
  destruct (Qcompare_spec (q - inject_Z (Qfloor q)) (1 # 2)) as [E | L | G].
  - destruct (Z.even (Qfloor q)); [lia |].
    split; [lia | apply Hstep; rewrite E; lra].
  - lia.
  - split; [lia | apply Hstep; lra].
Qed.

Lemma round_bounds (x : Q) (scale : positive) (m : Z) :
  0 <= x -> x <= inject_Z m ->
  0 <= Py.round x scale <= inject_Z m.
Proof.
  intros H0 Hm. unfold Py.round.
  assert (Hs : 0 < inject_Z (Zpos scale)) by (rewrite <- (Zlt_Qlt 0); lia).
  destruct (round_half_even_bounds (x * inject_Z (Zpos scale))
              (m * Zpos scale)) as [Hlo Hhi].
  - apply Qmult_le_0_compat; lra.
  - rewrite inject_Z_mult. apply Qmult_le_compat_r; lra.
  - set (r := Py.round_half_even (x * inject_Z (Zpos scale))) in *.
    unfold Qle. simpl. lia.
Qed.

Lemma round_half_even_mono (p q : Q) :
  p <= q -> (Py.round_half_even p <= Py.round_half_even q)%Z.
Proof.
  intros Hpq. unfold Py.round_half_even.
  pose proof (Qfloor_le p) as Hp. pose proof (Qlt_floor p) as Hp'.
  pose proof (Qfloor_le q) as Hq. pose proof (Qlt_floor q) as Hq'.
  pose proof (Qfloor_resp_le p q Hpq) as Hf.
  rewrite inject_Z_plus in Hp', Hq'.
  destruct (Z.eq_dec (Qfloor p) (Qfloor q)) as [E | N].
  - rewrite <- E in *.
    destruct (Qcompare_spec (p - inject_Z (Qfloor p)) (1 # 2));
      destruct (Qcompare_spec (q - inject_Z (Qfloor p)) (1 # 2));
      try destruct (Z.even (Qfloor p)); try lia; lra.
  - assert (Hlt : (Qfloor p + 1 <= Qfloor q)%Z) by lia.
    destruct (Qcompare (p - inject_Z (Qfloor p)) (1 # 2));
      destruct (Qcompare (q - inject_Z (Qfloor q)) (1 # 2));
      try destruct (Z.even (Qfloor p)); try destruct (Z.even (Qfloor q));
      lia.
Qed.

Lemma round_half_even_proper (p q : Q) :
  p == q -> Py.round_half_even p = Py.round_half_even q.
Proof.
  intros E. unfold Py.round_half_even.
  rewrite (Qfloor_comp p q E).
  assert (Ec : (p - inject_Z (Qfloor q) ?= 1 # 2)
               = (q - inject_Z (Qfloor q) ?= 1 # 2)) by now rewrite E.
  now rewrite Ec.
Qed.

Lemma round_proper (x y : Q) (scale : positive) :
  x == y -> Py.round x scale = Py.round y scale.
Proof.
  intros E. unfold Py.round. f_equal.
  apply round_half_even_proper. now rewrite E.
Qed.

Lemma round_mono (x y : Q) (scale : positive) :
  x <= y -> Py.round x scale <= Py.round y scale.
Proof.
  intros H. unfold Py.round.
  assert (Hs : 0 < inject_Z (Zpos scale)) by (rewrite <- (Zlt_Qlt 0); lia).
  assert (Hm := round_half_even_mono (x * inject_Z (Zpos scale))
                  (y * inject_Z (Zpos scale))
                  ltac:(apply Qmult_le_compat_r; lra)).
  unfold Qle. simpl. nia.
Qed.

End Rounding.

Section RoundingR.
Local Open Scope R_scope.

Lemma round_half_evenR_bounds (x : R) (m : Z) :
  0 <= x -> x <= IZR m -> (0 <= Py.round_half_evenR x <= m)%Z.
Proof.
  intros H0 Hm. unfold Py.round_half_evenR.
  pose proof (Zfloor_bound x) as [Hfl Hfu].
  assert (Hf0 : (0 <= Zfloor x)%Z) by now apply Zfloor_lub.
  assert (Hfm : (Zfloor x <= m)%Z) by (apply le_IZR; lra).
  assert (Hstep : 1 / 2 <= x - IZR (Zfloor x) -> (Zfloor x + 1 <= m)%Z).
  { intros Hhalf.
    assert (Hlt : (Zfloor x < m)%Z) by (apply lt_IZR; lra). lia. }
  destruct Rlt_dec as [L | NL]; [lia |].
  destruct Rlt_dec as [G | NG].
  - split; [lia | apply Hstep; lra].
  - destruct (Z.even (Zfloor x)); [lia |].
    split; [lia | apply Hstep; lra].
Qed.

Lemma roundR_bounds (x : R) (scale : positive) (m : Z) :
  0 <= x -> x <= IZR m ->
  0 <= Q2R (Py.roundR x scale) <= IZR m.
Proof.
  intros H0 Hm. unfold Py.roundR, Q2R. simpl Qnum. simpl Qden.
  assert (Hs : 0 < IZR (Zpos scale)) by (apply IZR_lt; lia).
  destruct (round_half_evenR_bounds (x * IZR (Zpos scale))
              (m * Zpos scale)) as [Hlo Hhi].
  - apply Rmult_le_pos; lra.
  - rewrite mult_IZR. apply Rmult_le_compat_r; lra.
  - apply IZR_le in Hlo, Hhi. rewrite mult_IZR in Hhi. split.
    + apply Rmult_le_pos; [lra | left; now apply Rinv_0_lt_compat].
    + apply Rdiv_le_l; lra.
Qed.

Lemma round_half_evenR_mono (x y : R) :
  x <= y -> (Py.round_half_evenR x <= Py.round_half_evenR y)%Z.
Proof.
  intros Hxy. unfold Py.round_half_evenR.
  pose proof (Zfloor_bound x) as [Hx Hx'].
  pose proof (Zfloor_bound y) as [Hy Hy'].
  pose proof (Zfloor_le x y Hxy) as Hf.
  destruct (Z.eq_dec (Zfloor x) (Zfloor y)) as [E | N].
  - rewrite <- E in *.
    repeat destruct Rlt_dec; try destruct (Z.even (Zfloor x)); try lia; lra.
  - assert (Hlt : (Zfloor x + 1 <= Zfloor y)%Z) by lia.
    repeat destruct Rlt_dec;
      try destruct (Z.even (Zfloor x)); try destruct (Z.even (Zfloor y));
      lia.
Qed.

Lemma roundR_mono (x y : R) (scale : positive) :
  x <= y -> (Py.roundR x scale <= Py.roundR y scale)%Q.
Proof.
  intros H. unfold Py.roundR.
  assert (Hs : 0 < IZR (Zpos scale)) by (apply IZR_lt; lia).
  assert (Hm := round_half_evenR_mono (x * IZR (Zpos scale))
                  (y * IZR (Zpos scale))
                  ltac:(apply Rmult_le_compat_r; lra)).
  unfold Qle. simpl. nia.
Qed.

End RoundingR.

Section EstimateCellsClaims.
Import BloomProbability.
Local Open Scope R_scope.

Lemma clamp_is_clip (x lo hi : R) :
  lo <= hi -> Spec.clamp x lo hi = Py.clipR x lo hi.
Proof.
  intros H. unfold Spec.clamp, Py.clipR, Rmin, Rmax.
  repeat destruct Rle_dec; lra.
Qed.

(** C1 (as the specification words it, refuted): score 100 does not give
    about 20M cells; [_estimate_cells 100] is 9,871,577, less than half of
    20,000,000. *)
Lemma estimate_cells_100_not_about_20M :
  ~ Spec.about (_estimate_cells 100) 20000000.
Proof.
  rewrite estimate_cells_100. unfold Spec.about. lia.
Qed.

(** C1 (amended): for every score in [0, 100] the estimated cell count is
    [clamp(100 * e^(0.115 * score), 100, 20_000_000)] truncated to an integer
    (the clamp is inactive there, so it is the floor of [100 * e^(0.115 *
    score)]); it is monotonic in the score: never decreasing, and strictly
    increasing across scores at least 0.1 apart; score 50 gives 31,419 cells,
    about 20k; score 100 gives 9,871,577 cells, about 10M, so the 20M cap is
    never reached. *)
Theorem estimate_cells_exponential_map :
  (forall s : R, 0 <= s <= 100 ->
     _estimate_cells s
     = Py.int (Spec.clamp (100 * exp (0.115 * s)) 100 20000000)
     /\ _estimate_cells s = Zfloor (100 * exp (0.115 * s)))
  /\ (forall a b : R, a <= b -> (_estimate_cells a <= _estimate_cells b)%Z)
  /\ (forall a b : R,
        0 <= a -> a + 0.1 <= b -> b <= 100 ->
        (_estimate_cells a < _estimate_cells b)%Z)
  /\ _estimate_cells 50 = 31419%Z
  /\ Spec.about (_estimate_cells 50) 20000
  /\ _estimate_cells 100 = 9871577%Z
  /\ Spec.about (_estimate_cells 100) 10000000
  /\ (forall s : R, 0 <= s <= 100 -> (_estimate_cells s < 20000000)%Z).
Proof.
  split; [| split; [| split; [| split; [| split; [| split; [| split]]]]]].
  - intros s Hs. split.
    + rewrite clamp_is_clip by lra. unfold _estimate_cells.
      now replace (0.115 * s) with (s * 0.115) by ring.
    + rewrite estimate_cells_unclamped by assumption.
      now replace (0.115 * s) with (s * 0.115) by ring.
  - exact estimate_cells_mono.
  - exact estimate_cells_strict.
  - exact estimate_cells_50.
  - rewrite estimate_cells_50. unfold Spec.about. lia.
  - exact estimate_cells_100.
  - rewrite estimate_cells_100. unfold Spec.about. lia.
  - intros s [_ Hs]. apply estimate_cells_mono in Hs.
    rewrite estimate_cells_100 in Hs. lia.
Qed.

Lemma who_severity_below_10M (cells : Z) :
  (cells < 10000000)%Z -> _who_severity cells <> very_high_risk.
Proof.
  intros H. unfold _who_severity.
  destruct (cells <? 20000)%Z; [discriminate |].
  destruct (cells <? 100000)%Z; [discriminate |].
  destruct (Z.ltb_spec cells 10000000); [discriminate | lia].
Qed.

Lemma severity_of_score (s : R) :
  0 <= s <= 100 ->
  (_estimate_cells s <= 9871577)%Z
  /\ _who_severity (_estimate_cells s) <> very_high_risk.
Proof.
  intros [_ Hs]. apply estimate_cells_mono in Hs.
  rewrite estimate_cells_100 in Hs.
  split; [exact Hs | apply who_severity_below_10M; lia].
Qed.

Lemma Q2R_bounds_100 (q : Q) : (0 <= q <= 100)%Q -> 0 <= Q2R q <= 100.
Proof.
  intros [H0 H1]. apply Qle_Rle in H0, H1.
  replace (Q2R 0) with 0 in H0 by (unfold Q2R; simpl; lra).
  replace (Q2R 100) with 100 in H1 by (unfold Q2R; simpl; lra).
  lra.
Qed.

Lemma compute_bloom_probability_score
    (t n s l : Q) (g : GrowthDict) (c : option (option Q)) (conf : string) :
  (0 <= risk_score (compute_bloom_probability t n s l g c conf) <= 100)%Q
  /\ who_severity (compute_bloom_probability t n s l g c conf)
     = _who_severity
         (_estimate_cells
            (Q2R (risk_score (compute_bloom_probability t n s l g c conf)))).
Proof.
  unfold compute_bloom_probability.
  destruct (_classify_risk _) as [[lv col] em]. simpl. split; [| reflexivity].
  apply (round_bounds _ 10 100); apply clip_bounds; discriminate.
Qed.

Lemma calculate_bloom_risk_score (t n s l mu : Q) :
  0 <= Q2R (br_risk_score (calculate_bloom_risk t n s l mu)) <= 100
  /\ br_who_level (calculate_bloom_risk t n s l mu)
     = _who_severity
         (_estimate_cells
            (Q2R (br_risk_score (calculate_bloom_risk t n s l mu)))).
Proof.
  unfold calculate_bloom_risk.
  destruct (_classify_risk _) as [[lv col] em]. simpl. split; [| reflexivity].
  apply (roundR_bounds _ 10 100); apply clipR_bounds; lra.
Qed.

(** C4: for every score in the clamped range [0, 100] of both aggregators,
    [_estimate_cells] returns at most [floor (100 * e^11.5)] = 9,871,577
    cells/mL, strictly below the 10,000,000-cell breakpoint; hence the WHO
    severity that [compute_bloom_probability] and [calculate_bloom_risk]
    report is never [very_high_risk]. *)
Theorem who_severity_never_very_high :
  Zfloor (100 * exp 11.5) = 9871577%Z
  /\ (forall s : R, 0 <= s <= 100 ->
        (_estimate_cells s <= 9871577 < 10000000)%Z
        /\ _who_severity (_estimate_cells s) <> very_high_risk)
  /\ (forall t n s l g c conf,
        who_severity (compute_bloom_probability t n s l g c conf)
        <> very_high_risk)
  /\ (forall t n s l mu,
        br_who_level (calculate_bloom_risk t n s l mu) <> very_high_risk).
Proof.
  split; [| split; [| split]].
  - replace 11.5 with (23 / 2) by lra. pose proof exp_23_2.
    apply Zfloor_eq. lra.
  - intros s Hs. destruct (severity_of_score s Hs) as [H1 H2].
    split; [lia | exact H2].
  - intros t n s l g c conf.
    destruct (compute_bloom_probability_score t n s l g c conf) as [Hb ->].
    apply severity_of_score, Q2R_bounds_100, Hb.
  - intros t n s l mu.
    destruct (calculate_bloom_risk_score t n s l mu) as [Hb ->].
    now apply severity_of_score.
Qed.

End EstimateCellsClaims.

(** ** [calculate_bloom_risk]: the interaction boost *)

Section InteractionBoost.
Import BloomProbability.
Local Open Scope R_scope.

Lemma Q2R_lit (n : Z) (d : positive) : Q2R (n # d) = IZR n / IZR (Zpos d).
Proof. reflexivity. Qed.

(** The code's [exp (sum of w * ln s)] is the product of the powers. *)
Lemma geo_mean_is_weighted_geometric_mean (t n s l mu : Q) :
  geo_mean (clipped_scores t n s l mu)
  = Spec.weighted_geometric_mean
      (map Q2R geo_weights)
      (map (fun kv => Q2R (snd kv)) (clipped_scores t n s l mu)).
Proof.
  unfold geo_mean, Spec.weighted_geometric_mean, clipped_scores, geo_weights.
  cbn [combine map fold_left fold_right fst snd].
  unfold Rpower. rewrite !exp_plus, exp_0. ring.
Qed.

Lemma interaction_boost_70_70 :
  interaction_boost 70 70 = (0.10 * Qmin 70 70)%Q.
Proof.
  unfold interaction_boost.
  destruct (Qlt_le_dec 60 70) as [_ | H]; [| exfalso; revert H; now compute].
  reflexivity.
Qed.

Lemma interaction_boost_70 : Q2R (interaction_boost 70 70) = 7.
Proof.
  rewrite interaction_boost_70_70.
  change (Qmin 70 70) with 70%Q.
  rewrite Q2R_mult, !Q2R_lit. lra.
Qed.

Lemma interaction_boost_off (t n : Q) :
  (t <= 60 \/ n <= 60)%Q -> interaction_boost t n = 0%Q.
Proof.
  intros H. unfold interaction_boost.
  destruct (Qlt_le_dec 60 t); [| reflexivity].
  destruct (Qlt_le_dec 60 n); [| reflexivity].
  destruct H; lra.
Qed.

Lemma Q2R_clip (x lo hi : Q) :
  (lo <= hi)%Q ->
  Q2R (Py.clip x lo hi) = Spec.clamp (Q2R x) (Q2R lo) (Q2R hi).
Proof.
  intros H. unfold Py.clip, Spec.clamp.
  destruct (Q.max_spec x lo) as [[Hc Em] | [Hc Em]];
    destruct (Q.min_spec (Qmax x lo) hi) as [[Hd En] | [Hd En]];
    rewrite (Qeq_eqR _ _ En); rewrite ?(Qeq_eqR _ _ Em);
    rewrite Em in Hd;
    try apply Qlt_Rlt in Hc; try apply Qle_Rle in Hc;
    try apply Qlt_Rlt in Hd; try apply Qle_Rle in Hd;
    apply Qle_Rle in H;
    unfold Rmax, Rmin; repeat destruct Rle_dec; lra.
Qed.

Lemma Q2R_growth_score (mu : Q) :
  Q2R (Py.clip (mu / 1.2 * 100) 0 100)
  = Spec.clamp (Q2R mu / 1.2 * 100) 0 100.
Proof.
  rewrite Q2R_clip by discriminate.
  rewrite Q2R_mult, Q2R_div by discriminate. rewrite !Q2R_lit.
  f_equal; lra.
Qed.

Lemma Q2R_clipped_score (x : Q) :
  Q2R (Py.clip x 0.001 100) = Spec.clamp (Q2R x) 0.001 100.
Proof.
  rewrite Q2R_clip by discriminate. rewrite !Q2R_lit. f_equal; lra.
Qed.

Lemma clamp_70 : Spec.clamp (Q2R 70) 0.001 100 = 70.
Proof.
  rewrite Q2R_lit. unfold Spec.clamp, Rmax, Rmin.
  repeat destruct Rle_dec; lra.
Qed.

(** The geometric part of the score, written out: the five weights of the
    source on the five clamped sub-scores, the growth rate first scaled to
    [[0, 100]]. *)
Lemma geo_mean_written_out (t n s l mu : Q) :
  geo_mean (clipped_scores t n s l mu)
  = Spec.weighted_geometric_mean
      [0.30; 0.25; 0.20; 0.10; 0.15]
      [Spec.clamp (Q2R t) 0.001 100;
       Spec.clamp (Q2R n) 0.001 100;
       Spec.clamp (Q2R s) 0.001 100;
       Spec.clamp (Q2R l) 0.001 100;
       Spec.clamp (Spec.clamp (Q2R mu / 1.2 * 100) 0 100) 0.001 100].
Proof.
  rewrite geo_mean_is_weighted_geometric_mean.
  unfold geo_weights, clipped_scores. cbn [map snd].
  rewrite !Q2R_clipped_score, Q2R_growth_score, !Q2R_lit.
  replace (30 / 100) with 0.30 by lra. replace (25 / 100) with 0.25 by lra.
  replace (20 / 100) with 0.20 by lra. replace (10 / 100) with 0.10 by lra.
  replace (15 / 100) with 0.15 by lra.
  reflexivity.
Qed.

(** C8: in [calculate_bloom_risk] with temperature and nutrient scores both
    70 (both above 60), whatever the stagnation, light and growth inputs, the
    interaction boost is [0.10 * min(70, 70) = 7.0] and the score before
    clamping and rounding is the unboosted weighted geometric mean plus 7.0:
    the product [70^0.30 * 70^0.25 * s^0.20 * l^0.10 * g^0.15] of the
    sub-scores clamped to [[0.001, 100]], [g] being the growth rate scaled by
    [100 / 1.2] and clamped to [[0, 100]]; the reported score is that sum
    clamped to [[0, 100]] and rounded to one decimal.  When the temperature
    score or the nutrient score is at most 60 the boost is 0 and the
    unclamped score is the geometric mean alone. *)
Theorem interaction_boost_additive :
  (interaction_boost 70 70 == 0.10 * Qmin 70 70)%Q
  /\ (interaction_boost 70 70 == 7)%Q
  /\ (forall s l mu : Q,
        let base :=
          Spec.weighted_geometric_mean
            [0.30; 0.25; 0.20; 0.10; 0.15]
            [70; 70;
             Spec.clamp (Q2R s) 0.001 100;
             Spec.clamp (Q2R l) 0.001 100;
             Spec.clamp (Spec.clamp (Q2R mu / 1.2 * 100) 0 100) 0.001 100] in
        unclipped_risk 70 70 s l mu = base + 7
        /\ (br_interaction_boost (calculate_bloom_risk 70 70 s l mu) == 7)%Q
        /\ br_risk_score (calculate_bloom_risk 70 70 s l mu)
           = Py.roundR (Spec.clamp (base + 7) 0 100) 10)
  /\ (forall t n s l mu : Q,
        (t <= 60 \/ n <= 60)%Q ->
        interaction_boost t n = 0%Q
        /\ unclipped_risk t n s l mu
           = Spec.weighted_geometric_mean
               [0.30; 0.25; 0.20; 0.10; 0.15]
               [Spec.clamp (Q2R t) 0.001 100;
                Spec.clamp (Q2R n) 0.001 100;
                Spec.clamp (Q2R s) 0.001 100;
                Spec.clamp (Q2R l) 0.001 100;
                Spec.clamp (Spec.clamp (Q2R mu / 1.2 * 100) 0 100)
                  0.001 100]
        /\ (br_interaction_boost (calculate_bloom_risk t n s l mu) == 0)%Q).
Proof.
  assert (Hb : (interaction_boost 70 70 == 7)%Q).
  { apply eqR_Qeq. rewrite interaction_boost_70. unfold Q2R; simpl; lra. }
  split; [rewrite Hb; reflexivity |].
  split; [exact Hb |].
  split.
  - intros s l mu base.
    assert (Hu : unclipped_risk 70 70 s l mu = base + 7).
    { unfold unclipped_risk.
      rewrite interaction_boost_70, geo_mean_written_out, clamp_70.
      reflexivity. }
    split; [exact Hu | split].
    + unfold calculate_bloom_risk.
      destruct (_classify_risk _) as [[lv col] em]. simpl.
      rewrite interaction_boost_70_70. reflexivity.
    + unfold calculate_bloom_risk.
      destruct (_classify_risk _) as [[lv col] em]. cbn [br_risk_score].
      rewrite Hu, clamp_is_clip by lra. reflexivity.
  - intros t n s l mu H.
    pose proof (interaction_boost_off t n H) as H0.
    split; [exact H0 | split].
    + unfold unclipped_risk. rewrite H0, geo_mean_written_out.
      replace (Q2R 0) with 0 by (unfold Q2R; simpl; lra). lra.
    + unfold calculate_bloom_risk.
      destruct (_classify_risk _) as [[lv col] em]. simpl.
      rewrite H0. reflexivity.
Qed.

End InteractionBoost.

(** ** [_arrhenius_correction] *)

Section CardinalTemperature.
Import GrowthRate.
Local Open Scope Q_scope.

Lemma arrhenius_floor (w : Q) :
  w <= 5 \/ 40 <= w -> _arrhenius_correction w = 0.01.
Proof.
  intros H. unfold _arrhenius_correction. cbv zeta.
  destruct H as [H | H].
  - assert (E : Qle_bool w 5.0 = true) by (apply Qle_bool_iff; lra).
    now rewrite E.
  - assert (E : Qle_bool 40.0 w = true) by (apply Qle_bool_iff; lra).
    now rewrite E, orb_true_r.
Qed.

Lemma arrhenius_range (w : Q) : 0.01 <= _arrhenius_correction w <= 1.
Proof.
  unfold _arrhenius_correction.
  destruct (_ || _); [split; discriminate |].
  destruct (Qeq_bool _ 0); [split; discriminate |].
  cbv zeta.
  match goal with
  | |- _ <= Py.clip ?x _ _ <= _ =>
      generalize (clip_bounds x 0.01 1.0 ltac:(discriminate));
      generalize (Py.clip x 0.01 1.0)
  end.
  intros c Hc. lra.
Qed.

(** C7: the cardinal-temperature correction used by [compute_growth_rate]
    is exactly 0.01 for every water temperature at most 5 or at least 40, and
    its value at 28 (it is 1, the largest value the factor takes) is strictly
    larger than its value at 5 and at 40; the [temp_correction] that
    [compute_growth_rate] reports is this factor rounded to three decimals. *)
Theorem arrhenius_correction_floor_and_peak :
  (forall w : Q, w <= 5 \/ 40 <= w -> _arrhenius_correction w = 0.01)
  /\ _arrhenius_correction 5 = 0.01
  /\ _arrhenius_correction 40 = 0.01
  /\ _arrhenius_correction 28 == 1
  /\ _arrhenius_correction 5 < _arrhenius_correction 28
  /\ _arrhenius_correction 40 < _arrhenius_correction 28
  /\ (forall w : Q, _arrhenius_correction w <= _arrhenius_correction 28)
  /\ (forall t n l s w : Q,
        temp_correction (compute_growth_rate t n l s w)
        = Py.round (_arrhenius_correction w) 1000)
  /\ (forall t n l s w : Q,
        w <= 5 \/ 40 <= w ->
        temp_correction (compute_growth_rate t n l s w) == 0.01)
  /\ (forall t n l s : Q,
        temp_correction (compute_growth_rate t n l s 28) == 1).
Proof.
  assert (H28 : _arrhenius_correction 28 == 1) by reflexivity.
  repeat split; try reflexivity.
  - exact arrhenius_floor.
  - intros w. rewrite H28. apply arrhenius_range.
  - intros t n l s w H. unfold compute_growth_rate, temp_correction.
    rewrite (arrhenius_floor w H). reflexivity.
Qed.

End CardinalTemperature.

(** ** Light score *)

Section LightScore.
Import LightFeatures.
Local Open Scope R_scope.

Lemma cos_hour_angle_range (lat doy : R) :
  -1 <= cos_hour_angle lat doy <= 1.
Proof. unfold cos_hour_angle. apply clipR_bounds. lra. Qed.

Lemma arccos_defined (x : R) :
  -1 <= x <= 1 -> arccos x = Some (acos x).
Proof.
  intros [H1 H2]. unfold arccos.
  destruct Rle_dec; [| contradiction].
  destruct Rle_dec; [reflexivity | contradiction].
Qed.

Lemma photoperiod_value (lat doy : R) :
  photoperiod lat doy = Some (24 * acos (cos_hour_angle lat doy) / PI).
Proof.
  unfold photoperiod.
  now rewrite (arccos_defined _ (cos_hour_angle_range lat doy)).
Qed.

Lemma photoperiod_hours (lat doy : R) :
  0 <= 24 * acos (cos_hour_angle lat doy) / PI <= 24.
Proof.
  pose proof (acos_bound (cos_hour_angle lat doy)) as [H0 H1].
  pose proof PI_RGT_0 as Hpi.
  split.
  - apply Rdiv_le_r; lra.
  - apply Rdiv_le_l; lra.
Qed.

Lemma unit_product (a b c : R) :
  0 <= a <= 1 -> 0 <= b <= 1 -> 0 <= c <= 1 ->
  0 <= a * b * c * 100 <= 100.
Proof.
  intros Ha Hb Hc.
  assert (0 <= a * b <= 1) by nra.
  assert (0 <= a * b * c <= 1) by nra.
  lra.
Qed.

(** Polar day: at latitude 80 on day 172 the hour-angle cosine is below -1
    before the clip, so without it [arccos] would be undefined; with it the
    photoperiod is 24 hours. *)
Lemma polar_day_needs_the_clip :
  - tan (radians 80)
    * tan (radians (23.44 * cos (radians ((172 - 172) * 360 / 365))))
  < -1
  /\ arccos (- tan (radians 80)
             * tan (radians (23.44 * cos (radians ((172 - 172) * 360 / 365)))))
     = None
  /\ photoperiod 80 172 = Some 24.
Proof.
  pose proof PI_RGT_0 as Hpi.
  assert (E0 : radians ((172 - 172) * 360 / 365) = 0)
    by (unfold radians; field).
  rewrite E0, cos_0, Rmult_1_r.
  set (x := PI / 18). set (y := radians 23.44).
  assert (Hx : 0 < x < PI / 2) by (unfold x; lra).
  assert (Hy : x < y < PI / 2) by (unfold x, y, radians; lra).
  assert (Elat : radians 80 = PI / 2 - x) by (unfold radians, x; field).
  assert (Hsin : 0 < sin x) by (apply sin_gt_0; lra).
  assert (Hcos : 0 < cos x) by (apply cos_gt_0; lra).
  assert (Htan : tan x < tan y) by (apply tan_increasing; lra).
  assert (Hlow : - tan (radians 80) * tan y < -1).
  { rewrite Elat. unfold tan at 1. rewrite sin_shift, cos_shift.
    unfold tan in Htan at 1.
    assert (H1 : sin x < tan y * cos x).
    { apply Rmult_lt_reg_r with (/ cos x);
        [now apply Rinv_0_lt_compat |].
      rewrite Rmult_assoc, Rinv_r, Rmult_1_r by lra. exact Htan. }
    assert (H2 : 1 < cos x / sin x * tan y).
    { apply Rmult_lt_reg_r with (sin x); [exact Hsin |].
      replace (cos x / sin x * tan y * sin x) with (tan y * cos x)
        by (field; lra).
      lra. }
    lra. }
  split; [exact Hlow | split].
  - unfold arccos. destruct Rle_dec; [lra | reflexivity].
  - rewrite photoperiod_value. f_equal.
    assert (Ec : cos_hour_angle 80 172 = -1).
    { unfold cos_hour_angle. rewrite E0, cos_0, Rmult_1_r. fold y.
      unfold Py.clipR, Rmax, Rmin. repeat destruct Rle_dec; lra. }
    assert (Em : acos (-1) = PI).
    { replace (-1) with (Ropp 1) by lra. rewrite acos_opp, acos_1. lra. }
    rewrite Ec, Em. field. lra.
Qed.

(** C10: for every latitude and every day of the year the light score is
    computed without a domain error: the hour-angle cosine handed to
    [arccos] lies in [[-1, 1]], so [photoperiod] returns a value, which lies
    in [[0, 24]] hours, and [compute_light_score] returns a value in
    [[0, 100]], whatever the UV index and the cloud cover. *)
Theorem light_score_total_and_bounded :
  (forall lat doy : R, -1 <= cos_hour_angle lat doy <= 1)
  /\ (forall lat doy : R,
        exists hours, photoperiod lat doy = Some hours /\ 0 <= hours <= 24)
  /\ (forall uv cloud lat doy : R,
        exists score,
          compute_light_score uv cloud lat doy = Some score
          /\ 0 <= score <= 100).
Proof.
  split; [exact cos_hour_angle_range | split].
  - intros lat doy. eexists. split; [apply photoperiod_value |].
    apply photoperiod_hours.
  - intros uv cloud lat doy. unfold compute_light_score.
    rewrite photoperiod_value. eexists. split; [reflexivity |].
    apply unit_product.
    + unfold normalize_uv. apply clipR_bounds. lra.
    + apply clipR_bounds. lra.
    + unfold cloud_suppression. apply clipR_bounds. lra.
Qed.

End LightScore.

(** ** Forecast arrays *)

Section ForecastLengths.
Import ForecastEngine.

Lemma apply_slice_first_length {A : Type} (l : list A) (n : nat) :
  length (apply_slice l (SliceFirst n)) = Nat.min n (length l).
Proof. simpl. apply length_firstn. Qed.

Lemma apply_slice_last_length {A : Type} (l : list A) (n : nat) :
  n <> 0%nat -> length (apply_slice l (SliceLast n)) = Nat.min n (length l).
Proof.
  intros Hn. destruct n as [| m]; [contradiction |].
  simpl apply_slice. rewrite length_skipn. lia.
Qed.

Lemma apply_slice_width {A : Type} (l : list A) (slc : PySlice) (n : nat) :
  slice_of_width slc n -> length (apply_slice l slc) = Nat.min n (length l).
Proof.
  intros [-> | [-> Hn]].
  - apply apply_slice_first_length.
  - now apply apply_slice_last_length.
Qed.

Lemma safe_slice_length
    (l : list (option Q)) (slc : PySlice) (n : nat) (d : Q) :
  slice_of_width slc n -> length (_safe_slice l slc n d) = n.
Proof.
  intros Hw. unfold _safe_slice. destruct l as [| x l'].
  - apply repeat_length.
  - rewrite length_app, repeat_length, length_map, (apply_slice_width _ _ _ Hw).
    lia.
Qed.

Lemma project_days_length t_max t_min p_sum w_max cr (days : list nat) :
  forall acc,
    length (fold_left (project_day t_max t_min p_sum w_max cr) days acc)
    = (length acc + length days)%nat.
Proof.
  induction days as [| i days IH]; intros acc; simpl.
  - lia.
  - rewrite IH. unfold project_day. rewrite length_app. simpl. lia.
Qed.

Lemma pad_scores_length (missing : nat) (cr : Q) :
  forall scores,
    length (pad_scores missing scores cr) = (length scores + missing)%nat.
Proof.
  induction missing as [| m IH]; intros scores; simpl.
  - lia.
  - rewrite IH, length_app. simpl. lia.
Qed.

Lemma forecast_slice_width (len : nat) :
  slice_of_width
    (if (7 <? len)%nat then SliceLast (Nat.min 7 len)
     else SliceFirst (Nat.min 7 len))
    (Nat.min 7 len).
Proof.
  destruct (Nat.ltb_spec 7 len).
  - right. split; [reflexivity | lia].
  - now left.
Qed.

(** The lengths [build_7day_forecast] returns: the dates and the risk scores
    are padded to seven entries; the five weather arrays are padded only to
    [min(7, number of raw days)]. *)
Lemma forecast_lengths
    (fallback : nat -> string) (raw : option Daily) (cr : Q) :
  let r := build_7day_forecast fallback raw cr in
  let n := Nat.min 7 (length (time (daily_of raw))) in
  length (dates r) = 7%nat /\ length (risk_scores r) = 7%nat
  /\ length (temp_max r) = n /\ length (temp_min r) = n
  /\ length (precip r) = n /\ length (wind_max r) = n
  /\ length (uv_max r) = n.
Proof.
  intros r n. subst r n. unfold build_7day_forecast.
  set (daily := daily_of raw) in *.
  set (n := Nat.min 7 (length (time daily))) in *.
  set (slc := if (7 <? length (time daily))%nat then _ else _).
  assert (Hw : slice_of_width slc n) by apply forecast_slice_width.
  assert (Hn : n = Nat.min 7 (length (time daily))) by reflexivity.
  clearbody slc n.
  cbn [dates risk_scores temp_max temp_min precip wind_max uv_max].
  rewrite !length_firstn.
  rewrite pad_scores_length, project_days_length, length_seq.
  repeat match goal with
         | |- context [length (_safe_slice ?l ?s ?k ?d)] =>
             rewrite (safe_slice_length l s k d Hw)
         end.
  simpl length.
  repeat split; try lia.
  pose proof (apply_slice_width (time daily) slc n Hw) as Hd.
  destruct (time daily) as [| d0 ds] eqn:E.
  - reflexivity.
  - destruct (Nat.ltb_spec (length (apply_slice (d0 :: ds) slc)) 7).
    + reflexivity.
    + lia.
Qed.

(** C2 (the code at inputs shorter than a week): with three raw forecast
    days, and with no weather payload at all, [dates] and [risk_scores] have
    seven entries but [temp_max], [temp_min], [precip], [wind_max] and
    [uv_max] have three and zero entries: they are padded to the number of raw
    days, not to seven.  With ten raw days every array has seven entries. *)
Theorem forecast_short_input_arrays :
  let lengths (r : Forecast) :=
    (length (dates r), length (risk_scores r),
     [length (temp_max r); length (temp_min r); length (precip r);
      length (wind_max r); length (uv_max r)]) in
  lengths (build_7day_forecast Samples.july_dates (Some Samples.three_days) 40)
  = (7, 7, [3; 3; 3; 3; 3])%nat
  /\ lengths (build_7day_forecast Samples.july_dates None 40)
     = (7, 7, [0; 0; 0; 0; 0])%nat
  /\ lengths (build_7day_forecast Samples.july_dates (Some Samples.ten_days) 40)
     = (7, 7, [7; 7; 7; 7; 7])%nat
  /\ temp_max
       (build_7day_forecast Samples.july_dates (Some Samples.three_days) 40)
     = [30; 31; 20.0].
Proof. repeat split; vm_compute; reflexivity. Qed.

End ForecastLengths.

(** ** Theil-Sen slope *)

Section TheilSen.
Import TrendAnalysis.

(** C3 (as the specification words it, refuted): called with a single point
    the estimator does not raise; it returns the fallback record. *)
Lemma sens_slope_one_point_returns :
  sens_slope [5] = Returned {| slope := 0.0; intercept := 5; n_slopes := 0 |}
  /\ forall e, sens_slope [5] <> Raised e.
Proof. split; [reflexivity | discriminate]. Qed.

(** C3 (amended): the Theil-Sen estimator is written for at least 2 points;
    called with fewer it raises nothing and returns the value-level fallback:
    slope 0.0, no pairwise slopes, and as intercept the single value, or 0.0
    for the empty series. *)
Theorem sens_slope_short_series_fallback (data : list Q) :
  (length data < 2)%nat ->
  sens_slope data
  = Returned {| slope := 0.0;
                intercept := match data with [x0] => x0 | _ => 0.0 end;
                n_slopes := 0 |}.
Proof.
  intros H. unfold sens_slope.
  destruct (Nat.ltb_spec (length data) 2); [reflexivity | lia].
Qed.

Lemma sens_slope_short_series_fallback_witness :
  (length (@nil Q) < 2)%nat
  /\ sens_slope []
     = Returned {| slope := 0.0; intercept := 0.0; n_slopes := 0 |}.
Proof.
  assert (H : (length (@nil Q) < 2)%nat) by (simpl; lia).
  split; [exact H | exact (sens_slope_short_series_fallback [] H)].
Defined.

(** The estimator never raises, whatever the series. *)
Lemma sens_slope_returns (data : list Q) :
  exists r, sens_slope data = Returned r.
Proof.
  unfold sens_slope. destruct (_ <? _)%nat; [eexists; reflexivity |].
  destruct (pairwise_slopes data); eexists; reflexivity.
Qed.

(** On the series 1, 2, 3, 4, 5 the slope is 1 and the intercept is 1, over
    the ten pairwise slopes. *)
Lemma sens_slope_1_to_5 :
  exists r,
    sens_slope [1; 2; 3; 4; 5] = Returned r
    /\ (slope r == 1)%Q /\ (intercept r == 1)%Q /\ n_slopes r = 10%nat.
Proof. eexists. split; [reflexivity |]. now vm_compute. Qed.

End TheilSen.

(** ** Mann-Kendall on a strictly increasing series *)

Section MannKendallIncreasing.
Import TrendAnalysis.

Lemma in_combinations2 (n i j : nat) :
  In (i, j) (combinations2 n) -> (i < j < n)%nat.
Proof.
  unfold combinations2. rewrite in_flat_map.
  intros [i' [Hi Hj]]. rewrite in_map_iff in Hj.
  destruct Hj as [j' [E Hj]]. inversion E; subst.
  rewrite in_seq in Hi, Hj. lia.
Qed.

Lemma triangle_sum (m : nat) :
  forall a,
    (2 * list_sum (map (fun i => a + m - S i) (seq a m)) = m * (m - 1))%nat.
Proof.
  induction m as [| m IH]; intros a; [reflexivity |].
  cbn [seq map list_sum].
  assert (E : map (fun i => (a + S m - S i)%nat) (seq (S a) m)
              = map (fun i => (S a + m - S i)%nat) (seq (S a) m)).
  { apply map_ext. intros i. lia. }
  rewrite E. specialize (IH (S a)).
  replace (a + S m - S a)%nat with m by lia.
  replace (S m - 1)%nat with m by lia.
  destruct m as [| k]; [simpl in *; lia |].
  replace (S k - 1)%nat with k in IH by lia.
  unfold list_sum in *. cbn [fold_right]. nia.
Qed.

Lemma length_combinations2 (n : nat) :
  (2 * length (combinations2 n) = n * (n - 1))%nat.
Proof.
  unfold combinations2. rewrite length_flat_map.
  rewrite <- (triangle_sum n 0). do 2 f_equal.
  apply map_ext. intros i. now rewrite length_map, length_seq.
Qed.

Lemma strongly_sorted_nth (x : list Q) :
  StronglySorted Qlt x ->
  forall i j, (i < j < length x)%nat -> (nth i x 0 < nth j x 0)%Q.
Proof.
  induction 1 as [| a l Hs IH Hall]; intros i j Hij; simpl in Hij; [lia |].
  destruct j as [| j]; [lia |]. destruct i as [| i]; simpl.
  - rewrite Forall_forall in Hall. apply Hall, nth_In. lia.
  - apply IH. lia.
Qed.

Lemma Qlt_transitive : Relations_1.Transitive Qlt.
Proof. intros a b c. apply Qlt_trans. Qed.

Lemma sorted_nth (x : list Q) :
  Sorted Qlt x ->
  forall i j, (i < j < length x)%nat -> (nth i x 0 < nth j x 0)%Q.
Proof.
  intros H. apply strongly_sorted_nth.
  apply Sorted_StronglySorted; [exact Qlt_transitive | exact H].
Qed.

Lemma sign_sum_all_positive (x : list Q) (pairs : list (nat * nat)) :
  (forall ij, In ij pairs -> (nth (fst ij) x 0 < nth (snd ij) x 0)%Q) ->
  forall s0,
    fold_left
      (fun s ij =>
         let diff := (nth (snd ij) x 0 - nth (fst ij) x 0)%Q in
         if Qlt_le_dec 0 diff then (s + 1)%Z
         else if Qlt_le_dec diff 0 then (s - 1)%Z
         else s)
      pairs s0
    = (s0 + Z.of_nat (length pairs))%Z.
Proof.
  induction pairs as [| ij pairs IH]; intros Hall s0.
  - simpl. lia.
  - cbn [fold_left length]. rewrite IH by (intros; apply Hall; now right).
    assert (Hlt := Hall ij (or_introl eq_refl)).
    destruct Qlt_le_dec; [lia | lra].
Qed.

Lemma s_statistic_increasing (x : list Q) :
  Sorted Qlt x ->
  (2 * s_statistic x
   = Z.of_nat (length x) * (Z.of_nat (length x) - 1))%Z.
Proof.
  intros Hs. unfold s_statistic.
  rewrite sign_sum_all_positive.
  - pose proof (length_combinations2 (length x)). nia.
  - intros [i j] Hin. apply in_combinations2 in Hin.
    now apply sorted_nth.
Qed.

Lemma sort_increasing (x : list Q) : Sorted Qlt x -> sort x = x.
Proof.
  induction 1 as [| a l Hs IH Hd]; [reflexivity |].
  unfold sort in *. simpl. rewrite IH.
  destruct Hd as [| b l' Hab]; [reflexivity |].
  simpl. assert (E : Qle_bool a b = true) by (apply Qle_bool_iff; lra).
  now rewrite E.
Qed.

Lemma count_runs_increasing (l : list Q) :
  forall prev,
    Sorted Qlt (prev :: l) ->
    Forall (fun vt => snd vt = 1%Z) (count_runs prev 1 l).
Proof.
  induction l as [| y l IH]; intros prev Hs; simpl.
  - now constructor.
  - apply Sorted_inv in Hs. destruct Hs as [Hs Hd].
    apply HdRel_inv in Hd.
    destruct (Qeq_bool y prev) eqn:E.
    + apply Qeq_bool_iff in E. lra.
    + constructor; [reflexivity | now apply IH].
Qed.

Lemma tie_correction_increasing (x : list Q) :
  Sorted Qlt x -> tie_correction x = 0%Z.
Proof.
  intros Hs. unfold tie_correction, unique_counts.
  rewrite (sort_increasing x Hs).
  assert (Hall : Forall (fun vt : Q * Z => snd vt = 1%Z)
                   (match x with [] => [] | v :: l => count_runs v 1 l end)).
  { destruct x; [constructor | now apply count_runs_increasing]. }
  induction Hall as [| vt l Hvt _ IH]; [reflexivity |].
  simpl. now rewrite Hvt.
Qed.

Lemma variance_increasing (x : list Q) :
  Sorted Qlt x ->
  let n := Z.of_nat (length x) in
  (variance_S x == inject_Z (n * (n - 1) * (2 * n + 5)) / 18)%Q.
Proof.
  intros Hs n. unfold variance_S. rewrite (tie_correction_increasing x Hs).
  fold n. now rewrite Z.sub_0_r.
Qed.

(** C9: on a strictly increasing series of length [n >= 3],
    [mann_kendall_test] returns [S = n (n - 1) / 2]: every pairwise
    difference has sign [+1] and the tie correction is zero, so the variance
    is [n (n - 1) (2 n + 5) / 18]; the p-value is the two-tailed normal one of
    the continuity-corrected score [(S - 1) / sqrt var]; and the reported
    trend is ["increasing"] as soon as that p-value is at most 0.05 (and
    ["no trend"] otherwise). *)
Theorem mann_kendall_strictly_increasing (norm_cdf : R -> R) (x : list Q) :
  Sorted Qlt x -> (3 <= length x)%nat ->
  let n := Z.of_nat (length x) in
  let r := mann_kendall_test norm_cdf x in
  mk_S r = (n * (n - 1) / 2)%Z
  /\ mk_S r = Z.of_nat (length (combinations2 (length x)))
  /\ tie_correction x = 0%Z
  /\ (variance_S x == inject_Z (n * (n - 1) * (2 * n + 5)) / 18)%Q
  /\ p_value_of norm_cdf x
     = (2 * (1 - norm_cdf
                   (Rabs (IZR (n * (n - 1) / 2 - 1)
                          / sqrt (Q2R (variance_S x))))))%R
  /\ ((p_value_of norm_cdf x <= 0.05)%R ->
      mk_trend r = increasing /\ mk_significant r = true)
  /\ (~ (p_value_of norm_cdf x <= 0.05)%R ->
      mk_trend r = no_trend /\ mk_significant r = false).
Proof.
  intros Hs Hlen n r.
  assert (Hn : (3 <= n)%Z) by (unfold n; lia).
  assert (H2S := s_statistic_increasing x Hs). fold n in H2S.
  assert (HS : s_statistic x = (n * (n - 1) / 2)%Z).
  { apply Z.div_unique_exact; lia. }
  assert (Hpos : (0 < s_statistic x)%Z) by nia.
  assert (Hr : r = mann_kendall_test norm_cdf x) by reflexivity.
  unfold mann_kendall_test in Hr.
  destruct (Nat.ltb_spec (length x) 3) as [Hlt | _]; [lia |].
  apply Z.ltb_lt in Hpos.
  assert (Hvar : Qeq_bool (variance_S x) 0 = false).
  { destruct (Qeq_bool (variance_S x) 0) eqn:E; [| reflexivity].
    apply Qeq_bool_iff in E. rewrite (variance_increasing x Hs) in E.
    fold n in E.
    assert (Hprod : (0 < n * (n - 1) * (2 * n + 5))%Z)
      by (repeat apply Z.mul_pos_pos; lia).
    revert E. generalize (n * (n - 1) * (2 * n + 5))%Z Hprod.
    intros m Hm E. unfold Qeq in E. simpl in E. lia. }
  assert (Hp : p_value_of norm_cdf x
               = p_of norm_cdf (IZR (n * (n - 1) / 2 - 1)
                                / sqrt (Q2R (variance_S x)))%R).
  { unfold p_value_of, z_of. now rewrite Hvar, Hpos, HS. }
  repeat split.
  - now rewrite Hr.
  - rewrite Hr. cbn [mk_S].
    pose proof (length_combinations2 (length x)). unfold n in H2S. nia.
  - now apply tie_correction_increasing.
  - now apply variance_increasing.
  - exact Hp.
  - rewrite Hr. cbn [mk_trend]. fold (p_value_of norm_cdf x).
    destruct Rle_dec; [now rewrite Hpos | contradiction].
  - rewrite Hr. cbn [mk_significant]. fold (p_value_of norm_cdf x).
    destruct Rle_dec; [reflexivity | contradiction].
  - rewrite Hr. cbn [mk_trend]. fold (p_value_of norm_cdf x).
    destruct Rle_dec; [contradiction | reflexivity].
  - rewrite Hr. cbn [mk_significant]. fold (p_value_of norm_cdf x).
    destruct Rle_dec; [contradiction | reflexivity].
Qed.

Lemma mann_kendall_strictly_increasing_witness :
  Sorted Qlt [1; 2; 3; 4; 5] /\ (3 <= length [1; 2; 3; 4; 5])%nat
  /\ mk_S (mann_kendall_test Samples.logistic_cdf [1; 2; 3; 4; 5]) = 10%Z.
Proof.
  assert (Hs : Sorted Qlt [1; 2; 3; 4; 5])
    by (repeat constructor; reflexivity).
  assert (Hl : (3 <= length [1; 2; 3; 4; 5])%nat) by (simpl; lia).
  split; [exact Hs | split; [exact Hl |]].
  exact (proj1 (mann_kendall_strictly_increasing
                  Samples.logistic_cdf [1; 2; 3; 4; 5] Hs Hl)).
Defined.

End MannKendallIncreasing.

(** ** Least squares *)

Section LeastSquares.
Local Open Scope Q_scope.

Lemma fold_left_Qplus_acc (l : list Q) :
  forall a, fold_left Qplus l a == a + fold_right Qplus 0 l.
Proof.
  induction l as [| y l IH]; intros a; simpl.
  - ring.
  - rewrite IH. ring.
Qed.

Lemma sum_fold_right (l : list Q) :
  TemperatureFeatures.sum l == fold_right Qplus 0 l.
Proof. unfold TemperatureFeatures.sum. rewrite fold_left_Qplus_acc. ring. Qed.

Lemma total_ext (f g : Q * Q -> Q) (pts : list (Q * Q)) :
  (forall p, f p == g p) -> Spec.total f pts == Spec.total g pts.
Proof.
  intros H. unfold Spec.total.
  induction pts as [| p pts IH]; simpl; [reflexivity |].
  now rewrite IH, H.
Qed.

Lemma total_plus (f g : Q * Q -> Q) (pts : list (Q * Q)) :
  Spec.total (fun p => f p + g p) pts == Spec.total f pts + Spec.total g pts.
Proof.
  unfold Spec.total.
  induction pts as [| p pts IH]; simpl; [ring |]. rewrite IH. ring.
Qed.

Lemma total_scale (c : Q) (f : Q * Q -> Q) (pts : list (Q * Q)) :
  Spec.total (fun p => c * f p) pts == c * Spec.total f pts.
Proof.
  unfold Spec.total.
  induction pts as [| p pts IH]; simpl; [ring |]. rewrite IH. ring.
Qed.

Lemma total_const (c : Q) (pts : list (Q * Q)) :
  Spec.total (fun _ => c) pts == inject_Z (Z.of_nat (length pts)) * c.
Proof.
  unfold Spec.total.
  induction pts as [| p pts IH]; [simpl; ring |].
  cbn [map fold_right length]. rewrite IH, Nat2Z.inj_succ.
  unfold Z.succ. rewrite inject_Z_plus. ring.
Qed.

Lemma total_nonneg (f : Q * Q -> Q) (pts : list (Q * Q)) :
  (forall p, 0 <= f p) -> 0 <= Spec.total f pts.
Proof.
  intros H. unfold Spec.total.
  induction pts as [| p pts IH]; simpl; [lra |].
  specialize (H p). lra.
Qed.

Section Points.
Variable pts : list (Q * Q).

Let n := inject_Z (Z.of_nat (length pts)).
Let sx := Spec.total fst pts.
Let sy := Spec.total snd pts.
Let sxy := Spec.total (fun p => fst p * snd p) pts.
Let sxx := Spec.total (fun p => fst p * fst p) pts.
Let syy := Spec.total (fun p => snd p * snd p) pts.

(** The squared error as a polynomial in the moments of the points. *)
Lemma squared_error_moments (a b : Q) :
  Spec.squared_error pts a b
  == syy - 2 * a * sy - 2 * b * sxy + n * (a * a) + 2 * a * b * sx
     + b * b * sxx.
Proof.
  unfold Spec.squared_error. fold (Spec.total
    (fun p => (snd p - (a + b * fst p)) ^ 2) pts).
  rewrite (total_ext _
    (fun p => snd p * snd p
              + ((- (2 * a)) * snd p
                 + ((- (2 * b)) * (fst p * snd p)
                    + (a * a + ((2 * a * b) * fst p
                                + (b * b) * (fst p * fst p)))))))
    by (intros p; ring).
  rewrite !total_plus, !total_scale, total_const.
  unfold n, sx, sy, sxy, sxx, syy. ring.
Qed.

(** A line that satisfies the two normal equations minimises the squared
    error. *)
Lemma normal_equations_minimise (a b : Q) :
  sy == n * a + b * sx ->
  sxy == a * sx + b * sxx ->
  forall a' b', Spec.squared_error pts a b <= Spec.squared_error pts a' b'.
Proof.
  intros H1 H2 a' b'.
  assert (Hgap : Spec.squared_error pts a' b'
                 == Spec.squared_error pts a b
                    + Spec.total
                        (fun p => ((a' - a) + (b' - b) * fst p) ^ 2) pts).
  { rewrite (total_ext _
      (fun p => (a' - a) * (a' - a)
                + ((2 * (a' - a) * (b' - b)) * fst p
                   + ((b' - b) * (b' - b)) * (fst p * fst p))))
      by (intros p; ring).
    rewrite !total_plus, !total_scale, total_const.
    rewrite !squared_error_moments. fold n sx sxx.
    rewrite H1, H2. ring. }
  rewrite Hgap.
  assert (0 <= Spec.total
                 (fun p => ((a' - a) + (b' - b) * fst p) ^ 2) pts).
  { apply total_nonneg. intros p.
    set (u := a' - a + (b' - b) * fst p).
    assert (u ^ 2 == u * u) as -> by ring. nra. }
  lra.
Qed.

(** The centred cross products of the points, in moments. *)
Lemma centred_products_moments (mx my : Q) :
  Spec.total (fun p => (fst p - mx) * (snd p - my)) pts
  == sxy - mx * sy - my * sx + n * (mx * my).
Proof.
  rewrite (total_ext _
    (fun p => fst p * snd p
              + ((- mx) * snd p + ((- my) * fst p + mx * my))))
    by (intros p; ring).
  rewrite !total_plus, !total_scale, total_const.
  unfold n, sx, sy, sxy. ring.
Qed.

Lemma centred_squares_moments (mx : Q) :
  Spec.total (fun p => (fst p - mx) ^ 2) pts
  == sxx - 2 * mx * sx + n * (mx * mx).
Proof.
  rewrite (total_ext _
    (fun p => fst p * fst p + ((- (2 * mx)) * fst p + mx * mx)))
    by (intros p; ring).
  rewrite !total_plus, !total_scale, total_const.
  unfold n, sx, sxx. ring.
Qed.

End Points.

End LeastSquares.

(** ** [trend_slope_7day] *)

Section TrendSlope.
Import TemperatureFeatures.
Local Open Scope Q_scope.

Lemma length_last7 {A : Type} (a : list A) : (length (last7 a) <= 7)%nat.
Proof. unfold last7. rewrite length_skipn. lia. Qed.

Lemma length_drop_nan (a : list Float) :
  (length (drop_nan a) <= length a)%nat.
Proof.
  induction a as [| [y |] a IH]; simpl; lia.
Qed.

Lemma length_arange (m : nat) : length (arange m) = m.
Proof. unfold arange. now rewrite length_map, length_seq. Qed.

Lemma sum_cons (a : Q) (l : list Q) : sum (a :: l) == a + sum l.
Proof. rewrite !sum_fold_right. reflexivity. Qed.

Lemma total_fst_combine (f : Q -> Q) (x : list Q) :
  forall y, length x = length y ->
    Spec.total (fun p => f (fst p)) (combine x y) == sum (map f x).
Proof.
  induction x as [| a x IH]; intros [| b y] H; simpl in H;
    try discriminate; [reflexivity |].
  cbn [combine map]. rewrite sum_cons, <- (IH y) by lia. reflexivity.
Qed.

Lemma total_snd_combine (f : Q -> Q) (x : list Q) :
  forall y, length x = length y ->
    Spec.total (fun p => f (snd p)) (combine x y) == sum (map f y).
Proof.
  induction x as [| a x IH]; intros [| b y] H; simpl in H;
    try discriminate; [reflexivity |].
  cbn [combine map]. rewrite sum_cons, <- (IH y) by lia. reflexivity.
Qed.

Lemma ss_xx_arange_pos (m : nat) :
  (2 <= m <= 7)%nat -> 0 < ss_xx (arange m).
Proof.
  intros [H2 H7].
  do 8 (destruct m as [| m]; [try lia; reflexivity |]). lia.
Qed.

(** The slope the code computes on [m >= 2] valid points (at most 7), and the
    intercept that goes with it, satisfy the normal equations. *)
Lemma slope_normal_equations (recent : list Q) :
  (2 <= length recent <= 7)%nat ->
  let x := arange (length recent) in
  let pts := combine x recent in
  let n := inject_Z (Z.of_nat (length pts)) in
  let b := ss_xy x recent / ss_xx x in
  let a := (Spec.total snd pts - b * Spec.total fst pts) / n in
  Spec.total snd pts == n * a + b * Spec.total fst pts
  /\ Spec.total (fun p => fst p * snd p) pts
     == a * Spec.total fst pts + b * Spec.total (fun p => fst p * fst p) pts
  /\ b == Spec.ols_slope pts.
Proof.
  intros Hm x pts n b a.
  assert (Hlx : length x = length recent) by apply length_arange.
  assert (Hlp : length pts = length recent).
  { unfold pts. rewrite length_combine, Hlx. lia. }
  assert (Hn : n == inject_Z (Z.of_nat (length recent)))
    by (unfold n; now rewrite Hlp).
  assert (Hn0 : 0 < n).
  { rewrite Hn. rewrite <- (Zlt_Qlt 0). lia. }
  pose proof (ss_xx_arange_pos (length recent) Hm) as Hxx. fold x in Hxx.
  set (sx := Spec.total fst pts) in *.
  set (sy := Spec.total snd pts) in *.
  set (sxy := Spec.total (fun p => fst p * snd p) pts) in *.
  set (sxx := Spec.total (fun p => fst p * fst p) pts) in *.
  assert (Hmx : mean x == sx / n).
  { unfold mean. rewrite Hlx, <- Hn.
    rewrite <- (map_id x) at 1.
    rewrite <- (total_fst_combine (fun v => v) x recent Hlx). reflexivity. }
  assert (Hmy : mean recent == sy / n).
  { unfold mean. rewrite <- Hn.
    rewrite <- (map_id recent) at 1.
    rewrite <- (total_snd_combine (fun v => v) x recent Hlx). reflexivity. }
  assert (Exx : ss_xx x == sxx - sx * sx / n).
  { unfold ss_xx.
    rewrite <- (total_fst_combine (fun xi => (xi - mean x) ^ 2) x recent Hlx).
    fold pts. rewrite centred_squares_moments. fold n sx sxx.
    rewrite Hmx. field. lra. }
  assert (Exy : ss_xy x recent == sxy - sx * sy / n).
  { unfold ss_xy. rewrite sum_fold_right.
    fold pts.
    fold (Spec.total
            (fun xy => (fst xy - mean x) * (snd xy - mean recent)) pts).
    rewrite centred_products_moments. fold n sx sy sxy.
    rewrite Hmx, Hmy. field. lra. }
  assert (Hb : b * ss_xx x == ss_xy x recent) by (unfold b; field; lra).
  rewrite Exx, Exy in Hb.
  assert (HD : 0 < n * sxx - sx * sx).
  { rewrite Exx in Hxx.
    assert (E : n * sxx - sx * sx == n * (sxx - sx * sx / n)) by (field; lra).
    rewrite E. apply Qmult_lt_0_compat; lra. }
  split; [| split].
  - unfold a. field. lra.
  - assert (E : a * sx + b * sxx
                == sx * sy / n + b * (sxx - sx * sx / n))
      by (unfold a; field; lra).
    rewrite E, Hb. field. lra.
  - unfold Spec.ols_slope. fold n sx sy sxy sxx.
    unfold b. rewrite Exx, Exy. field. split; [| lra].
    rewrite Exx in Hxx. intros E0.
    assert (E : n * sxx - sx * sx == n * (sxx - sx * sx / n)) by (field; lra).
    rewrite E in HD. lra.
Qed.

(** The slope in the code's own terms: least squares on what the slice
    and the NaN mask leave. *)
Lemma trend_slope_7day_on_window (temps : list Float) :
  let valid := drop_nan (last7 temps) in
  let pts := combine (arange (length valid)) valid in
  (length valid <= 7)%nat
  /\ ((length valid < 3)%nat -> trend_slope_7day temps = 0.0)
  /\ ((3 <= length valid)%nat ->
      trend_slope_7day temps == Spec.ols_slope pts
      /\ exists a,
           forall a' b',
             Spec.squared_error pts a (trend_slope_7day temps)
             <= Spec.squared_error pts a' b').
Proof.
  intros valid pts.
  assert (H7 : (length valid <= 7)%nat).
  { unfold valid. pose proof (length_drop_nan (last7 temps)).
    pose proof (length_last7 temps). lia. }
  split; [exact H7 | split].
  - intros H. unfold trend_slope_7day. fold valid.
    destruct (Nat.ltb_spec (length valid) 3); [reflexivity | lia].
  - intros H3.
    assert (Hm : (2 <= length valid <= 7)%nat) by lia.
    pose proof (ss_xx_arange_pos _ Hm) as Hxx.
    assert (E : trend_slope_7day temps
                = ss_xy (arange (length valid)) valid
                  / ss_xx (arange (length valid))).
    { unfold trend_slope_7day. fold valid.
      destruct (Nat.ltb_spec (length valid) 3); [lia |].
      destruct (Qeq_bool (ss_xx (arange (length valid))) 0) eqn:E0;
        [| reflexivity].
      apply Qeq_bool_iff in E0. lra. }
    rewrite E.
    destruct (slope_normal_equations valid Hm) as [N1 [N2 Ho]].
    fold pts in N1, N2, Ho.
    split; [exact Ho |].
    eexists. intros a' b'.
    apply (normal_equations_minimise pts _ _ N1 N2).
Qed.

Lemma last7_is_last_entries {A : Type} (a : list A) :
  last7 a = Spec.last_entries 7 a.
Proof.
  unfold last7, Spec.last_entries.
  now rewrite firstn_rev, rev_involutive.
Qed.

Lemma drop_nan_is_valid_values (a : list Float) :
  drop_nan a = Spec.valid_values a.
Proof.
  induction a as [| [y |] a IH]; simpl; [| rewrite <- IH |]; auto.
Qed.

Lemma last_entries_suffix {A : Type} (n : nat) (l : list A) :
  firstn (length l - n) l ++ Spec.last_entries n l = l
  /\ length (Spec.last_entries n l) = Nat.min n (length l).
Proof.
  unfold Spec.last_entries. rewrite firstn_rev, rev_involutive.
  split; [apply firstn_skipn | rewrite length_skipn; lia].
Qed.

(** C6 (as the specification words it, refuted): on a rising week followed
    by five NaN entries the last seven non-NaN values are 1, ..., 7, seven
    valid points with least-squares slope 1; the code returns 0.0, because
    only two of the last seven entries are valid. *)
Lemma trend_slope_7day_not_last_valid_values :
  Spec.last_entries 7 (Spec.valid_values Samples.week_then_gap)
  = [1; 2; 3; 4; 5; 6; 7]
  /\ Spec.ols_slope
       (Spec.indexed
          (Spec.last_entries 7 (Spec.valid_values Samples.week_then_gap)))
     == 1
  /\ Spec.valid_values (Spec.last_entries 7 Samples.week_then_gap) = [6; 7]
  /\ trend_slope_7day Samples.week_then_gap = 0.0
  /\ ~ trend_slope_7day Samples.week_then_gap
       == Spec.ols_slope
            (Spec.indexed
               (Spec.last_entries 7
                  (Spec.valid_values Samples.week_then_gap))).
Proof.
  repeat split; try reflexivity.
  intros H. vm_compute in H. discriminate.
Qed.

(** C6 (amended): the values that enter the slope are the non-NaN ones among
    the last seven entries of the series (the window is the suffix of
    [min(7, length)] entries; earlier entries never enter, valid or not), at
    most seven values, taken as the consecutive days 0, 1, 2, ...  With
    fewer than three of them [trend_slope_7day] returns 0.0; otherwise it
    returns their ordinary-least-squares slope: the slope of the normal
    equations, which with its intercept minimises the sum of squared
    residuals over all lines. *)
Theorem trend_slope_7day_is_ols (temps : list Float) :
  let window := Spec.last_entries 7 temps in
  let valid := Spec.valid_values window in
  let pts := Spec.indexed valid in
  (exists earlier, temps = earlier ++ window)
  /\ length window = Nat.min 7 (length temps)
  /\ (length valid <= 7)%nat
  /\ ((length valid < 3)%nat -> trend_slope_7day temps = 0.0)
  /\ ((3 <= length valid)%nat ->
      trend_slope_7day temps == Spec.ols_slope pts
      /\ exists a,
           forall a' b',
             Spec.squared_error pts a (trend_slope_7day temps)
             <= Spec.squared_error pts a' b').
Proof.
  intros window valid pts.
  destruct (last_entries_suffix 7 temps) as [Hsplit Hlen].
  pose proof (trend_slope_7day_on_window temps) as H. cbv zeta in H.
  rewrite last7_is_last_entries, drop_nan_is_valid_values in H.
  fold window in Hsplit, Hlen, H. fold valid in H.
  change (combine (arange (length valid)) valid) with pts in H.
  split; [| split; [exact Hlen | exact H]].
  exists (firstn (length temps - 7) temps). now rewrite Hsplit.
Qed.

(** A rising week has slope 1; NaN entries among the last seven are dropped,
    not replaced by earlier values. *)
Lemma trend_slope_7day_examples :
  trend_slope_7day
    [Some 1; Some 2; Some 3; Some 4; Some 5; Some 6; Some 7] == 1
  /\ trend_slope_7day
       [Some 10; Some 20; Some 30; None; Some 2; None; Some 4; Some 9;
        None; None] == 3.5
  /\ trend_slope_7day
       [Some 1; Some 2; Some 3; Some 4; Some 5; Some 6; Some 7;
        None; None; None; None; None] = 0.0.
Proof. repeat split; reflexivity. Qed.

End TrendSlope.

(** ** Ranges of the aggregated scores, the water temperature and the growth
    result *)

Section Ranges.
Import BloomProbability GrowthRate TemperatureFeatures.
Local Open Scope Q_scope.

(** Both aggregators return a risk score in [[0, 100]]. *)
Theorem aggregator_scores_in_range :
  (forall t n s l g c conf,
      0 <= risk_score (compute_bloom_probability t n s l g c conf) <= 100)
  /\ (forall t n s l mu,
        0 <= br_risk_score (calculate_bloom_risk t n s l mu) <= 100).
Proof.
  split.
  - intros. apply compute_bloom_probability_score.
  - intros t n s l mu.
    destruct (calculate_bloom_risk_score t n s l mu) as [[H0 H1] _].
    split; apply Rle_Qle.
    + replace (Q2R 0) with 0%R by (unfold Q2R; simpl; lra). exact H0.
    + replace (Q2R 100) with 100%R by (unfold Q2R; simpl; lra). exact H1.
Qed.

(** [estimate_water_temp] is never negative and is monotonically
    non-decreasing in the air temperature. *)
Theorem estimate_water_temp_monotone :
  (forall a : Q, 0 <= estimate_water_temp a)
  /\ (forall a b : Q,
        a <= b -> estimate_water_temp a <= estimate_water_temp b).
Proof.
  split.
  - intros a. unfold estimate_water_temp.
    apply Qle_trans with 0.0; [discriminate | apply Q.le_max_l].
  - intros a b H. unfold estimate_water_temp.
    assert (Hr : Py.round (0.97 * a - 3.24) 10 <= Py.round (0.97 * b - 3.24) 10)
      by (apply round_mono; lra).
    apply Q.max_le_compat_l. exact Hr.
Qed.

Lemma round_half_evenR_IZR (z : Z) : Py.round_half_evenR (IZR z) = z.
Proof.
  unfold Py.round_half_evenR. rewrite ZfloorZ.
  destruct Rlt_dec; [reflexivity | lra].
Qed.

Lemma trajectory_from_length (days : nat) (mu : Q) :
  forall b, length (trajectory_from days b mu) = days.
Proof.
  induction days as [| d IH]; intros b; simpl; [reflexivity |].
  now rewrite IH.
Qed.

Lemma trajectory_from_sorted (days : nat) (mu : Q) :
  0 <= mu ->
  forall b : R,
    (0 <= b)%R ->
    Sorted Qle (Py.roundR b 1000 :: trajectory_from days b mu).
Proof.
  intros Hmu. apply Qle_Rle in Hmu.
  replace (Q2R 0) with 0%R in Hmu by (unfold Q2R; simpl; lra).
  assert (He : (1 <= exp (Q2R mu))%R).
  { rewrite <- exp_0. now apply exp_le_mono. }
  induction days as [| d IH]; intros b Hb; simpl.
  - repeat constructor.
  - assert (Hb' : (b <= b * exp (Q2R mu))%R) by nra.
    constructor.
    + apply IH. lra.
    + constructor. now apply roundR_mono.
Qed.

(** The growth result: the rate lies in [[0, MU_MAX]], and the biomass
    trajectory has 8 points, starts at 1.0 and never decreases. *)
Theorem growth_rate_result_shape (t n l s w : Q) :
  let r := compute_growth_rate t n l s w in
  0 <= mu_per_day r <= MU_MAX
  /\ length (biomass_trajectory r) = 8%nat
  /\ hd 0 (biomass_trajectory r) = 1.0
  /\ Sorted Qle (biomass_trajectory r).
Proof.
  intros r. subst r. unfold compute_growth_rate.
  cbn [mu_per_day biomass_trajectory].
  set (mu := Py.clip _ 0 MU_MAX).
  assert (Hmu : 0 <= mu <= MU_MAX) by (apply clip_bounds; discriminate).
  split; [| split; [| split]].
  - unfold MU_MAX in *.
    destruct (round_half_even_bounds (mu * inject_Z 10000) 12000)
      as [Hb0 Hb1].
    + change (inject_Z 10000) with (10000 # 1). lra.
    + change (inject_Z 10000) with (10000 # 1).
      change (inject_Z 12000) with (12000 # 1). lra.
    + unfold Py.round, Qle. simpl. lia.
  - cbn [length]. now rewrite trajectory_from_length.
  - reflexivity.
  - pose proof (trajectory_from_sorted 7 mu (proj1 Hmu) 1%R ltac:(lra)) as Hs.
    apply Sorted_inv in Hs. destruct Hs as [Hs Hd].
    constructor; [exact Hs |].
    unfold Py.roundR in Hd. rewrite Rmult_1_l, round_half_evenR_IZR in Hd.
    destruct Hd as [| q l' Hq]; constructor.
    apply Qle_trans with (1000 # 1000); [discriminate | exact Hq].
Qed.

End Ranges.

(** ** Stagnation and nutrient sub-scores *)

(** Case analysis on the comparisons and on the [min]/[max] of a goal. *)
Ltac q_compare :=
  repeat match goal with
    | |- context [Qle_bool ?a ?b] =>
        let E := fresh "E" in
        destruct (Qle_bool a b) eqn:E;
        [ apply Qle_bool_iff in E
        | apply not_true_iff_false in E; rewrite Qle_bool_iff in E;
          apply Qnot_le_lt in E ]
    end.

(** Division by a literal, turned into a product that [lra] accepts. *)
Ltac q_div :=
  unfold Qdiv in *;
  repeat match goal with
    | |- context [Qinv (Qmake ?n ?d)] =>
        let v := eval vm_compute in (Qinv (Qmake n d)) in
        change (Qinv (Qmake n d)) with v
    end.

Ltac q_split_max a b :=
  let H := fresh "H" in
  let E := fresh "E" in
  destruct (Q.max_spec a b) as [[H E] | [H E]];
  generalize dependent (Qmax a b); intros.

Ltac q_split_min a b :=
  let H := fresh "H" in
  let E := fresh "E" in
  destruct (Q.min_spec a b) as [[H E] | [H E]];
  generalize dependent (Qmin a b); intros.

Ltac q_minmax :=
  repeat match goal with
    | |- context [Qmax ?a ?b] => q_split_max a b
    | |- context [Qmin ?a ?b] => q_split_min a b
    | _ : context [Qmax ?a ?b] |- _ => q_split_max a b
    | _ : context [Qmin ?a ?b] |- _ => q_split_min a b
    end.

Section SubScores.
Import StagnationFeatures NutrientModel.
Local Open Scope Q_scope.

Lemma wind_mixing_score_range (w : Q) : 0 <= wind_mixing_score w <= 100.
Proof. unfold wind_mixing_score. q_compare; q_div; lra. Qed.

Lemma hydrological_stagnation_range (d : Q) :
  0 <= hydrological_stagnation d <= 100.
Proof. unfold hydrological_stagnation. q_compare; q_div; lra. Qed.

Lemma stratification_proxy_range (r t : Q) :
  0 <= stratification_proxy r t <= 100.
Proof. unfold stratification_proxy. cbv zeta. q_div. q_minmax; lra. Qed.

Lemma wind_mixing_score_antitone (w w' : Q) :
  w <= w' -> wind_mixing_score w' <= wind_mixing_score w.
Proof. intros H. unfold wind_mixing_score. q_compare; q_div; lra. Qed.

Lemma hydrological_stagnation_monotone (d d' : Q) :
  d <= d' -> hydrological_stagnation d <= hydrological_stagnation d'.
Proof.
  intros H. unfold hydrological_stagnation. q_compare; q_div; lra.
Qed.

Lemma stratification_proxy_monotone (r r' t t' : Q) :
  r <= r' -> t <= t' ->
  stratification_proxy r t <= stratification_proxy r' t'.
Proof.
  intros Hr Ht. unfold stratification_proxy. cbv zeta. q_div. q_minmax; lra.
Qed.

(** The final clamp of [combined_stagnation_index] never acts on the three
    sub-scores. *)
Lemma stagnation_score_unclamped (w d r t : Q) :
  stagnation_score w d r t
  == 0.4 * wind_mixing_score w + 0.3 * hydrological_stagnation d
     + 0.3 * stratification_proxy r t.
Proof.
  unfold stagnation_score, combined_stagnation_index. cbv zeta.
  pose proof (wind_mixing_score_range w).
  pose proof (hydrological_stagnation_range d).
  pose proof (stratification_proxy_range r t).
  generalize dependent (wind_mixing_score w).
  generalize dependent (hydrological_stagnation d).
  generalize dependent (stratification_proxy r t).
  intros. q_minmax; lra.
Qed.

Lemma stagnation_score_range (w d r t : Q) :
  0 <= stagnation_score w d r t <= 100.
Proof.
  rewrite stagnation_score_unclamped.
  pose proof (wind_mixing_score_range w).
  pose proof (hydrological_stagnation_range d).
  pose proof (stratification_proxy_range r t). lra.
Qed.

(** The stagnation score is the plain weighted sum 0.4 wind + 0.3 hydro + 0.3
    stratification of the three sub-scores (the final clamp to [[0, 100]]
    never acts), it lies in [[0, 100]], it falls as the wind rises and grows
    with the rainfall deficit, the diurnal range and the water temperature. *)
Theorem stagnation_score_weighted_sum :
  (forall w d r t : Q,
      stagnation_score w d r t
      == 0.4 * wind_mixing_score w + 0.3 * hydrological_stagnation d
         + 0.3 * stratification_proxy r t
      /\ 0 <= stagnation_score w d r t <= 100)
  /\ (forall w w' d d' r r' t t' : Q,
        w' <= w -> d <= d' -> r <= r' -> t <= t' ->
        stagnation_score w d r t <= stagnation_score w' d' r' t').
Proof.
  split.
  - intros w d r t.
    split; [apply stagnation_score_unclamped | apply stagnation_score_range].
  - intros w w' d d' r r' t t' Hw Hd Hr Ht.
    rewrite !stagnation_score_unclamped.
    pose proof (wind_mixing_score_antitone w' w Hw).
    pose proof (hydrological_stagnation_monotone d d' Hd).
    pose proof (stratification_proxy_monotone r r' t t' Hr Ht). lra.
Qed.

(** From a 7-day wind of 5 on (the thresholds 1 and 5 are applied to the
    value as given, whatever its unit) the wind sub-score is 0, so the wind
    no longer matters and the stagnation score cannot exceed 60. *)
Theorem stagnation_score_wind_saturates (w w' d r t : Q) :
  5 <= w -> 5 <= w' ->
  stagnation_score w d r t == stagnation_score w' d r t
  /\ stagnation_score w d r t <= 60.
Proof.
  intros Hw Hw'. rewrite !stagnation_score_unclamped.
  assert (E : forall v, 5 <= v -> wind_mixing_score v == 0).
  { intros v Hv. unfold wind_mixing_score. q_compare; lra. }
  rewrite (E w Hw), (E w' Hw').
  pose proof (hydrological_stagnation_range d).
  pose proof (stratification_proxy_range r t).
  split; [reflexivity | lra].
Qed.

Lemma stagnation_score_wind_saturates_witness :
  5 <= 10 /\ 5 <= 30
  /\ stagnation_score 10 50 5 20 == stagnation_score 30 50 5 20.
Proof.
  assert (H1 : 5 <= 10) by discriminate.
  assert (H2 : 5 <= 30) by discriminate.
  split; [exact H1 | split; [exact H2 |]].
  exact (proj1 (stagnation_score_wind_saturates 10 30 50 5 20 H1 H2)).
Defined.

(** [compute_stagnation_score] reports the stagnation score of its four
    inputs (with the defaults 10.0, 0.0, 8.0 and 20.0 for missing keys)
    rounded to one decimal: its own [np.clip] never acts; the reported score
    and the three reported sub-scores lie in [[0, 100]]. *)
Theorem compute_stagnation_score_range (f : StagFeatures) :
  let r := compute_stagnation_score f in
  sr_score r
  = Py.round
      (stagnation_score
         (Py.get (sf_avg_wind_7d f) 10.0)
         (Py.get (sf_rainfall_deficit_30d f) 0.0)
         (Py.get (sf_diurnal_range f) 8.0) (Py.get (sf_water_temp f) 20.0)) 10
  /\ 0 <= sr_score r <= 100
  /\ 0 <= sr_wind_score r <= 100
  /\ 0 <= sr_hydro_score r <= 100
  /\ 0 <= sr_stratification_score r <= 100.
Proof.
  intros r. subst r. unfold compute_stagnation_score.
  cbn [sr_score sr_wind_score sr_hydro_score sr_stratification_score].
  split; [| repeat split].
  - apply round_proper.
    pose proof (stagnation_score_range
                  (Py.get (sf_avg_wind_7d f) 10.0)
                  (Py.get (sf_rainfall_deficit_30d f) 0.0)
                  (Py.get (sf_diurnal_range f) 8.0)
                  (Py.get (sf_water_temp f) 20.0)) as Hr.
    revert Hr. generalize (stagnation_score
                  (Py.get (sf_avg_wind_7d f) 10.0)
                  (Py.get (sf_rainfall_deficit_30d f) 0.0)
                  (Py.get (sf_diurnal_range f) 8.0)
                  (Py.get (sf_water_temp f) 20.0)).
    intros x Hr. unfold Py.clip. q_minmax; lra.
  - apply (round_bounds _ 10 100); apply clip_bounds; discriminate.
  - apply (round_bounds _ 10 100); apply clip_bounds; discriminate.
  - apply (round_bounds _ 10 100); apply wind_mixing_score_range.
  - apply (round_bounds _ 10 100); apply wind_mixing_score_range.
  - apply (round_bounds _ 10 100); apply hydrological_stagnation_range.
  - apply (round_bounds _ 10 100); apply hydrological_stagnation_range.
  - apply (round_bounds _ 10 100); apply clip_bounds; discriminate.
  - apply (round_bounds _ 10 100); apply clip_bounds; discriminate.
Qed.

Lemma clip_mono (x y lo hi : Q) :
  x <= y -> Py.clip x lo hi <= Py.clip y lo hi.
Proof. intros H. unfold Py.clip. q_minmax; lra. Qed.

Lemma clip_id (x lo hi : Q) : lo <= x <= hi -> Py.clip x lo hi == x.
Proof. intros H. unfold Py.clip. q_minmax; lra. Qed.

(** The nutrient score lies in [[0, 80]]: agriculture contributes at most
    50 and urban land at most 30, so the score never reaches 100; it grows
    with the agricultural and urban shares and falls as forest and wetland
    grow. *)
Theorem nutrient_score_at_most_80 :
  (forall f : NutrientFeatures, 0 <= nr_score (compute_nutrient_score f) <= 80)
  /\ (forall ag ag' urban urban' forest forest' wetland wetland' : Q,
        ag <= ag' -> urban <= urban' ->
        forest' <= forest -> wetland' <= wetland ->
        nr_score
          (compute_nutrient_score
             {| nf_agricultural_pct := Some ag; nf_urban_pct := Some urban;
                nf_forest_pct := Some forest; nf_wetland_pct := Some wetland |})
        <= nr_score
             (compute_nutrient_score
                {| nf_agricultural_pct := Some ag';
                   nf_urban_pct := Some urban';
                   nf_forest_pct := Some forest';
                   nf_wetland_pct := Some wetland' |})).
Proof.
  split.
  - intros f. unfold compute_nutrient_score. cbn [nr_score].
    apply (round_bounds _ 10 80).
    + apply clip_bounds. discriminate.
    + change (inject_Z 80) with 80.
      pose proof (clip_bounds (Py.get (nf_agricultural_pct f) 0 * 1.2) 0 50
                    ltac:(discriminate)) as Ha.
      pose proof (clip_bounds (Py.get (nf_urban_pct f) 0 * 1.5) 0 30
                    ltac:(discriminate)) as Hu.
      pose proof (clip_bounds
                    ((Py.get (nf_forest_pct f) 0 + Py.get (nf_wetland_pct f) 0)
                     * 0.3) 0 20 ltac:(discriminate)) as Hb.
      revert Ha Hu Hb.
      generalize (Py.clip (Py.get (nf_agricultural_pct f) 0 * 1.2) 0 50).
      generalize (Py.clip (Py.get (nf_urban_pct f) 0 * 1.5) 0 30).
      generalize (Py.clip
                    ((Py.get (nf_forest_pct f) 0 + Py.get (nf_wetland_pct f) 0)
                     * 0.3) 0 20).
      intros b u a Ha Hu Hb. unfold Py.clip. q_minmax; lra.
  - intros ag ag' urban urban' forest forest' wetland wetland' Ha Hu Hf Hw.
    unfold compute_nutrient_score. cbn [nr_score nf_agricultural_pct
      nf_urban_pct nf_forest_pct nf_wetland_pct Py.get].
    apply round_mono, clip_mono.
    pose proof (clip_mono (ag * 1.2) (ag' * 1.2) 0 50 ltac:(lra)).
    pose proof (clip_mono (urban * 1.5) (urban' * 1.5) 0 30 ltac:(lra)).
    pose proof (clip_mono ((forest' + wetland') * 0.3)
                  ((forest + wetland) * 0.3) 0 20 ltac:(lra)).
    lra.
Qed.

End SubScores.

(** ** Temperature score *)

Section TemperatureScores.
Import TemperatureFeatures TemperatureModel.
Local Open Scope R_scope.

Lemma Q2R_zero : Q2R 0 = 0.
Proof. unfold Q2R. simpl. lra. Qed.

Lemma Q2R_bounds (q : Q) (lo hi : Z) :
  (inject_Z lo <= q <= inject_Z hi)%Q -> IZR lo <= Q2R q <= IZR hi.
Proof.
  intros [H0 H1]. apply Qle_Rle in H0, H1.
  unfold inject_Z in H0, H1. rewrite Q2R_lit in H0, H1.
  unfold Rdiv in H0, H1. rewrite Rinv_1, Rmult_1_r in H0, H1. lra.
Qed.

Lemma anomaly_component_range (z : Q) :
  (0 <= anomaly_component z <= 40)%Q.
Proof.
  unfold anomaly_component. pose proof (Qabs_nonneg z) as H.
  revert H. generalize (Qabs z). intros a H. q_minmax; lra.
Qed.

Lemma trend_component_range (sl : Q) : (0 <= trend_component sl <= 20)%Q.
Proof. unfold trend_component. q_minmax; lra. Qed.

Lemma anomaly_component_mono (z z' : Q) :
  (Qabs z <= Qabs z')%Q -> (anomaly_component z <= anomaly_component z')%Q.
Proof.
  unfold anomaly_component. generalize (Qabs z) (Qabs z').
  intros a a' H. q_minmax; lra.
Qed.

Lemma trend_component_mono (sl sl' : Q) :
  (sl <= sl')%Q -> (trend_component sl <= trend_component sl')%Q.
Proof. intros H. unfold trend_component. q_minmax; lra. Qed.

Lemma water_temp_component_range (wt : Q) :
  0 < water_temp_component wt < 40.
Proof.
  unfold water_temp_component.
  pose proof (exp_pos (- 0.3 * (Q2R wt - 25.0))) as He.
  set (e := exp _) in *.
  split.
  - apply Rdiv_lt_0_compat; lra.
  - apply Rmult_lt_reg_r with (1.0 + e); [lra |].
    unfold Rdiv. rewrite Rmult_assoc, Rinv_l by lra. lra.
Qed.

Lemma water_temp_component_mono (wt wt' : Q) :
  (wt <= wt')%Q -> water_temp_component wt <= water_temp_component wt'.
Proof.
  intros H. apply Qle_Rle in H. unfold water_temp_component.
  assert (He : exp (- 0.3 * (Q2R wt' - 25.0))
               <= exp (- 0.3 * (Q2R wt - 25.0)))
    by (apply exp_le_mono; lra).
  pose proof (exp_pos (- 0.3 * (Q2R wt' - 25.0))).
  pose proof (exp_pos (- 0.3 * (Q2R wt - 25.0))).
  unfold Rdiv. apply Rmult_le_compat_l; [lra |].
  apply Rinv_le_contravar; lra.
Qed.

Lemma composite_risk_score_unclipped (z sl wt : Q) :
  composite_risk_score z sl wt
  = Q2R (anomaly_component z) + Q2R (trend_component sl)
    + water_temp_component wt
  /\ 0 <= composite_risk_score z sl wt <= 100.
Proof.
  unfold composite_risk_score. cbv zeta.
  pose proof (Q2R_bounds _ 0 40 (anomaly_component_range z)).
  pose proof (Q2R_bounds _ 0 20 (trend_component_range sl)).
  pose proof (water_temp_component_range wt).
  rewrite clipR_id by lra. split; [reflexivity | lra].
Qed.

Lemma composite_risk_score_mono (z z' sl sl' wt wt' : Q) :
  (Qabs z <= Qabs z')%Q -> (sl <= sl')%Q -> (wt <= wt')%Q ->
  composite_risk_score z sl wt <= composite_risk_score z' sl' wt'.
Proof.
  intros Hz Hs Hw.
  rewrite (proj1 (composite_risk_score_unclipped z sl wt)).
  rewrite (proj1 (composite_risk_score_unclipped z' sl' wt')).
  pose proof (Qle_Rle _ _ (anomaly_component_mono z z' Hz)).
  pose proof (Qle_Rle _ _ (trend_component_mono sl sl' Hs)).
  pose proof (water_temp_component_mono wt wt' Hw). lra.
Qed.

(** [composite_risk_score] is the plain sum of its three components, its
    clip never acting: the anomaly component lies in [[0, 40]] and is 40 from
    a z-score of size 2 on, the trend component lies in [[0, 20]], is 0 for a
    falling or flat trend and 20 from a slope of 1 on, and the
    water-temperature sigmoid lies in [[0, 40]] and is 20 at 25 degrees; so
    the score lies in [[0, 100]].  The score grows with the size of the
    anomaly, with the trend slope and with the water temperature. *)
Theorem composite_risk_score_components :
  (forall z sl wt : Q,
      composite_risk_score z sl wt
      = Q2R (anomaly_component z) + Q2R (trend_component sl)
        + water_temp_component wt
      /\ (0 <= anomaly_component z <= 40)%Q
      /\ (0 <= trend_component sl <= 20)%Q
      /\ 0 <= water_temp_component wt <= 40
      /\ 0 <= composite_risk_score z sl wt <= 100)
  /\ (forall z : Q, (2 <= Qabs z)%Q -> (anomaly_component z == 40)%Q)
  /\ (forall sl : Q,
        ((sl <= 0)%Q -> (trend_component sl == 0)%Q)
        /\ ((1 <= sl)%Q -> (trend_component sl == 20)%Q))
  /\ (forall z z' sl sl' wt wt' : Q,
        (Qabs z <= Qabs z')%Q -> (sl <= sl')%Q -> (wt <= wt')%Q ->
        composite_risk_score z sl wt <= composite_risk_score z' sl' wt')
  /\ water_temp_component 25 = 20.
Proof.
  split; [| split; [| split; [| split]]].
  - intros z sl wt.
    destruct (composite_risk_score_unclipped z sl wt) as [E [H0 H1]].
    pose proof (water_temp_component_range wt) as [W0 W1].
    split; [exact E |].
    split; [apply anomaly_component_range |].
    split; [apply trend_component_range |].
    split; split; lra.
  - intros z. unfold anomaly_component. generalize (Qabs z).
    intros a Ha. q_minmax; lra.
  - intros sl. unfold trend_component.
    split; intros H; q_minmax; lra.
  - exact composite_risk_score_mono.
  - unfold water_temp_component.
    replace (Q2R 25) with 25 by (unfold Q2R; simpl; lra).
    replace (- 0.3 * (25 - 25.0)) with 0 by lra. rewrite exp_0. lra.
Qed.

Lemma temperature_total_mono (b b' : R) (d : Q) :
  b <= b' ->
  (Py.roundR (Py.clipR (b + Q2R d) 0 100) 10
   <= Py.roundR (Py.clipR (b' + Q2R d) 0 100) 10)%Q.
Proof. intros H. apply roundR_mono, clipR_mono. lra. Qed.

(** [compute_temperature_score] returns a score in [[0, 100]], and a cold
    anomaly never scores more than the warm anomaly of the same size (the
    anomaly component sees the size only, the trend component counts warm
    anomalies only). *)
Theorem temperature_score_warm_over_cold :
  (forall f : TempFeatures,
      (0 <= tr_score (compute_temperature_score f) <= 100)%Q)
  /\ (forall (a : Q) (wt dr : option Q),
        (0 <= a)%Q ->
        (tr_score
           (compute_temperature_score
              {| tf_water_temp := wt; tf_temp_anomaly_c := Some (- a);
                 tf_diurnal_range := dr |})
         <= tr_score
              (compute_temperature_score
                 {| tf_water_temp := wt; tf_temp_anomaly_c := Some a;
                    tf_diurnal_range := dr |}))%Q).
Proof.
  split.
  - intros f. unfold compute_temperature_score. cbn [tr_score].
    match goal with
    | |- (_ <= Py.roundR ?x _ <= _)%Q =>
        destruct (roundR_bounds x 10 100) as [H0 H1];
        [apply clipR_bounds; lra | apply clipR_bounds; lra |]
    end.
    split; apply Rle_Qle.
    + now rewrite Q2R_zero.
    + replace (Q2R 100) with 100 by (unfold Q2R; simpl; lra). exact H1.
  - intros a wt dr Ha. unfold compute_temperature_score.
    cbn [tr_score tf_water_temp tf_temp_anomaly_c tf_diurnal_range Py.get].
    apply temperature_total_mono, composite_risk_score_mono;
      [| | apply Qle_refl].
    + destruct (Qlt_le_dec 0 (Qabs (- a))) as [Hn | Hn];
        destruct (Qlt_le_dec 0 (Qabs a)) as [Hp | Hp].
      * unfold Qdiv. rewrite !Qabs_Qmult, Qabs_opp. apply Qle_refl.
      * rewrite Qabs_opp in Hn. lra.
      * apply Qle_trans with 0%Q; [discriminate | apply Qabs_nonneg].
      * apply Qle_refl.
    + destruct (Qlt_le_dec 0 (- a)); [lra |].
      destruct (Qlt_le_dec 0 a); [| apply Qle_refl].
      apply Qle_trans with 0%Q; [discriminate | apply Q.le_max_l].
Qed.

End TemperatureScores.

(** ** Percentile ranks *)

Section PercentileRanks.
Import TemperatureFeatures.
Local Open Scope Q_scope.

Lemma in_drop_nan (a : list Float) (val : Q) :
  In (Some val) a <-> In val (drop_nan a).
Proof.
  unfold drop_nan. rewrite in_flat_map. split.
  - intros H. exists (Some val). split; [exact H | now left].
  - intros [[y |] [Hin Hy]]; simpl in Hy; [| contradiction].
    destruct Hy as [-> | []]. exact Hin.
Qed.

Lemma filter_length_mono {A : Type} (f g : A -> bool) (l : list A) :
  (forall x, f x = true -> g x = true) ->
  (length (filter f l) <= length (filter g l))%nat.
Proof.
  intros H. induction l as [| x l IH]; simpl; [lia |].
  destruct (f x) eqn:Ef.
  - rewrite (H x Ef). simpl. lia.
  - destruct (g x); simpl; lia.
Qed.

Lemma filter_length_pos {A : Type} (f : A -> bool) (l : list A) (x : A) :
  In x l -> f x = true -> (1 <= length (filter f l))%nat.
Proof.
  intros Hin Hf.
  assert (H : In x (filter f l)) by (apply filter_In; now split).
  destruct (filter f l); [contradiction | simpl; lia].
Qed.

Lemma percent_le (c c' n : nat) :
  (0 < n)%nat -> (c <= c')%nat ->
  100.0 * inject_Z (Z.of_nat c) / inject_Z (Z.of_nat n)
  <= 100.0 * inject_Z (Z.of_nat c') / inject_Z (Z.of_nat n).
Proof.
  intros Hn Hc.
  assert (Hnq : 0 < inject_Z (Z.of_nat n)) by (rewrite <- (Zlt_Qlt 0); lia).
  assert (Hcq : inject_Z (Z.of_nat c) <= inject_Z (Z.of_nat c'))
    by (rewrite <- Zle_Qle; lia).
  unfold Qdiv. apply Qmult_le_compat_r.
  - apply Qmult_le_l; [reflexivity | exact Hcq].
  - apply Qlt_le_weak, Qinv_lt_0_compat, Hnq.
Qed.

Lemma rank_among_range (valid : list Q) (val : Q) :
  In val valid -> 0 < rank_among valid val <= 100.
Proof.
  intros Hin. unfold rank_among.
  assert (Hn : (0 < length valid)%nat)
    by (destruct valid; [contradiction | simpl; lia]).
  assert (Hc1 : (1 <= length (filter (fun v => Qle_bool v val) valid))%nat).
  { apply (filter_length_pos _ _ val Hin). apply Qle_bool_iff, Qle_refl. }
  assert (Hc2 : (length (filter (fun v => Qle_bool v val) valid)
                 <= length valid)%nat) by apply filter_length_le.
  assert (Hnq : 0 < inject_Z (Z.of_nat (length valid)))
    by (rewrite <- (Zlt_Qlt 0); lia).
  split.
  - apply Qlt_le_trans
      with (100.0 * inject_Z (Z.of_nat 1) / inject_Z (Z.of_nat (length valid))).
    + apply Qlt_shift_div_l; [exact Hnq | reflexivity].
    + now apply percent_le.
  - apply Qle_trans
      with (100.0 * inject_Z (Z.of_nat (length valid))
            / inject_Z (Z.of_nat (length valid))).
    + now apply percent_le.
    + apply Qle_shift_div_r; [exact Hnq |].
      apply Qmult_le_compat_r; [discriminate | lra].
Qed.

Lemma rank_among_mono (valid : list Q) (x y : Q) :
  valid <> [] -> x <= y -> rank_among valid x <= rank_among valid y.
Proof.
  intros Hne Hxy. unfold rank_among. apply percent_le.
  - destruct valid; [contradiction | simpl; lia].
  - apply filter_length_mono. intros v Hv.
    apply Qle_bool_iff in Hv. apply Qle_bool_iff. lra.
Qed.

Lemma rank_among_max (valid : list Q) (val : Q) :
  valid <> [] -> (forall v, In v valid -> v <= val) ->
  rank_among valid val == 100.
Proof.
  intros Hne Hmax. unfold rank_among.
  assert (E : filter (fun v => Qle_bool v val) valid = valid).
  { apply forallb_filter_id. apply forallb_forall. intros v Hv.
    apply Qle_bool_iff. now apply Hmax. }
  rewrite E.
  assert (Hnq : 0 < inject_Z (Z.of_nat (length valid))).
  { rewrite <- (Zlt_Qlt 0). destruct valid; [contradiction | simpl; lia]. }
  field. lra.
Qed.

Lemma percentile_ranking_nth (a : list Float) (i : nat) (v : Float) :
  nth_error a i = Some v ->
  nth_error (percentile_ranking a) i
  = Some (match v with
          | None => 50.0
          | Some val => rank_among (drop_nan a) val
          end).
Proof.
  intros H. unfold percentile_ranking.
  destruct (Nat.eqb_spec (length (drop_nan a)) 0) as [E | _].
  - rewrite (map_nth_error _ _ _ H).
    destruct v as [val |]; [| reflexivity].
    assert (Hin : In val (drop_nan a)).
    { apply in_drop_nan. eapply nth_error_In. exact H. }
    destruct (drop_nan a); [contradiction | discriminate].
  - now rewrite (map_nth_error _ _ _ H).
Qed.

(** [percentile_ranking] keeps the length of its input; a NaN entry gets 50
    exactly; a valid entry gets a rank above 0 and at most 100 (its own value
    counts); a larger value never gets a smaller rank; and an entry that is
    the largest valid value gets 100. *)
Theorem percentile_ranking_ranks (a : list Float) :
  length (percentile_ranking a) = length a
  /\ (forall i, nth_error a i = Some None ->
        nth_error (percentile_ranking a) i = Some 50.0)
  /\ (forall i x, nth_error a i = Some (Some x) ->
        exists r, nth_error (percentile_ranking a) i = Some r
                  /\ 0 < r <= 100)
  /\ (forall i j x y ri rj,
        nth_error a i = Some (Some x) -> nth_error a j = Some (Some y) ->
        nth_error (percentile_ranking a) i = Some ri ->
        nth_error (percentile_ranking a) j = Some rj ->
        x <= y -> ri <= rj)
  /\ (forall i x r,
        nth_error a i = Some (Some x) ->
        (forall y, In (Some y) a -> y <= x) ->
        nth_error (percentile_ranking a) i = Some r -> r == 100).
Proof.
  split; [| split; [| split; [| split]]].
  - unfold percentile_ranking.
    destruct (_ =? _)%nat; apply length_map.
  - intros i H. now rewrite (percentile_ranking_nth a i None H).
  - intros i x H. rewrite (percentile_ranking_nth a i _ H).
    eexists. split; [reflexivity |].
    apply rank_among_range, in_drop_nan. eapply nth_error_In. exact H.
  - intros i j x y ri rj Hi Hj Hri Hrj Hxy.
    rewrite (percentile_ranking_nth a i _ Hi) in Hri.
    rewrite (percentile_ranking_nth a j _ Hj) in Hrj.
    inversion Hri; inversion Hrj; subst.
    apply rank_among_mono; [| exact Hxy].
    assert (Hin : In x (drop_nan a))
      by (apply in_drop_nan; eapply nth_error_In; exact Hi).
    intros E. rewrite E in Hin. contradiction.
  - intros i x r Hi Hmax Hr.
    rewrite (percentile_ranking_nth a i _ Hi) in Hr.
    inversion Hr; subst.
    apply rank_among_max.
    + assert (Hin : In x (drop_nan a))
        by (apply in_drop_nan; eapply nth_error_In; exact Hi).
      intros E. rewrite E in Hin. contradiction.
    + intros v Hv. apply Hmax. now apply in_drop_nan.
Qed.

End PercentileRanks.

(** ** Sums over a list, and least squares on exactly linear data *)

Section LinearData.
Import TemperatureFeatures.
Local Open Scope Q_scope.

Lemma sum_map_ext {A : Type} (f g : A -> Q) (l : list A) :
  (forall x, In x l -> f x == g x) -> sum (map f l) == sum (map g l).
Proof.
  induction l as [| x l IH]; intros H; [reflexivity |].
  cbn [map].
  rewrite !sum_cons, (IH (fun z Hz => H z (or_intror Hz))),
    (H x (or_introl eq_refl)).
  reflexivity.
Qed.

Lemma sum_map_plus {A : Type} (f g : A -> Q) (l : list A) :
  sum (map (fun x => f x + g x) l) == sum (map f l) + sum (map g l).
Proof.
  induction l as [| x l IH]; [unfold sum; simpl; ring |].
  cbn [map]. rewrite !sum_cons, IH. ring.
Qed.

Lemma sum_map_scale {A : Type} (c : Q) (f : A -> Q) (l : list A) :
  sum (map (fun x => c * f x) l) == c * sum (map f l).
Proof.
  induction l as [| x l IH]; [unfold sum; simpl; ring |].
  cbn [map]. rewrite !sum_cons, IH. ring.
Qed.

Lemma sum_map_const {A : Type} (c : Q) (l : list A) :
  sum (map (fun _ => c) l) == inject_Z (Z.of_nat (length l)) * c.
Proof.
  induction l as [| x l IH]; [unfold sum; simpl; ring |].
  cbn [map length]. rewrite sum_cons, IH, Nat2Z.inj_succ.
  unfold Z.succ. rewrite inject_Z_plus. ring.
Qed.

Lemma sum_map_nonneg {A : Type} (f : A -> Q) (l : list A) :
  (forall x, 0 <= f x) -> 0 <= sum (map f l).
Proof.
  intros H. induction l as [| x l IH]; [discriminate |].
  cbn [map]. rewrite sum_cons. specialize (H x). lra.
Qed.

Lemma sum_map_term {A : Type} (f : A -> Q) (l : list A) (x : A) :
  (forall y, 0 <= f y) -> In x l -> f x <= sum (map f l).
Proof.
  intros H. induction l as [| y l IH]; intros Hin; [contradiction |].
  cbn [map]. rewrite sum_cons.
  pose proof (sum_map_nonneg f l H). specialize (H y).
  destruct Hin as [-> | Hin]; [lra | specialize (IH Hin); lra].
Qed.

Lemma combine_map_r {A B : Type} (f : A -> B) (l : list A) :
  combine l (map f l) = map (fun x => (x, f x)) l.
Proof. induction l as [| x l IH]; simpl; [| rewrite IH]; reflexivity. Qed.

Lemma in_arange (n i : nat) :
  (i < n)%nat -> In (inject_Z (Z.of_nat i)) (arange n).
Proof.
  intros H. unfold arange.
  apply (in_map (fun k => inject_Z (Z.of_nat k))). apply in_seq. lia.
Qed.

Lemma sqr_nonneg (q : Q) : 0 <= q ^ 2.
Proof. assert (E : q ^ 2 == q * q) by ring. rewrite E. nra. Qed.

(** Two or more positions have a positive spread, whatever their number. *)
Lemma ss_xx_arange_positive (n : nat) : (2 <= n)%nat -> 0 < ss_xx (arange n).
Proof.
  intros Hn. unfold ss_xx. set (m := mean (arange n)).
  pose proof (sum_map_term (fun xi => (xi - m) ^ 2) (arange n)
                (inject_Z (Z.of_nat 0)) (fun y => sqr_nonneg _)
                (in_arange n 0 ltac:(lia))) as H0.
  pose proof (sum_map_term (fun xi => (xi - m) ^ 2) (arange n)
                (inject_Z (Z.of_nat 1)) (fun y => sqr_nonneg _)
                (in_arange n 1 ltac:(lia))) as H1.
  cbv beta in H0, H1.
  change (inject_Z (Z.of_nat 0)) with 0 in H0.
  change (inject_Z (Z.of_nat 1)) with 1 in H1.
  revert H0 H1. generalize (sum (map (fun xi => (xi - m) ^ 2) (arange n))).
  intros s H0 H1.
  assert (E0 : (0 - m) ^ 2 == m * m) by ring.
  assert (E1 : (1 - m) ^ 2 == (1 - m) * (1 - m)) by ring.
  rewrite E0 in H0. rewrite E1 in H1.
  destruct (Qlt_le_dec 0 s) as [Hs | Hs]; [exact Hs | exfalso]. nra.
Qed.

Section OnALine.
Variables (a b : Q) (x : list Q).
Hypothesis x_nonempty : x <> [].

Let y := map (fun xi => a + b * xi) x.

Lemma length_pos_Q : 0 < inject_Z (Z.of_nat (length x)).
Proof.
  rewrite <- (Zlt_Qlt 0). destruct x; [contradiction | simpl; lia].
Qed.

Lemma mean_on_line : mean y == a + b * mean x.
Proof.
  pose proof length_pos_Q as Hn.
  unfold mean, y. rewrite length_map.
  rewrite (sum_map_plus (fun _ => a) (fun xi => b * xi)).
  rewrite sum_map_const, (sum_map_scale b (fun xi => xi)), map_id.
  field. lra.
Qed.

Lemma ss_xy_on_line : ss_xy x y == b * ss_xx x.
Proof.
  unfold ss_xy, ss_xx. fold y. unfold y at 2. rewrite combine_map_r, map_map.
  cbn [fst snd].
  rewrite <- sum_map_scale. apply sum_map_ext. intros xi _.
  rewrite mean_on_line. ring.
Qed.

Lemma slope_on_line : 0 < ss_xx x -> ss_xy x y / ss_xx x == b.
Proof. intros H. rewrite ss_xy_on_line. field. lra. Qed.

End OnALine.

(** The same sums on the mirrored series. *)

Lemma sum_map_opp {A : Type} (f : A -> Q) (l : list A) :
  sum (map (fun x => - f x) l) == - sum (map f l).
Proof.
  rewrite (sum_map_ext _ (fun x => (-1) * f x)) by (intros; ring).
  rewrite sum_map_scale. ring.
Qed.

Lemma mean_opp (y : list Q) : mean (map Qopp y) == - mean y.
Proof.
  pose proof (sum_map_opp (fun v : Q => v) y) as H. cbv beta in H.
  rewrite map_id in H. unfold mean. rewrite length_map.
  change (map Qopp y) with (map (fun x => - x) y). rewrite H.
  unfold Qdiv. ring.
Qed.

Lemma combine_map_opp (x y : list Q) :
  combine x (map Qopp y) = map (fun p => (fst p, - snd p)) (combine x y).
Proof.
  revert y. induction x as [| xi x IH]; intros [| yi y]; simpl;
    [reflexivity | reflexivity | reflexivity | now rewrite IH].
Qed.

Lemma ss_xy_opp (x y : list Q) : ss_xy x (map Qopp y) == - ss_xy x y.
Proof.
  unfold ss_xy. rewrite combine_map_opp, map_map. cbn [fst snd].
  rewrite <- sum_map_opp. apply sum_map_ext. intros xy _.
  rewrite mean_opp. ring.
Qed.

Lemma raw_slope_opp (scores : list Q) :
  ComputeTrend.raw_slope (map Qopp scores)
  == - ComputeTrend.raw_slope scores.
Proof.
  unfold ComputeTrend.raw_slope. rewrite length_map, ss_xy_opp.
  unfold Qdiv. ring.
Qed.

Lemma ss_res_opp (x y : list Q) (slope slope' : Q) :
  slope' == - slope ->
  ComputeTrend.ss_res x (map Qopp y) slope' == ComputeTrend.ss_res x y slope.
Proof.
  intros E. unfold ComputeTrend.ss_res. cbv zeta.
  rewrite combine_map_opp, map_map. cbn [fst snd].
  apply sum_map_ext. intros xy _. rewrite mean_opp, E. ring.
Qed.

Lemma floor_unique (q : Q) (k : Z) :
  inject_Z k <= q -> q < inject_Z (k + 1) -> Qfloor q = k.
Proof.
  intros Hlo Hhi.
  pose proof (Qfloor_resp_le _ _ Hlo) as H1. rewrite Qfloor_Z in H1.
  pose proof (Qfloor_le q) as H2.
  assert (H3 : inject_Z (Qfloor q) < inject_Z (k + 1)) by lra.
  rewrite <- Zlt_Qlt in H3. lia.
Qed.

(** Rounding half to even is symmetric about zero. *)
Lemma round_half_even_opp (q : Q) :
  Py.round_half_even (- q) = (- Py.round_half_even q)%Z.
Proof.
  pose proof (Qfloor_le q) as Hlo. pose proof (Qlt_floor q) as Hhi.
  rewrite inject_Z_plus in Hhi.
  destruct (Qlt_le_dec (inject_Z (Qfloor q)) q) as [Hfrac | Hint].
  - assert (Ef : Qfloor (- q) = (- Qfloor q - 1)%Z).
    { apply floor_unique.
      - unfold Z.sub. rewrite inject_Z_plus, !inject_Z_opp.
        change (inject_Z 1) with 1 in *. lra.
      - replace (- Qfloor q - 1 + 1)%Z with (- Qfloor q)%Z by lia.
        rewrite inject_Z_opp. lra. }
    unfold Py.round_half_even. rewrite Ef.
    assert (Ei : inject_Z (- Qfloor q - 1) == - inject_Z (Qfloor q) - 1).
    { unfold Z.sub. rewrite inject_Z_plus, !inject_Z_opp. reflexivity. }
    assert (Ev : Z.even (- Qfloor q - 1) = negb (Z.even (Qfloor q))).
    { replace (- Qfloor q - 1)%Z with (- Z.succ (Qfloor q))%Z by lia.
      rewrite Z.even_opp, Z.even_succ, <- Z.negb_even. reflexivity. }
    rewrite Ev. change (inject_Z 1) with 1 in *.
    destruct (Qcompare_spec (q - inject_Z (Qfloor q)) (1 # 2))
      as [E1 | L1 | G1];
      destruct (Qcompare_spec (- q - inject_Z (- Qfloor q - 1)) (1 # 2))
        as [E2 | L2 | G2];
      rewrite Ei in *; try lra;
      try destruct (Z.even (Qfloor q)); cbn [negb]; lia.
  - assert (Eq : q == inject_Z (Qfloor q)) by lra.
    assert (Ef : Qfloor (- q) = (- Qfloor q)%Z).
    { rewrite (Qfloor_comp (- q) (inject_Z (- Qfloor q)))
        by (rewrite inject_Z_opp, <- Eq; reflexivity).
      apply Qfloor_Z. }
    unfold Py.round_half_even. rewrite Ef.
    destruct (Qcompare_spec (q - inject_Z (Qfloor q)) (1 # 2))
      as [E1 | L1 | G1];
      destruct (Qcompare_spec (- q - inject_Z (- Qfloor q)) (1 # 2))
        as [E2 | L2 | G2];
      rewrite ?inject_Z_opp in *; try lra; lia.
Qed.

Lemma round_opp (x : Q) (scale : positive) :
  Py.round (- x) scale = - Py.round x scale.
Proof.
  unfold Py.round.
  rewrite (round_half_even_proper (- x * inject_Z (Z.pos scale))
             (- (x * inject_Z (Z.pos scale)))) by ring.
  rewrite round_half_even_opp. reflexivity.
Qed.

End LinearData.

(** ** [compute_trend] *)

Section TrendClassification.
Import TemperatureFeatures ComputeTrend.
Local Open Scope R_scope.

Lemma pseudo_p_value_range (t : R) : 0 <= pseudo_p_value t <= 1.
Proof.
  unfold pseudo_p_value.
  assert (He : 1 <= exp (Rabs t)).
  { rewrite <- exp_0. apply exp_le_mono, Rabs_pos. }
  split.
  - left. apply Rdiv_lt_0_compat; lra.
  - apply Rdiv_le_l; lra.
Qed.

Lemma roundR_one (scale : positive) : (Py.roundR 1 scale == 1)%Q.
Proof.
  unfold Py.roundR. rewrite Rmult_1_l, round_half_evenR_IZR.
  unfold Qeq. simpl. lia.
Qed.

Lemma compute_trend_long (scores : list Q) :
  (3 <= length scores)%nat ->
  compute_trend scores
  = let '(trend, emoji) :=
      if Qlt_le_dec 0.3 (raw_slope scores) then
        if Rlt_dec (p_value_of scores) 0.1 then (WORSENING, "📈"%string)
        else (STABLE, "➡️"%string)
      else if Qlt_le_dec (raw_slope scores) (-0.3) then
        if Rlt_dec (p_value_of scores) 0.1 then (IMPROVING, "📉"%string)
        else (STABLE, "➡️"%string)
      else (STABLE, "➡️"%string) in
    {| trend := trend;
       direction_emoji := emoji;
       slope_per_day := Py.round (raw_slope scores) 1000;
       p_value := Py.roundR (p_value_of scores) 10000 |}.
Proof.
  intros H. unfold compute_trend.
  destruct (Nat.ltb_spec (length scores) 3) as [Hlt | _]; [lia |].
  pose proof (ss_xx_arange_positive (length scores) ltac:(lia)) as Hxx.
  destruct (Qeq_bool (ss_xx (arange (length scores))) 0) eqn:E.
  - apply Qeq_bool_iff in E. lra.
  - reflexivity.
Qed.

Lemma p_value_of_opp (scores : list Q) :
  p_value_of (map Qopp scores) = p_value_of scores.
Proof.
  unfold p_value_of. cbv zeta. rewrite length_map.
  set (x := arange (length scores)).
  set (slope := (ss_xy x scores / ss_xx x)%Q).
  set (slope' := (ss_xy x (map Qopp scores) / ss_xx x)%Q).
  assert (Hs : (slope' == - slope)%Q).
  { unfold slope', slope. rewrite ss_xy_opp. unfold Qdiv. ring. }
  pose proof (ss_res_opp x scores slope slope' Hs) as Hr.
  assert (Hse : std_error (length scores)
                  (ss_res x (map Qopp scores) slope') (ss_xx x)
                = std_error (length scores) (ss_res x scores slope)
                    (ss_xx x)).
  { unfold std_error. destruct Qlt_le_dec; [| reflexivity].
    do 2 f_equal. apply Qeq_eqR. now rewrite Hr. }
  rewrite Hse. unfold t_statistic.
  destruct Rlt_dec as [Hpos | _]; [| reflexivity].
  unfold pseudo_p_value. rewrite (Qeq_eqR _ _ Hs), Q2R_opp.
  replace (- Q2R slope / std_error (length scores)
                           (ss_res x scores slope) (ss_xx x))
    with (- (Q2R slope / std_error (length scores)
                           (ss_res x scores slope) (ss_xx x)))
    by (field; lra).
  now rewrite Rabs_Ropp.
Qed.

Lemma compute_trend_short (scores : list Q) :
  (length scores < 3)%nat -> compute_trend scores = _neutral.
Proof.
  intros H. unfold compute_trend.
  destruct (Nat.ltb_spec (length scores) 3); [reflexivity | lia].
Qed.

(** The verdicts of [compute_trend].  Fewer than 3 points give the neutral
    result (STABLE, slope 0.0, p-value 1.0); from 3 points on the guard on
    the spread of the positions never fires and the reported slope is the
    least-squares slope rounded to 3 decimals.  A series is WORSENING only
    with a slope above 0.3 and a pseudo p-value below 0.1, and then reports
    a slope of at least 0.3 and a p-value of at most 0.1; IMPROVING
    likewise with -0.3.  The pseudo p-value and the reported one lie in
    [[0, 1]].  Mirroring the series about zero negates the reported slope,
    keeps the p-value and swaps WORSENING with IMPROVING. *)
Theorem compute_trend_dual_threshold (scores : list Q) :
  let r := compute_trend scores in
  let mirrored := compute_trend (map Qopp scores) in
  0 <= p_value_of scores <= 1
  /\ (0 <= p_value r <= 1)%Q
  /\ ((length scores < 3)%nat -> r = _neutral)
  /\ ((3 <= length scores)%nat ->
      slope_per_day r = Py.round (raw_slope scores) 1000)
  /\ (trend r = WORSENING ->
      (3 <= length scores)%nat
      /\ (0.3 < raw_slope scores)%Q /\ p_value_of scores < 0.1
      /\ (0.3 <= slope_per_day r)%Q /\ (p_value r <= 0.1)%Q)
  /\ (trend r = IMPROVING ->
      (3 <= length scores)%nat
      /\ (raw_slope scores < -0.3)%Q /\ p_value_of scores < 0.1
      /\ (slope_per_day r <= -0.3)%Q /\ (p_value r <= 0.1)%Q)
  /\ slope_per_day mirrored = Qopp (slope_per_day r)
  /\ p_value mirrored = p_value r
  /\ (trend mirrored = WORSENING <-> trend r = IMPROVING)
  /\ (trend mirrored = IMPROVING <-> trend r = WORSENING).
Proof.
  intros r mirrored.
  assert (Hp : 0 <= p_value_of scores <= 1) by apply pseudo_p_value_range.
  split; [exact Hp |].
  destruct (Nat.ltb_spec (length scores) 3) as [Hlt | Hge].
  - assert (E : r = _neutral) by now apply compute_trend_short.
    assert (E' : mirrored = _neutral)
      by (apply compute_trend_short; now rewrite length_map).
    rewrite E, E'. cbn [trend slope_per_day p_value _neutral].
    repeat split; try discriminate; try reflexivity; intros; lia.
  - assert (Hr : (0 <= Py.roundR (p_value_of scores) 10000 <= 1)%Q).
    { destruct (roundR_bounds (p_value_of scores) 10000 1) as [H0 H1];
        [lra | lra |].
      split; apply Rle_Qle.
      - now rewrite Q2R_zero.
      - replace (Q2R 1) with 1 by (unfold Q2R; simpl; lra). exact H1. }
    assert (Hsmall : p_value_of scores < 0.1 ->
                     (Py.roundR (p_value_of scores) 10000 <= 0.1)%Q).
    { intros Hlt.
      apply Qle_trans with (Py.roundR 0.1 10000);
        [apply roundR_mono; lra |].
      unfold Py.roundR.
      replace (0.1 * IZR 10000) with (IZR 1000) by lra.
      rewrite round_half_evenR_IZR. discriminate. }
    assert (Hup : (0.3 < raw_slope scores)%Q ->
                  (0.3 <= Py.round (raw_slope scores) 1000)%Q).
    { intros Hs. apply Qle_trans with (Py.round 0.3 1000);
        [discriminate | apply round_mono; lra]. }
    assert (Hdown : (raw_slope scores < -0.3)%Q ->
                    (Py.round (raw_slope scores) 1000 <= -0.3)%Q).
    { intros Hs. apply Qle_trans with (Py.round (-0.3) 1000);
        [apply round_mono; lra | discriminate]. }
    pose proof (raw_slope_opp scores) as Ho.
    assert (Hlen' : (3 <= length (map Qopp scores))%nat)
      by now rewrite length_map.
    subst r mirrored.
    rewrite (compute_trend_long scores Hge).
    rewrite (compute_trend_long (map Qopp scores) Hlen').
    rewrite (p_value_of_opp scores).
    rewrite (round_proper _ _ 1000 Ho), round_opp.
    destruct (Qlt_le_dec 0.3 (raw_slope scores)) as [Hs | Hs];
      [destruct (Rlt_dec (p_value_of scores) 0.1) as [Hl | Hnl]
      | destruct (Qlt_le_dec (raw_slope scores) (-0.3)) as [Hs' | Hs'];
        [destruct (Rlt_dec (p_value_of scores) 0.1) as [Hl | Hnl] |]];
      (destruct (Qlt_le_dec 0.3 (raw_slope (map Qopp scores))) as [Hm | Hm];
       [try (exfalso; lra)
       | destruct (Qlt_le_dec (raw_slope (map Qopp scores)) (-0.3))
           as [Hm' | Hm']; [try (exfalso; lra) |]]);
      cbn [trend slope_per_day p_value];
      repeat split; try discriminate; try reflexivity; try exact Hge;
      try assumption; try (apply Hr); try (intros; discriminate);
      try (intros; lia); try (exfalso; lra); auto.
Qed.

End TrendClassification.

(** ** [trend_slope_7day]: the window and exactly linear data *)

Section TrendSlopeWindow.
Import TemperatureFeatures.
Local Open Scope Q_scope.

Lemma last7_app {A : Type} (pre temps : list A) :
  length temps = 7%nat -> last7 (pre ++ temps) = temps.
Proof.
  intros H. unfold last7. rewrite length_app, H.
  replace (length pre + 7 - 7)%nat with (length pre + 0)%nat by lia.
  rewrite skipn_app, Nat.add_0_r, skipn_all.
  replace (length pre - length pre)%nat with 0%nat by lia. reflexivity.
Qed.

Lemma last7_short {A : Type} (temps : list A) :
  (length temps <= 7)%nat -> last7 temps = temps.
Proof.
  intros H. unfold last7.
  replace (length temps - 7)%nat with 0%nat by lia. reflexivity.
Qed.

Lemma drop_nan_valid (l : list Q) : drop_nan (map Some l) = l.
Proof. induction l as [| y l IH]; simpl; [| rewrite IH]; reflexivity. Qed.

Lemma drop_nan_length (l : list Float) :
  (length (drop_nan l) <= length l)%nat.
Proof.
  induction l as [| [y |] l IH]; simpl; lia.
Qed.

(** Only the last seven entries matter: whatever comes before them changes
    nothing.  NaN entries among them are dropped and the gaps closed up: the
    slope is the one of the valid values taken as consecutive days, and it
    is 0.0 when fewer than three are valid.  On at most seven valid values
    that lie exactly on a line [a + b i] the slope is [b]. *)
Theorem trend_slope_7day_window :
  (forall pre temps : list Float,
      length temps = 7%nat ->
      trend_slope_7day (pre ++ temps) = trend_slope_7day temps)
  /\ (forall temps : list Float,
        (length temps <= 7)%nat ->
        trend_slope_7day temps
        = trend_slope_7day (map Some (drop_nan temps)))
  /\ (forall temps : list Float,
        (length (drop_nan (last7 temps)) < 3)%nat ->
        trend_slope_7day temps = 0.0)
  /\ (forall (a b : Q) (n : nat),
        (3 <= n <= 7)%nat ->
        trend_slope_7day
          (map Some (map (fun xi => a + b * xi) (arange n))) == b).
Proof.
  split; [| split; [| split]].
  - intros pre temps H. unfold trend_slope_7day.
    rewrite (last7_app pre temps H), (last7_short temps) by lia.
    reflexivity.
  - intros temps H. unfold trend_slope_7day.
    pose proof (drop_nan_length temps) as Hd.
    rewrite !last7_short by (rewrite ?length_map; lia).
    now rewrite drop_nan_valid.
  - intros temps H. unfold trend_slope_7day.
    destruct (Nat.ltb_spec (length (drop_nan (last7 temps))) 3);
      [reflexivity | lia].
  - intros a b n Hn. unfold trend_slope_7day.
    assert (Hlen : length (map (fun xi => a + b * xi) (arange n)) = n)
      by now rewrite length_map, length_arange.
    rewrite last7_short by (rewrite length_map, Hlen; lia).
    rewrite drop_nan_valid, Hlen.
    destruct (Nat.ltb_spec n 3); [lia |].
    pose proof (ss_xx_arange_positive n ltac:(lia)) as Hxx.
    destruct (Qeq_bool (ss_xx (arange n)) 0) eqn:E.
    + apply Qeq_bool_iff in E. lra.
    + apply slope_on_line; [| exact Hxx].
      intros E0. pose proof (length_arange n) as L. rewrite E0 in L.
      simpl in L. lia.
Qed.

End TrendSlopeWindow.

(** ** Theil-Sen on exactly linear data *)

Section TheilSenOnALine.
Import TrendAnalysis.
Local Open Scope Q_scope.

Lemma insert_sorted_length (v : Q) (l : list Q) :
  length (insert_sorted v l) = S (length l).
Proof.
  induction l as [| y l IH]; simpl; [reflexivity |].
  destruct (Qle_bool v y); simpl; [| rewrite IH]; reflexivity.
Qed.

Lemma sort_length (l : list Q) : length (sort l) = length l.
Proof.
  induction l as [| y l IH]; simpl; [reflexivity |].
  unfold sort in *. simpl. now rewrite insert_sorted_length, IH.
Qed.

Lemma insert_sorted_Forall (P : Q -> Prop) (v : Q) (l : list Q) :
  P v -> Forall P l -> Forall P (insert_sorted v l).
Proof.
  intros Hv Hl. induction Hl as [| y l Hy Hl IH]; simpl.
  - now constructor.
  - destruct (Qle_bool v y); repeat constructor; assumption.
Qed.

Lemma sort_Forall (P : Q -> Prop) (l : list Q) :
  Forall P l -> Forall P (sort l).
Proof.
  induction 1 as [| y l Hy Hl IH]; [constructor |].
  unfold sort in *. simpl. now apply insert_sorted_Forall.
Qed.

Lemma Forall_nth_eq (c : Q) (l : list Q) (k : nat) :
  Forall (fun v => v == c) l -> (k < length l)%nat -> nth k l 0 == c.
Proof.
  intros H Hk. rewrite Forall_forall in H. apply H, nth_In, Hk.
Qed.

(** The median of values that are all equal to [c] is [c]. *)
Lemma median_constant (c : Q) (l : list Q) :
  l <> [] -> Forall (fun v => v == c) l -> median l == c.
Proof.
  intros Hne Hall. unfold median.
  pose proof (sort_Forall _ l Hall) as Hs.
  pose proof (sort_length l) as Hlen.
  assert (Hpos : (0 < length (sort l))%nat)
    by (rewrite Hlen; destruct l; [contradiction | simpl; lia]).
  set (n := length (sort l)) in *.
  assert (Hhalf : (n / 2 < n)%nat) by (apply Nat.div_lt; lia).
  destruct (Nat.even n).
  - rewrite !(Forall_nth_eq c) by (assumption || lia). field.
  - now apply Forall_nth_eq.
Qed.

Lemma flat_map_singletons {A B : Type} (f : A -> list B) (l : list A) :
  (forall v, In v l -> length (f v) = 1%nat) ->
  length (flat_map f l) = length l.
Proof.
  induction l as [| v l IH]; intros H; [reflexivity |].
  simpl. rewrite length_app, (H v (or_introl eq_refl)).
  rewrite IH by (intros w Hw; apply H; now right). reflexivity.
Qed.

Lemma pairwise_slopes_length (x : list Q) :
  length (pairwise_slopes x) = length (combinations2 (length x)).
Proof.
  unfold pairwise_slopes. apply flat_map_singletons.
  intros [i j] Hin. apply in_combinations2 in Hin. cbn [fst snd].
  destruct (Z.eqb_spec (Z.of_nat j - Z.of_nat i) 0); [lia | reflexivity].
Qed.

Lemma pairwise_slopes_Forall (P : Q -> Prop) (x : list Q) :
  (forall i j, (i < j < length x)%nat ->
     P ((nth j x 0 - nth i x 0) / inject_Z (Z.of_nat j - Z.of_nat i))) ->
  Forall P (pairwise_slopes x).
Proof.
  intros H. unfold pairwise_slopes. apply Forall_flat_map.
  apply Forall_forall. intros [i j] Hin. apply in_combinations2 in Hin.
  cbn [fst snd].
  destruct (Z.eqb_spec (Z.of_nat j - Z.of_nat i) 0); [constructor |].
  constructor; [now apply H | constructor].
Qed.

(** Whatever the series of [n >= 2] values, the estimator takes the median
    over all [n (n - 1) / 2] pairwise slopes. *)
Lemma sens_slope_long (data : list Q) :
  (2 <= length data)%nat ->
  sens_slope data
  = Returned
      {| slope := Py.round (median (pairwise_slopes data)) 1000000;
         intercept :=
           Py.round
             (median
                (map (fun i =>
                        nth i data 0
                        - median (pairwise_slopes data)
                          * inject_Z (Z.of_nat i))
                     (seq 0 (length data)))) 10000;
         n_slopes := length (combinations2 (length data)) |}.
Proof.
  intros H. unfold sens_slope.
  destruct (Nat.ltb_spec (length data) 2); [lia |].
  pose proof (pairwise_slopes_length data) as Hl.
  pose proof (length_combinations2 (length data)) as Hc.
  destruct (pairwise_slopes data) as [| s0 rest] eqn:E.
  - simpl in Hl. rewrite <- Hl in Hc. simpl in Hc. nia.
  - now rewrite Hl.
Qed.

(** On a series of [n >= 2] values that lie exactly on a line [a + b i]
    [sens_slope] returns the slope [b] rounded to 6 decimals, the intercept
    [a] rounded to 4 decimals, and counts [n (n - 1) / 2] pairwise slopes. *)
Theorem sens_slope_on_a_line (a b : Q) (n : nat) :
  (2 <= n)%nat ->
  let data :=
    map (fun i => a + b * inject_Z (Z.of_nat i)) (seq 0 n) in
  sens_slope data
  = Returned {| slope := Py.round b 1000000;
                intercept := Py.round a 10000;
                n_slopes := length (combinations2 n) |}
  /\ (2 * length (combinations2 n) = n * (n - 1))%nat.
Proof.
  intros Hn data.
  assert (Hlen : length data = n)
    by (unfold data; now rewrite length_map, length_seq).
  assert (Hnth : forall i, (i < n)%nat ->
                   nth i data 0 = a + b * inject_Z (Z.of_nat i)).
  { intros i Hi. unfold data.
    rewrite (nth_indep _ 0 (a + b * inject_Z (Z.of_nat 0)))
      by (rewrite length_map, length_seq; exact Hi).
    rewrite (map_nth (fun k => a + b * inject_Z (Z.of_nat k))).
    now rewrite seq_nth. }
  assert (Hslopes : Forall (fun v => v == b) (pairwise_slopes data)).
  { apply pairwise_slopes_Forall. intros i j Hij. rewrite Hlen in Hij.
    rewrite !Hnth by lia. unfold Z.sub.
    rewrite inject_Z_plus, inject_Z_opp.
    assert (Hd : inject_Z (Z.of_nat i) < inject_Z (Z.of_nat j))
      by (rewrite <- Zlt_Qlt; lia).
    field. lra. }
  assert (Hne : pairwise_slopes data <> []).
  { intros E. pose proof (pairwise_slopes_length data) as Hl.
    pose proof (length_combinations2 (length data)) as Hc.
    rewrite E, Hlen in *. simpl in Hl. rewrite <- Hl in Hc. simpl in Hc.
    nia. }
  pose proof (median_constant b _ Hne Hslopes) as Hmed.
  split; [| apply length_combinations2].
  rewrite (sens_slope_long data) by lia. rewrite Hlen.
  f_equal. f_equal.
  - now apply round_proper.
  - apply round_proper. apply median_constant.
    + intros E. apply (f_equal (@length Q)) in E.
      rewrite length_map, length_seq in E. simpl in E. lia.
    + apply Forall_forall. intros v Hv. apply in_map_iff in Hv.
      destruct Hv as [i [<- Hi]]. apply in_seq in Hi.
      rewrite Hnth by lia. rewrite Hmed. ring.
Qed.

Lemma sens_slope_on_a_line_witness :
  (2 <= 5)%nat
  /\ sens_slope (map (fun i => 1 + 1 * inject_Z (Z.of_nat i)) (seq 0 5))
     = Returned {| slope := Py.round 1 1000000;
                   intercept := Py.round 1 10000;
                   n_slopes := length (combinations2 5) |}.
Proof.
  assert (H : (2 <= 5)%nat) by lia.
  split; [exact H | exact (proj1 (sens_slope_on_a_line 1 1 5 H))].
Defined.

End TheilSenOnALine.

(** ** Mann-Kendall: bounds, symmetry, decreasing and constant series *)

Section MannKendallGeneral.
Import TrendAnalysis.

Lemma sign_sum_bounds (x : list Q) (pairs : list (nat * nat)) :
  forall s0,
    let s :=
      fold_left
        (fun s ij =>
           let diff := (nth (snd ij) x 0 - nth (fst ij) x 0)%Q in
           if Qlt_le_dec 0 diff then (s + 1)%Z
           else if Qlt_le_dec diff 0 then (s - 1)%Z
           else s)
        pairs s0 in
    (s0 - Z.of_nat (length pairs) <= s <= s0 + Z.of_nat (length pairs))%Z.
Proof.
  induction pairs as [| ij pairs IH]; intros s0; cbn zeta.
  - simpl. lia.
  - cbn [fold_left length].
    destruct Qlt_le_dec; [| destruct Qlt_le_dec].
    + specialize (IH (s0 + 1)%Z). cbn zeta in IH. lia.
    + specialize (IH (s0 - 1)%Z). cbn zeta in IH. lia.
    + specialize (IH s0). cbn zeta in IH. lia.
Qed.

Lemma sign_sum_all_negative (x : list Q) (pairs : list (nat * nat)) :
  (forall ij, In ij pairs -> (nth (snd ij) x 0 < nth (fst ij) x 0)%Q) ->
  forall s0,
    fold_left
      (fun s ij =>
         let diff := (nth (snd ij) x 0 - nth (fst ij) x 0)%Q in
         if Qlt_le_dec 0 diff then (s + 1)%Z
         else if Qlt_le_dec diff 0 then (s - 1)%Z
         else s)
      pairs s0
    = (s0 - Z.of_nat (length pairs))%Z.
Proof.
  induction pairs as [| ij pairs IH]; intros Hall s0.
  - simpl. lia.
  - cbn [fold_left length]. rewrite IH by (intros; apply Hall; now right).
    assert (Hlt := Hall ij (or_introl eq_refl)).
    destruct Qlt_le_dec; [lra |]. destruct Qlt_le_dec; [lia | lra].
Qed.

Lemma sign_sum_all_equal (x : list Q) (pairs : list (nat * nat)) :
  (forall ij, In ij pairs -> (nth (snd ij) x 0 == nth (fst ij) x 0)%Q) ->
  forall s0,
    fold_left
      (fun s ij =>
         let diff := (nth (snd ij) x 0 - nth (fst ij) x 0)%Q in
         if Qlt_le_dec 0 diff then (s + 1)%Z
         else if Qlt_le_dec diff 0 then (s - 1)%Z
         else s)
      pairs s0
    = s0.
Proof.
  induction pairs as [| ij pairs IH]; intros Hall s0; [reflexivity |].
  cbn [fold_left]. rewrite IH by (intros; apply Hall; now right).
  assert (Heq := Hall ij (or_introl eq_refl)).
  destruct Qlt_le_dec; [lra |]. destruct Qlt_le_dec; [lra | reflexivity].
Qed.

Lemma nth_map_opp (x : list Q) (i : nat) :
  nth i (map Qopp x) 0%Q = Qopp (nth i x 0%Q).
Proof. exact (map_nth Qopp x 0%Q i). Qed.

Lemma sign_sum_opp (x : list Q) (pairs : list (nat * nat)) :
  forall s0,
    fold_left
      (fun s ij =>
         let diff :=
           (nth (snd ij) (map Qopp x) 0 - nth (fst ij) (map Qopp x) 0)%Q in
         if Qlt_le_dec 0 diff then (s + 1)%Z
         else if Qlt_le_dec diff 0 then (s - 1)%Z
         else s)
      pairs s0
    = (- fold_left
          (fun s ij =>
             let diff := (nth (snd ij) x 0 - nth (fst ij) x 0)%Q in
             if Qlt_le_dec 0 diff then (s + 1)%Z
             else if Qlt_le_dec diff 0 then (s - 1)%Z
             else s)
          pairs (- s0))%Z.
Proof.
  induction pairs as [| ij pairs IH]; intros s0.
  - simpl. lia.
  - cbn [fold_left]. rewrite IH.
    rewrite !nth_map_opp.
    repeat destruct Qlt_le_dec; try lra; do 2 f_equal; lia.
Qed.

(** Whatever the series, [|S|] is at most the number [n (n - 1) / 2] of
    pairs, and negating every value negates [S]. *)
Theorem s_statistic_bounded_and_odd (x : list Q) :
  let n := Z.of_nat (length x) in
  (- (n * (n - 1)) <= 2 * s_statistic x <= n * (n - 1))%Z
  /\ s_statistic (map Qopp x) = (- s_statistic x)%Z.
Proof.
  intros n. split.
  - pose proof (sign_sum_bounds x (combinations2 (length x)) 0%Z) as H.
    cbn zeta in H. fold (s_statistic x) in H.
    pose proof (length_combinations2 (length x)) as Hc. unfold n. nia.
  - unfold s_statistic. rewrite length_map, sign_sum_opp. reflexivity.
Qed.

Lemma decreasing_nth (x : list Q) :
  Sorted (fun a b : Q => b < a)%Q x ->
  forall i j, (i < j < length x)%nat -> (nth j x 0 < nth i x 0)%Q.
Proof.
  intros H. apply Sorted_StronglySorted in H;
    [| intros a b c Hab Hbc; now apply Qlt_trans with b].
  induction H as [| a l Hs IH Hall]; intros i j Hij; simpl in Hij; [lia |].
  destruct j as [| j]; [lia |]. destruct i as [| i]; simpl.
  - rewrite Forall_forall in Hall. apply Hall, nth_In. lia.
  - apply IH. lia.
Qed.

Lemma insert_sorted_last (a : Q) (l : list Q) :
  Forall (fun y => y < a)%Q l -> insert_sorted a l = l ++ [a].
Proof.
  induction 1 as [| y l Hy Hl IH]; [reflexivity |].
  simpl. destruct (Qle_bool a y) eqn:E.
  - apply Qle_bool_iff in E. lra.
  - now rewrite IH.
Qed.

Lemma sorted_snoc (a : Q) (l : list Q) :
  Sorted Qlt l -> Forall (fun y => y < a)%Q l -> Sorted Qlt (l ++ [a]).
Proof.
  induction 1 as [| y l Hs IH Hd]; intros Hall; simpl.
  - repeat constructor.
  - apply Forall_cons_iff in Hall. destruct Hall as [Hy Hall].
    constructor; [now apply IH |].
    destruct Hd as [| z l' Hyz]; simpl; now constructor.
Qed.

(** Sorting a strictly decreasing series reverses it. *)
Lemma sort_decreasing (x : list Q) :
  Sorted (fun a b : Q => b < a)%Q x ->
  sort x = rev x /\ Sorted Qlt (rev x).
Proof.
  intros H. apply Sorted_StronglySorted in H;
    [| intros a b c Hab Hbc; now apply Qlt_trans with b].
  induction H as [| a l Hs [IH1 IH2] Hall]; [split; constructor |].
  assert (Hrev : Forall (fun y => y < a)%Q (rev l)) by now apply Forall_rev.
  split.
  - unfold sort in *. simpl. rewrite IH1. now apply insert_sorted_last.
  - simpl. now apply sorted_snoc.
Qed.

Lemma tie_correction_distinct (x : list Q) :
  Sorted Qlt (sort x) -> tie_correction x = 0%Z.
Proof.
  intros Hs. unfold tie_correction, unique_counts.
  assert (Hall : Forall (fun vt : Q * Z => snd vt = 1%Z)
                   (match sort x with
                    | [] => []
                    | v :: l => count_runs v 1 l
                    end)).
  { destruct (sort x); [constructor | now apply count_runs_increasing]. }
  induction Hall as [| vt l Hvt _ IH]; [reflexivity |].
  simpl. now rewrite Hvt.
Qed.

(** The mirror image of the increasing case: on a strictly decreasing
    series of length [n >= 3] every pairwise difference has sign [-1], so
    [S = - n (n - 1) / 2]; there are no ties; the score is the
    continuity-corrected [(S + 1) / sqrt var]; and the reported trend is
    ["decreasing"] as soon as the p-value is at most 0.05. *)
Theorem mann_kendall_strictly_decreasing (norm_cdf : R -> R) (x : list Q) :
  Sorted (fun a b : Q => b < a)%Q x -> (3 <= length x)%nat ->
  let n := Z.of_nat (length x) in
  let r := mann_kendall_test norm_cdf x in
  (2 * mk_S r = - (n * (n - 1)))%Z
  /\ tie_correction x = 0%Z
  /\ (variance_S x == inject_Z (n * (n - 1) * (2 * n + 5)) / 18)%Q
  /\ p_value_of norm_cdf x
     = (2 * (1 - norm_cdf
                   (Rabs (IZR (mk_S r + 1)
                          / sqrt (Q2R (variance_S x))))))%R
  /\ ((p_value_of norm_cdf x <= 0.05)%R ->
      mk_trend r = decreasing /\ mk_significant r = true)
  /\ (~ (p_value_of norm_cdf x <= 0.05)%R ->
      mk_trend r = no_trend /\ mk_significant r = false).
Proof.
  intros Hs Hlen n r.
  assert (Hn : (3 <= n)%Z) by (unfold n; lia).
  assert (H2S : (2 * s_statistic x = - (n * (n - 1)))%Z).
  { unfold s_statistic. rewrite sign_sum_all_negative.
    - pose proof (length_combinations2 (length x)). unfold n. nia.
    - intros [i j] Hin. apply in_combinations2 in Hin.
      now apply decreasing_nth. }
  assert (Hneg : (s_statistic x < 0)%Z) by nia.
  destruct (sort_decreasing x Hs) as [Hsort Hrev].
  assert (Htie : tie_correction x = 0%Z)
    by (apply tie_correction_distinct; now rewrite Hsort).
  assert (Hv : (variance_S x == inject_Z (n * (n - 1) * (2 * n + 5)) / 18)%Q).
  { unfold variance_S. rewrite Htie. fold n. now rewrite Z.sub_0_r. }
  assert (Hr : r = mann_kendall_test norm_cdf x) by reflexivity.
  unfold mann_kendall_test in Hr.
  destruct (Nat.ltb_spec (length x) 3) as [Hlt | _]; [lia |].
  assert (Hpos : (0 <? s_statistic x)%Z = false) by (apply Z.ltb_ge; lia).
  apply Z.ltb_lt in Hneg.
  assert (Hvar : Qeq_bool (variance_S x) 0 = false).
  { destruct (Qeq_bool (variance_S x) 0) eqn:E; [| reflexivity].
    apply Qeq_bool_iff in E. rewrite Hv in E.
    assert (Hprod : (0 < n * (n - 1) * (2 * n + 5))%Z)
      by (repeat apply Z.mul_pos_pos; lia).
    revert E. generalize (n * (n - 1) * (2 * n + 5))%Z Hprod.
    intros m Hm E. unfold Qeq in E. simpl in E. lia. }
  assert (HS : mk_S r = s_statistic x) by now rewrite Hr.
  assert (Hp : p_value_of norm_cdf x
               = p_of norm_cdf (IZR (mk_S r + 1)
                                / sqrt (Q2R (variance_S x)))%R).
  { unfold p_value_of, z_of. now rewrite Hvar, Hpos, Hneg, HS. }
  repeat split.
  - now rewrite HS.
  - exact Htie.
  - exact Hv.
  - exact Hp.
  - rewrite Hr. cbn [mk_trend]. fold (p_value_of norm_cdf x).
    destruct Rle_dec; [now rewrite Hpos | contradiction].
  - rewrite Hr. cbn [mk_significant]. fold (p_value_of norm_cdf x).
    destruct Rle_dec; [reflexivity | contradiction].
  - rewrite Hr. cbn [mk_trend]. fold (p_value_of norm_cdf x).
    destruct Rle_dec; [contradiction | reflexivity].
  - rewrite Hr. cbn [mk_significant]. fold (p_value_of norm_cdf x).
    destruct Rle_dec; [contradiction | reflexivity].
Qed.

Lemma mann_kendall_strictly_decreasing_witness :
  Sorted (fun a b : Q => b < a)%Q [5; 4; 3; 2; 1]%Q
  /\ (3 <= length [5; 4; 3; 2; 1]%Q)%nat
  /\ (2 * mk_S (mann_kendall_test Samples.logistic_cdf [5; 4; 3; 2; 1]%Q)
      = - (5 * (5 - 1)))%Z.
Proof.
  assert (Hs : Sorted (fun a b : Q => b < a)%Q [5; 4; 3; 2; 1]%Q)
    by (repeat constructor; reflexivity).
  assert (Hl : (3 <= length [5; 4; 3; 2; 1]%Q)%nat) by (simpl; lia).
  split; [exact Hs | split; [exact Hl |]].
  exact (proj1 (mann_kendall_strictly_decreasing
                  Samples.logistic_cdf [5; 4; 3; 2; 1]%Q Hs Hl)).
Defined.

Lemma sort_repeat (c : Q) (n : nat) : sort (repeat c n) = repeat c n.
Proof.
  induction n as [| n IH]; [reflexivity |].
  unfold sort in *. simpl. rewrite IH.
  destruct n as [| n]; [reflexivity |]. simpl.
  assert (E : Qle_bool c c = true) by (apply Qle_bool_iff; lra).
  now rewrite E.
Qed.

Lemma count_runs_repeat (c : Q) (m : nat) :
  forall k, count_runs c k (repeat c m) = [(c, (k + Z.of_nat m)%Z)].
Proof.
  induction m as [| m IH]; intros k.
  - simpl. now rewrite Z.add_0_r.
  - cbn [repeat count_runs].
    assert (E : Qeq_bool c c = true) by (apply Qeq_bool_iff; reflexivity).
    rewrite E, IH. do 2 f_equal. lia.
Qed.

Lemma tie_correction_repeat (c : Q) (n : nat) :
  (2 <= n)%nat ->
  tie_correction (repeat c n)
  = (Z.of_nat n * (Z.of_nat n - 1) * (2 * Z.of_nat n + 5))%Z.
Proof.
  intros Hn. unfold tie_correction, unique_counts. rewrite sort_repeat.
  destruct n as [| m]; [lia |]. cbn [repeat].
  rewrite count_runs_repeat. cbn [fold_left snd].
  destruct (Z.ltb_spec 1 (1 + Z.of_nat m)); [| lia].
  replace (1 + Z.of_nat m)%Z with (Z.of_nat (S m)) by lia. lia.
Qed.

(** A constant series of at least three values has [S = 0] and, all values
    being tied, variance exactly 0, so the score is 0 by the guard on the
    variance; with a distribution function that is 1/2 at 0 the p-value is
    1 and the result is ["no trend"]. *)
Theorem mann_kendall_constant_series
  (norm_cdf : R -> R) (c : Q) (n : nat) :
  (3 <= n)%nat -> norm_cdf 0%R = (1 / 2)%R ->
  let r := mann_kendall_test norm_cdf (repeat c n) in
  mk_S r = 0%Z
  /\ (variance_S (repeat c n) == 0)%Q
  /\ (mk_var_S r == 0)%Q
  /\ (mk_z_score r == 0)%Q
  /\ (mk_p_value r == 1)%Q
  /\ mk_trend r = no_trend
  /\ mk_significant r = false.
Proof.
  intros Hn Hhalf r.
  assert (HS : s_statistic (repeat c n) = 0%Z).
  { unfold s_statistic. apply sign_sum_all_equal.
    intros [i j] Hin. apply in_combinations2 in Hin.
    rewrite repeat_length in Hin. cbn [fst snd].
    rewrite (repeat_spec n c (nth j (repeat c n) 0%Q))
      by (apply nth_In; rewrite repeat_length; lia).
    rewrite (repeat_spec n c (nth i (repeat c n) 0%Q))
      by (apply nth_In; rewrite repeat_length; lia).
    reflexivity. }
  assert (Hv : (variance_S (repeat c n) == 0)%Q).
  { unfold variance_S. rewrite tie_correction_repeat by lia.
    rewrite repeat_length, Z.sub_diag. reflexivity. }
  assert (Hvb : Qeq_bool (variance_S (repeat c n)) 0 = true)
    by now apply Qeq_bool_iff.
  assert (Hr : r = mann_kendall_test norm_cdf (repeat c n)) by reflexivity.
  unfold mann_kendall_test in Hr. rewrite repeat_length in Hr.
  destruct (Nat.ltb_spec n 3) as [Hlt | _]; [lia |].
  unfold z_of in Hr. rewrite Hvb in Hr.
  assert (Hp : p_of norm_cdf 0%R = 1%R)
    by (unfold p_of; rewrite Rabs_R0, Hhalf; lra).
  rewrite Hp in Hr.
  destruct (Rle_dec 1 0.05) as [Hle | _]; [lra |].
  rewrite Hr. cbn [mk_S mk_var_S mk_z_score mk_p_value mk_trend
                     mk_significant].
  repeat split.
  - exact HS.
  - exact Hv.
  - rewrite (round_proper _ 0%Q 10000 Hv). reflexivity.
  - unfold Py.roundR. rewrite Rmult_0_l, (round_half_evenR_IZR 0).
    reflexivity.
  - apply roundR_one.
Qed.

Lemma mann_kendall_constant_series_witness :
  (3 <= 4)%nat /\ Samples.logistic_cdf 0%R = (1 / 2)%R
  /\ mk_S (mann_kendall_test Samples.logistic_cdf (repeat 7%Q 4)) = 0%Z.
Proof.
  assert (Hn : (3 <= 4)%nat) by lia.
  assert (Hh : Samples.logistic_cdf 0%R = (1 / 2)%R).
  { unfold Samples.logistic_cdf. rewrite Rmult_0_r, exp_0. lra. }
  split; [exact Hn | split; [exact Hh |]].
  exact (proj1 (mann_kendall_constant_series
                  Samples.logistic_cdf 7%Q 4 Hn Hh)).
Defined.

End MannKendallGeneral.

(** ** The projected scores, their confidence bands and the alerts *)

Section ForecastScores.
Import ForecastEngine.
Local Open Scope Q_scope.

Lemma project_day_range t_max t_min p_sum w_max cr (acc : list Q) (i : nat) :
  Forall (fun s => 0 <= s <= 100) acc ->
  Forall (fun s => 0 <= s <= 100)
    (project_day t_max t_min p_sum w_max cr acc i).
Proof.
  intros H. unfold project_day. apply Forall_app. split; [exact H |].
  constructor; [| constructor].
  apply (round_bounds _ 10 100).
  - apply clip_bounds. discriminate.
  - apply clip_bounds. discriminate.
Qed.

Lemma project_days_range t_max t_min p_sum w_max cr (days : list nat) :
  forall acc,
    Forall (fun s => 0 <= s <= 100) acc ->
    Forall (fun s => 0 <= s <= 100)
      (fold_left (project_day t_max t_min p_sum w_max cr) days acc).
Proof.
  induction days as [| i days IH]; intros acc H; simpl; [exact H |].
  apply IH. now apply project_day_range.
Qed.

Lemma last_Forall (P : Q -> Prop) (l : list Q) (d : Q) :
  l <> [] -> Forall P l -> P (last l d).
Proof.
  intros Hne H. rewrite Forall_forall in H. apply H.
  destruct (exists_last Hne) as [l' [a ->]]. rewrite last_last.
  apply in_or_app. right. now left.
Qed.

Lemma pad_scores_Forall (P : Q -> Prop) (missing : nat) (cr : Q) :
  forall scores,
    (scores <> [] \/ P cr) -> Forall P scores ->
    Forall P (pad_scores missing scores cr).
Proof.
  induction missing as [| m IH]; intros scores Hne H; simpl; [exact H |].
  apply IH.
  - left. destruct scores; discriminate.
  - apply Forall_app. split; [exact H |]. constructor; [| constructor].
    destruct scores as [| s0 rest];
      [| apply last_Forall; [discriminate | exact H]].
    destruct Hne as [Hne | Hcr]; [contradiction | exact Hcr].
Qed.

Lemma pad_scores_repeat (cr : Q) (missing : nat) :
  forall k, pad_scores missing (repeat cr k) cr = repeat cr (k + missing).
Proof.
  induction missing as [| m IH]; intros k; simpl.
  - now rewrite Nat.add_0_r.
  - assert (E : last (repeat cr k) cr = cr).
    { induction k as [| k IHk]; [reflexivity |].
      simpl. destruct (repeat cr k) eqn:Ek; [reflexivity | exact IHk]. }
    rewrite E, <- repeat_cons.
    change (cr :: repeat cr k) with (repeat cr (S k)).
    rewrite IH. f_equal. lia.
Qed.

Lemma firstn_Forall {A : Type} (P : A -> Prop) (n : nat) (l : list A) :
  Forall P l -> Forall P (firstn n l).
Proof.
  intros H. revert n.
  induction H as [| y l Hy Hl IH]; intros [| n]; simpl; constructor;
    [exact Hy | apply IH].
Qed.

(** The length of the sliced weather arrays, and with it the number of
    projected days. *)
Lemma forecast_projected_days
    (raw : option Daily) (d : Q) (l : list (option Q)) :
  let len := length (time (daily_of raw)) in
  length
    (_safe_slice l
       (if (7 <? len)%nat then SliceLast (Nat.min 7 len)
        else SliceFirst (Nat.min 7 len))
       (Nat.min 7 len) d)
  = Nat.min 7 len.
Proof.
  intros len. apply safe_slice_length, forecast_slice_width.
Qed.

(** The seven scores of a forecast lie in [0, 100] as soon as there is one
    raw day or the current score lies in [0, 100]. *)
Lemma forecast_scores_range
    (fallback : nat -> string) (raw : option Daily) (cr : Q) :
  (time (daily_of raw) <> [] \/ 0 <= cr <= 100) ->
  Forall (fun s => 0 <= s <= 100)
    (risk_scores (build_7day_forecast fallback raw cr)).
Proof.
  intros H. unfold build_7day_forecast. cbn [risk_scores].
  apply firstn_Forall.
  set (t_max := _safe_slice (temperature_2m_max (daily_of raw)) _ _ _).
  assert (Ht : length t_max
               = Nat.min 7 (length (time (daily_of raw))))
    by apply forecast_projected_days.
  set (proj := fold_left _ (seq 0 (Nat.min 7 (length t_max))) []).
  assert (Hp : Forall (fun s => 0 <= s <= 100) proj)
    by (apply project_days_range; constructor).
  assert (Hl : length proj = Nat.min 7 (length t_max)).
  { unfold proj. rewrite project_days_length, length_seq. reflexivity. }
  apply pad_scores_Forall; [| exact Hp].
  destruct H as [Hne | Hcr]; [left | now right].
  intros E. rewrite E in Hl. simpl in Hl. rewrite Ht in Hl.
  destruct (time (daily_of raw)); [contradiction | simpl in Hl; lia].
Qed.

(** [build_7day_forecast] returns seven scores in [0, 100] whenever the
    payload holds at least one raw day or the current score lies in
    [0, 100]; without any raw day it returns the current score seven times,
    neither clipped nor rounded. *)
Theorem forecast_risk_scores_range
    (fallback : nat -> string) (raw : option Daily) (cr : Q) :
  let r := build_7day_forecast fallback raw cr in
  ((time (daily_of raw) <> [] \/ 0 <= cr <= 100) ->
   Forall (fun s => 0 <= s <= 100) (risk_scores r))
  /\ (time (daily_of raw) = [] -> risk_scores r = repeat cr 7).
Proof.
  intros r. split; [apply forecast_scores_range |].
  intros E. subst r. unfold build_7day_forecast. cbn [risk_scores].
  set (t_max := _safe_slice (temperature_2m_max (daily_of raw)) _ _ _).
  assert (Ht : length t_max
               = Nat.min 7 (length (time (daily_of raw))))
    by apply forecast_projected_days.
  rewrite E in Ht. simpl in Ht. rewrite Ht. simpl.
  exact (pad_scores_repeat cr 7 0).
Qed.

End ForecastScores.

Section ConfidenceBands.
Import ForecastEngine Uncertainty.
Local Open Scope Q_scope.

Lemma base_width_values (confidence : string) :
  5 <= base_width confidence <= 18.
Proof.
  unfold base_width.
  repeat match goal with
         | |- context [String.eqb ?a ?b] => destruct (String.eqb a b)
         end; split; discriminate.
Qed.

Lemma length_enumerate {A : Type} (l : list A) :
  length (Py.enumerate l) = length l.
Proof.
  unfold Py.enumerate. rewrite length_combine, length_seq. apply Nat.min_id.
Qed.

Lemma combine_seq_nth {A : Type} (l : list A) (d : A) :
  forall a i, (i < length l)%nat ->
    nth i (combine (seq a (length l)) l) (O, d) = ((a + i)%nat, nth i l d).
Proof.
  induction l as [| y l IH]; intros a i Hi; simpl in Hi; [lia |].
  cbn [length seq combine]. destruct i as [| i]; simpl.
  - now rewrite Nat.add_0_r.
  - rewrite IH by lia. f_equal. lia.
Qed.

Lemma nth_enumerate {A : Type} (l : list A) (d : A) (i : nat) :
  (i < length l)%nat -> nth i (Py.enumerate l) (O, d) = (i, nth i l d).
Proof. intros Hi. unfold Py.enumerate. now rewrite combine_seq_nth. Qed.

Lemma nth_map_enumerate {A : Type} (f : nat * A -> Q) (l : list A) (d : A)
    (i : nat) :
  (i < length l)%nat ->
  nth i (map f (Py.enumerate l)) 0 = f (i, nth i l d).
Proof.
  intros Hi.
  rewrite (nth_indep _ 0 (f (O, d)))
    by (rewrite length_map, length_enumerate; exact Hi).
  rewrite (map_nth f). now rewrite nth_enumerate.
Qed.

(** Both bands have one entry per score; every band value lies in
    [0, 100]; and around a score in [0, 100] the bands bracket the score
    rounded to one decimal. *)
Lemma bands_bracket (f : Forecast) (raw_confidence : option string) :
  let b := compute_confidence_bands f raw_confidence in
  length (upper_band b) = length (risk_scores f)
  /\ length (lower_band b) = length (risk_scores f)
  /\ forall i, (i < length (risk_scores f))%nat ->
       let s := nth i (risk_scores f) 0 in
       0 <= nth i (lower_band b) 0
       /\ (s <= 100 -> nth i (lower_band b) 0 <= 100)
       /\ nth i (upper_band b) 0 <= 100
       /\ (0 <= s -> 0 <= nth i (upper_band b) 0)
       /\ (0 <= s -> nth i (lower_band b) 0 <= Py.round s 10)
       /\ (s <= 100 -> Py.round s 10 <= nth i (upper_band b) 0).
Proof.
  intros b. subst b. unfold compute_confidence_bands.
  cbn [upper_band lower_band].
  rewrite !length_map, !length_enumerate.
  split; [reflexivity | split; [reflexivity |]].
  intros i Hi. cbn zeta.
  rewrite !(nth_map_enumerate _ _ 0 i Hi). cbn [fst snd].
  set (s := nth i (risk_scores f) 0).
  set (c := match raw_confidence with
            | Some c => c | None => "MEDIUM"%string end).
  pose proof (base_width_values c) as Hb.
  assert (Hi0 : 0 <= inject_Z (Z.of_nat i))
    by (rewrite <- (Zle_Qle 0); lia).
  set (w := base_width c + inject_Z (Z.of_nat i) * 2.5).
  assert (Hw : 5 <= w) by (unfold w; nra).
  clearbody w s.
  assert (H100 : Py.round 100 10 <= 100) by discriminate.
  assert (H0 : 0 <= Py.round 0 10) by discriminate.
  repeat split.
  - apply (Qle_trans _ _ _ H0). apply round_mono. apply Q.le_max_l.
  - intros Hs. apply Qle_trans with (Py.round 100 10); [| exact H100].
    apply round_mono. q_minmax; lra.
  - apply Qle_trans with (Py.round 100 10); [| exact H100].
    apply round_mono. apply Q.le_min_l.
  - intros Hs. apply (Qle_trans _ _ _ H0). apply round_mono.
    q_minmax; lra.
  - intros Hs. apply round_mono. q_minmax; lra.
  - intros Hs. apply round_mono. q_minmax; lra.
Qed.

(** The confidence bands have one entry per score, never leave [0, 100]
    upwards (upper band) or downwards (lower band), and bracket every score
    of [0, 100] rounded to one decimal; a missing confidence label counts as
    ["MEDIUM"] (width 10) and an unknown one gets width 12. *)
Theorem confidence_bands_bracket_scores
    (f : Forecast) (raw_confidence : option string) :
  let b := compute_confidence_bands f raw_confidence in
  length (upper_band b) = length (risk_scores f)
  /\ length (lower_band b) = length (risk_scores f)
  /\ (forall i, (i < length (risk_scores f))%nat ->
        let s := nth i (risk_scores f) 0 in
        0 <= nth i (lower_band b) 0
        /\ nth i (upper_band b) 0 <= 100
        /\ (0 <= s <= 100 ->
            nth i (lower_band b) 0 <= Py.round s 10
            /\ Py.round s 10 <= nth i (upper_band b) 0))
  /\ (raw_confidence = None -> band_confidence b = "MEDIUM"%string)
  /\ (forall c, c <> "HIGH"%string -> c <> "MEDIUM"%string ->
        c <> "LOW"%string -> base_width c = 12).
Proof.
  intros b. destruct (bands_bracket f raw_confidence) as [Hu [Hl Hi]].
  fold b in Hu, Hl, Hi.
  split; [exact Hu | split; [exact Hl | split; [| split]]].
  - intros i Hlt s. destruct (Hi i Hlt) as [H1 [_ [H3 [_ [H5 H6]]]]].
    fold s in H5, H6.
    split; [exact H1 | split; [exact H3 |]].
    intros [Hs0 Hs1]. split; [now apply H5 | now apply H6].
  - intros ->. reflexivity.
  - intros c H1 H2 H3. unfold base_width.
    apply String.eqb_neq in H1, H2, H3. now rewrite H1, H2, H3.
Qed.

(** On the forecast of a payload with at least one raw day, each of the
    seven pairs of bands brackets its score: the projected scores are
    already in [0, 100]. *)
Theorem forecast_bands_bracket
    (fallback : nat -> string) (raw : option Daily) (cr : Q)
    (raw_confidence : option string) :
  time (daily_of raw) <> [] ->
  let f := build_7day_forecast fallback raw cr in
  let b := compute_confidence_bands f raw_confidence in
  forall i, (i < length (risk_scores f))%nat ->
    0 <= nth i (lower_band b) 0
    /\ nth i (lower_band b) 0 <= Py.round (nth i (risk_scores f) 0) 10
    /\ Py.round (nth i (risk_scores f) 0) 10 <= nth i (upper_band b) 0
    /\ nth i (upper_band b) 0 <= 100.
Proof.
  intros Hne f b i Hi.
  pose proof (forecast_scores_range fallback raw cr (or_introl Hne)) as Hr.
  fold f in Hr. rewrite Forall_forall in Hr.
  assert (Hs : 0 <= nth i (risk_scores f) 0 <= 100)
    by (apply Hr, nth_In, Hi).
  destruct (bands_bracket f raw_confidence) as [_ [_ Hb]].
  destruct (Hb i Hi) as [H1 [_ [H3 [_ [H5 H6]]]]].
  fold b in H1, H3, H5, H6. cbn zeta in H5, H6.
  repeat split; [exact H1 | apply H5, Hs | apply H6, Hs | exact H3].
Qed.

Lemma forecast_bands_bracket_witness :
  time (daily_of (Some Samples.three_days)) <> []
  /\ nth 0
       (lower_band
          (compute_confidence_bands
             (build_7day_forecast Samples.july_dates
                (Some Samples.three_days) 40) (Some "HIGH"%string))) 0
     <= Py.round
          (nth 0
             (risk_scores
                (build_7day_forecast Samples.july_dates
                   (Some Samples.three_days) 40)) 0) 10.
Proof.
  assert (Hne : time (daily_of (Some Samples.three_days)) <> [])
    by discriminate.
  split; [exact Hne |].
  assert (Hi : (0 < length
                      (risk_scores
                         (build_7day_forecast Samples.july_dates
                            (Some Samples.three_days) 40)))%nat)
    by (vm_compute; lia).
  exact (proj1 (proj2 (forecast_bands_bracket Samples.july_dates
                         (Some Samples.three_days) 40 (Some "HIGH"%string)
                         Hne 0%nat Hi))).
Defined.

End ConfidenceBands.

(** ** Predictive alerts *)

Section PredictiveAlertsScan.
Import ForecastEngine PredictiveAlerts.
Local Open Scope Q_scope.

Lemma fold_enumerate_invariant {A St : Type}
    (step : St -> nat * A -> St) (Inv : nat -> St -> Prop) (l : list A) :
  forall a st,
    Inv a st ->
    (forall k s st',
        nth_error l k = Some s -> Inv (a + k)%nat st' ->
        Inv (S (a + k)) (step st' ((a + k)%nat, s))) ->
    Inv (a + length l)%nat (fold_left step (combine (seq a (length l)) l) st).
Proof.
  induction l as [| y l IH]; intros a st H0 Hstep; simpl.
  - now rewrite Nat.add_0_r.
  - replace (a + S (length l))%nat with (S a + length l)%nat by lia.
    apply IH.
    + specialize (Hstep 0%nat y st eq_refl).
      rewrite Nat.add_0_r in Hstep. now apply Hstep.
    + intros k s st' Hk HI. specialize (Hstep (S k) s st' Hk).
      replace (a + S k)%nat with (S a + k)%nat in Hstep by lia.
      now apply Hstep.
Qed.

Lemma scan_invariant (Inv : nat -> Scan -> Prop)
    (dates : list string) (scores : list Q) (cw cc : bool) (st : Scan) :
  Inv 0%nat st ->
  (forall k s st',
      nth_error scores k = Some s -> Inv k st' ->
      Inv (S k) (scan_day dates scores cw cc st' (k, s))) ->
  Inv (length scores)
    (fold_left (scan_day dates scores cw cc) (Py.enumerate scores) st).
Proof.
  intros H0 Hstep.
  exact (fold_enumerate_invariant (scan_day dates scores cw cc) Inv scores
           0%nat st H0 Hstep).
Qed.

Lemma crossing_step (thr : Q) (scores : list Q) (k : nat) (already : bool)
    (days_to : option nat) (s : Q) :
  nth_error scores k = Some s ->
  Spec.crossing_by thr scores k already days_to ->
  Spec.crossing_by thr scores (S k) already
    (if negb already && Qle_bool thr s && is_none days_to
     then Some (k + 1)%nat else days_to).
Proof.
  intros Hk H. pose proof (nth_error_nth scores k 0 Hk) as Hs.
  destruct days_to as [d |]; cbn [is_none].
  - rewrite andb_false_r. destruct H as [H1 [H2 [H3 H4]]].
    repeat split; try assumption; lia.
  - rewrite andb_true_r. destruct already; cbn [negb andb].
    + now left.
    + destruct H as [H | H]; [discriminate |].
      destruct (Qle_bool thr s) eqn:E.
      * apply Qle_bool_iff in E. repeat split; try lia.
        -- replace (k + 1 - 1)%nat with k by lia. now rewrite Hs.
        -- intros j Hj. apply H. lia.
      * right. intros j Hj.
        destruct (Nat.eq_dec j k) as [-> | Hne]; [| apply H; lia].
        rewrite Hs. apply Qnot_le_lt. intros Hle.
        apply Qle_bool_iff in Hle. congruence.
Qed.

Lemma count_severity_app sev (l1 l2 : list Alert) :
  Spec.count_severity sev (l1 ++ l2)
  = (Spec.count_severity sev l1 + Spec.count_severity sev l2)%nat.
Proof.
  unfold Spec.count_severity. now rewrite filter_app, length_app.
Qed.

Section Scanned.
Variables (f : Forecast) (cur : Q).

Let scores := risk_scores f.
Let cw := Qle_bool 50.0 cur.
Let cc := Qle_bool 75.0 cur.
Let st0 :=
  {| scan_alerts := []; scan_days_to_warning := None;
     scan_days_to_critical := None; scan_max_risk := cur |}.
Let final :=
  fold_left (scan_day (dates f) scores cw cc) (Py.enumerate scores) st0.

Lemma scan_warning :
  Spec.crossing_by 50.0 scores (length scores) cw
    (scan_days_to_warning final).
Proof.
  apply (scan_invariant
           (fun k st =>
              Spec.crossing_by 50.0 scores k cw (scan_days_to_warning st))).
  - right. intros j Hj. lia.
  - intros k s st' Hk H. cbn [scan_day scan_days_to_warning fst snd].
    now apply crossing_step.
Qed.

Lemma scan_critical :
  Spec.crossing_by 75.0 scores (length scores) cc
    (scan_days_to_critical final).
Proof.
  apply (scan_invariant
           (fun k st =>
              Spec.crossing_by 75.0 scores k cc (scan_days_to_critical st))).
  - right. intros j Hj. lia.
  - intros k s st' Hk H. cbn [scan_day scan_days_to_critical fst snd].
    now apply crossing_step.
Qed.

Lemma scan_max :
  cur <= scan_max_risk final
  /\ (forall j, (j < length scores)%nat ->
        nth j scores 0 <= scan_max_risk final)
  /\ (scan_max_risk final = cur \/ In (scan_max_risk final) scores).
Proof.
  apply (scan_invariant
           (fun k st =>
              cur <= scan_max_risk st
              /\ (forall j, (j < k)%nat -> nth j scores 0 <= scan_max_risk st)
              /\ (scan_max_risk st = cur \/ In (scan_max_risk st) scores))).
  - split; [apply Qle_refl | split; [intros j Hj; lia | now left]].
  - intros k s st' Hk [H1 [H2 H3]].
    pose proof (nth_error_nth scores k 0 Hk) as Hs.
    cbn [scan_day scan_max_risk fst snd].
    destruct (Qlt_le_dec (scan_max_risk st') s) as [Hlt | Hle].
    + split; [lra | split].
      * intros j Hj. destruct (Nat.eq_dec j k) as [-> | Hne].
        -- rewrite Hs. apply Qle_refl.
        -- specialize (H2 j ltac:(lia)). lra.
      * right. eapply nth_error_In, Hk.
    + split; [exact H1 | split; [| exact H3]].
      intros j Hj. destruct (Nat.eq_dec j k) as [-> | Hne].
      * now rewrite Hs.
      * apply H2. lia.
Qed.

Lemma scan_counts :
  Spec.count_severity WARNING (scan_alerts final)
  = match scan_days_to_warning final with
       | Some _ => 1%nat
       | None => 0%nat
       end
  /\ Spec.count_severity CRITICAL (scan_alerts final)
     = match scan_days_to_critical final with
       | Some _ => 1%nat
       | None => 0%nat
       end
  /\ Spec.count_severity HEAT (scan_alerts final) = 0%nat
  /\ Spec.count_severity STAGNATION (scan_alerts final) = 0%nat
  /\ Spec.count_severity NUTRIENT_FLUSH (scan_alerts final) = 0%nat.
Proof.
  apply (scan_invariant
           (fun (k : nat) st =>
              Spec.count_severity WARNING (scan_alerts st)
              = match scan_days_to_warning st with
       | Some _ => 1%nat
       | None => 0%nat
       end
              /\ Spec.count_severity CRITICAL (scan_alerts st)
                 = match scan_days_to_critical st with
       | Some _ => 1%nat
       | None => 0%nat
       end
              /\ Spec.count_severity HEAT (scan_alerts st) = 0%nat
              /\ Spec.count_severity STAGNATION (scan_alerts st) = 0%nat
              /\ Spec.count_severity NUTRIENT_FLUSH (scan_alerts st)
                 = 0%nat)).
  - repeat split.
  - intros k s st' Hk [H1 [H2 [H3 [H4 H5]]]].
    cbn [scan_day scan_alerts scan_days_to_warning scan_days_to_critical
           fst snd].
    destruct (scan_days_to_warning st') as [dw |],
             (scan_days_to_critical st') as [dc |];
      cbn [is_none]; rewrite ?andb_false_r, ?andb_true_r;
      destruct (negb cw && Qle_bool 50.0 s)%bool,
               (negb cc && Qle_bool 75.0 s)%bool,
               (0 <? k)%nat;
      try destruct (Qlt_le_dec 15 (s - nth (k - 1) scores 0));
      rewrite ?count_severity_app, ?H1, ?H2, ?H3, ?H4, ?H5;
      repeat split; reflexivity.
Qed.

End Scanned.

(** [days_to_warning] is the 1-based day of the first forecast score at or
    above 50, and is only set when the current score is below 50;
    [days_to_critical] likewise with 75; a missing value means that the
    current score is already there or that no forecast score reaches the
    threshold.  When both are set the warning day is not after the critical
    day. *)
Theorem predictive_alerts_first_crossing
    (f : Forecast) (cur : Q) (level : string) :
  let r := build_predictive_alerts f cur level in
  let scores := risk_scores f in
  match days_to_warning r with
  | Some d =>
      cur < 50 /\ (1 <= d <= length scores)%nat
      /\ 50 <= nth (d - 1) scores 0
      /\ forall j, (j < d - 1)%nat -> nth j scores 0 < 50
  | None =>
      50 <= cur \/ forall j, (j < length scores)%nat -> nth j scores 0 < 50
  end
  /\ match days_to_critical r with
     | Some d =>
         cur < 75 /\ (1 <= d <= length scores)%nat
         /\ 75 <= nth (d - 1) scores 0
         /\ forall j, (j < d - 1)%nat -> nth j scores 0 < 75
     | None =>
         75 <= cur
         \/ forall j, (j < length scores)%nat -> nth j scores 0 < 75
     end
  /\ forall dw dc,
       days_to_warning r = Some dw -> days_to_critical r = Some dc ->
       (dw <= dc)%nat.
Proof.
  intros r scores.
  pose proof (scan_warning f cur) as Hw.
  pose proof (scan_critical f cur) as Hc.
  cbv zeta in Hw, Hc. fold scores in Hw, Hc.
  assert (Ew : days_to_warning r
               = scan_days_to_warning
                   (fold_left
                      (scan_day (dates f) scores (Qle_bool 50.0 cur)
                         (Qle_bool 75.0 cur))
                      (Py.enumerate scores)
                      {| scan_alerts := []; scan_days_to_warning := None;
                         scan_days_to_critical := None;
                         scan_max_risk := cur |})) by reflexivity.
  assert (Ec : days_to_critical r
               = scan_days_to_critical
                   (fold_left
                      (scan_day (dates f) scores (Qle_bool 50.0 cur)
                         (Qle_bool 75.0 cur))
                      (Py.enumerate scores)
                      {| scan_alerts := []; scan_days_to_warning := None;
                         scan_days_to_critical := None;
                         scan_max_risk := cur |})) by reflexivity.
  rewrite <- Ew in Hw. rewrite <- Ec in Hc.
  unfold Spec.crossing_by in Hw, Hc.
  assert (Hcw : Qle_bool 50.0 cur = false -> cur < 50).
  { intros E. apply Qnot_le_lt. intros Hle.
    assert (H : 50.0 <= cur) by lra. apply Qle_bool_iff in H. congruence. }
  assert (Hcc : Qle_bool 75.0 cur = false -> cur < 75).
  { intros E. apply Qnot_le_lt. intros Hle.
    assert (H : 75.0 <= cur) by lra. apply Qle_bool_iff in H. congruence. }
  split; [| split].
  - destruct (days_to_warning r) as [d |].
    + destruct Hw as [H1 [H2 [H3 H4]]].
      split; [now apply Hcw | split; [exact H2 | split]].
      * lra.
      * intros j Hj. specialize (H4 j Hj). lra.
    + destruct Hw as [H | H].
      * left. apply Qle_bool_iff in H. lra.
      * right. intros j Hj. specialize (H j Hj). lra.
  - destruct (days_to_critical r) as [d |].
    + destruct Hc as [H1 [H2 [H3 H4]]].
      split; [now apply Hcc | split; [exact H2 | split]].
      * lra.
      * intros j Hj. specialize (H4 j Hj). lra.
    + destruct Hc as [H | H].
      * left. apply Qle_bool_iff in H. lra.
      * right. intros j Hj. specialize (H j Hj). lra.
  - intros dw dc Edw Edc. rewrite Edw in Hw. rewrite Edc in Hc.
    destruct Hw as [_ [Hw2 [_ Hw4]]]. destruct Hc as [_ [Hc2 [Hc3 _]]].
    destruct (Nat.le_gt_cases dw dc) as [Hle | Hgt]; [exact Hle |].
    specialize (Hw4 (dc - 1)%nat ltac:(lia)). lra.
Qed.

Lemma heat_alerts_count dates scores temp_max sev :
  Spec.count_severity sev (heat_alerts dates scores temp_max)
  = match sev with
    | HEAT => length (heat_alerts dates scores temp_max)
    | _ => 0%nat
    end
  /\ (length (heat_alerts dates scores temp_max) <= 1)%nat.
Proof.
  unfold Spec.count_severity, heat_alerts.
  destruct (find _ _); destruct sev; simpl; lia.
Qed.

Lemma calm_alerts_count wind_max sev :
  Spec.count_severity sev (calm_alerts wind_max)
  = match sev with
    | STAGNATION => length (calm_alerts wind_max)
    | _ => 0%nat
    end
  /\ (length (calm_alerts wind_max) <= 1)%nat.
Proof.
  unfold Spec.count_severity, calm_alerts. destruct wind_max as [| w ws];
    [destruct sev; simpl; lia |].
  destruct (3 <=? _)%nat; destruct sev; simpl; lia.
Qed.

Lemma flush_alerts_count precip sev :
  Spec.count_severity sev (flush_alerts precip)
  = match sev with
    | NUTRIENT_FLUSH => length (flush_alerts precip)
    | _ => 0%nat
    end
  /\ (length (flush_alerts precip) <= 1)%nat.
Proof.
  unfold Spec.count_severity, flush_alerts.
  destruct (heavy_rain_days precip);
    destruct sev; simpl; lia.
Qed.

(** Whatever the forecast, the result holds at most one alert of each of
    the kinds WARNING, CRITICAL, HEAT, STAGNATION and NUTRIENT_FLUSH (only
    RAPID_INCREASE can repeat); a WARNING or CRITICAL alert is there exactly
    when the matching day count is set; and [max_forecast_risk] is the
    rounded maximum of the current score and the forecast scores. *)
Theorem predictive_alerts_one_of_each_kind
    (f : Forecast) (cur : Q) (level : string) :
  let r := build_predictive_alerts f cur level in
  Spec.count_severity WARNING (alerts r)
  = match days_to_warning r with Some _ => 1%nat | None => 0%nat end
  /\ Spec.count_severity CRITICAL (alerts r)
     = match days_to_critical r with Some _ => 1%nat | None => 0%nat end
  /\ (Spec.count_severity HEAT (alerts r) <= 1)%nat
  /\ (Spec.count_severity STAGNATION (alerts r) <= 1)%nat
  /\ (Spec.count_severity NUTRIENT_FLUSH (alerts r) <= 1)%nat
  /\ Py.round cur 10 <= max_forecast_risk r
  /\ (forall s, In s (risk_scores f) ->
        Py.round s 10 <= max_forecast_risk r)
  /\ (max_forecast_risk r = Py.round cur 10
      \/ exists s, In s (risk_scores f)
                   /\ max_forecast_risk r = Py.round s 10).
Proof.
  intros r.
  destruct (scan_counts f cur) as [C1 [C2 [C3 [C4 C5]]]].
  destruct (scan_max f cur) as [M1 [M2 M3]].
  cbv zeta in C1, C2, C3, C4, C5, M1, M2, M3.
  subst r. unfold build_predictive_alerts.
  cbn [alerts days_to_warning days_to_critical max_forecast_risk].
  set (final := fold_left _ _ _) in *.
  set (heat := heat_alerts _ _ _).
  pose proof (fun sev =>
                heat_alerts_count (dates f) (risk_scores f) (temp_max f) sev)
    as Hh. fold heat in Hh.
  pose proof (fun sev => calm_alerts_count (wind_max f) sev) as Hc.
  pose proof (fun sev => flush_alerts_count (precip f) sev) as Hf.
  rewrite !count_severity_app.
  repeat split.
  - rewrite C1, (proj1 (Hh WARNING)), (proj1 (Hc WARNING)),
      (proj1 (Hf WARNING)). lia.
  - rewrite C2, (proj1 (Hh CRITICAL)), (proj1 (Hc CRITICAL)),
      (proj1 (Hf CRITICAL)). lia.
  - rewrite C3, (proj1 (Hh HEAT)), (proj1 (Hc HEAT)), (proj1 (Hf HEAT)).
    pose proof (proj2 (Hh HEAT)). lia.
  - rewrite C4, (proj1 (Hh STAGNATION)), (proj1 (Hc STAGNATION)),
      (proj1 (Hf STAGNATION)).
    pose proof (proj2 (Hc STAGNATION)). lia.
  - rewrite C5, (proj1 (Hh NUTRIENT_FLUSH)), (proj1 (Hc NUTRIENT_FLUSH)),
      (proj1 (Hf NUTRIENT_FLUSH)).
    pose proof (proj2 (Hf NUTRIENT_FLUSH)). lia.
  - now apply round_mono.
  - intros s Hs. apply round_mono.
    destruct (In_nth _ _ 0 Hs) as [j [Hj <-]]. now apply M2.
  - destruct M3 as [-> | Hin]; [now left |].
    right. exists (scan_max_risk final). split; [exact Hin | reflexivity].
Qed.

End PredictiveAlertsScan.

(** ** Day length across the hemispheres, clouds and the light model *)

Section LightSymmetry.
Import LightFeatures.
Local Open Scope R_scope.








(** The light model always returns a result; its score is the light score
    of [light_features.py] rounded to one decimal (neither the clip of the
    day length nor the clip of the model changes a value), and the score and
    the three details lie in [0, 100], [0, 1], [0, 24] and [0, 1]. *)
Theorem light_model_result
    (light_features : LightModel.LightDict) :
  let uv := LightModel.get (LightModel.uv_index light_features) 3.0 in
  let cloud := LightModel.get (LightModel.cloud_cover light_features) 50 in
  let lat := LightModel.get (LightModel.latitude light_features) 45.0 in
  let doy := LightModel.get (LightModel.day_of_year light_features) 180 in
  exists r hours,
    LightModel.compute_light_score light_features = Some r
    /\ photoperiod lat doy = Some hours
    /\ LightModel.score r
       = Py.roundR
           (normalize_uv uv 11 * (hours / 24) * cloud_suppression cloud
            * 100) 10
    /\ 0 <= Q2R (LightModel.score r) <= 100
    /\ 0 <= Q2R (LightModel.uv_norm r) <= 1
    /\ 0 <= Q2R (LightModel.day_length_h r) <= 24
    /\ 0 <= Q2R (LightModel.cloud_factor r) <= 1.
Proof.
  intros uv cloud lat doy.
  pose proof (photoperiod_hours lat doy) as Hh.
  set (hours := 24 * acos (cos_hour_angle lat doy) / PI) in *.
  assert (Hn : 0 <= hours / 24 <= 1) by lra.
  assert (Hu : 0 <= normalize_uv uv max_uv_default <= 1)
    by (apply clipR_bounds; lra).
  assert (Hc : 0 <= cloud_suppression cloud <= 1)
    by (apply clipR_bounds; lra).
  pose proof (unit_product _ _ _ Hu Hn Hc) as Hs.
  eexists. exists hours.
  unfold LightModel.compute_light_score, compute_light_score.
  fold uv cloud lat doy. rewrite (photoperiod_value lat doy). fold hours.
  split; [reflexivity | split; [reflexivity |]].
  cbn [LightModel.score LightModel.uv_norm LightModel.day_length_h
         LightModel.cloud_factor].
  rewrite (clipR_id (hours / 24) 0 1 Hn), (clipR_id _ 0 100 Hs).
  split; [reflexivity |].
  repeat split;
    try (apply (roundR_bounds _ _ 100); lra);
    try (apply (roundR_bounds _ _ 1); lra);
    try (apply (roundR_bounds _ _ 24); lra).
Qed.

End LightSymmetry.

(** ** Tables and classifiers *)

Section RiskTables.
Import BloomProbability Constants WhoComparison.
Local Open Scope Q_scope.

Lemma bloom_probability_fields
    (t n s l : Q) (g : GrowthDict) (c : option (option Q)) (conf : string) :
  let r := compute_bloom_probability t n s l g c conf in
  BloomProbability.risk_color r = snd (fst (_classify_risk (risk_score r)))
  /\ estimated_cells_per_ml r = _estimate_cells (Q2R (risk_score r)).
Proof.
  unfold compute_bloom_probability.
  set (sc := Py.round _ 10).
  destruct (_classify_risk sc) as [[lv col] em] eqn:E. cbn.
  now rewrite E.
Qed.

Lemma format_who_comparison_color
    (score : Q) (cells : Z) (sev : WhoSeverity) :
  WhoComparison.risk_color (format_who_comparison score cells sev)
  = snd (fst (_classify_risk score)).
Proof.
  unfold format_who_comparison, _classify_risk. cbn.
  repeat destruct Qlt_le_dec; reflexivity.
Qed.

(** The display tables and the classifiers agree: every non-negative cell
    count lies in the [WHO_RISK_LEVELS] band of its [_who_severity], every
    score in [0, 100] lies in the [RISK_LEVELS] band of its level and gets
    that band's colour, and [format_who_comparison] picks the colour of
    [_classify_risk] and the proximity text of [_who_severity]; on a result
    of [compute_bloom_probability] it never reaches the "far exceeds"
    text. *)
Theorem risk_tables_agree_with_classifiers :
  (forall cells : Z,
      (0 <= cells)%Z ->
      let b := WHO_RISK_LEVELS (_who_severity cells) in
      (min_cells b <= cells)%Z
      /\ match max_cells b with
         | Some m => (cells < m)%Z
         | None => True
         end)
  /\ (forall score : Q,
        0 <= score <= 100 ->
        let b := RISK_LEVELS (risk_level_of score) in
        band_min b <= score <= band_max b
        /\ (score < band_max b \/ risk_level_of score = CRITICAL)
        /\ band_color b = snd (fst (_classify_risk score)))
  /\ (forall (score : Q) (cells : Z) (sev : WhoSeverity),
        let info := format_who_comparison score cells sev in
        WhoComparison.risk_color info = snd (fst (_classify_risk score))
        /\ proximity_text info
           = match _who_severity cells with
             | low_risk => below_low_threshold
             | moderate_risk => exceeds_low_threshold
             | high_risk => exceeds_moderate_threshold
             | very_high_risk => far_exceeds_high_threshold
             end)
  /\ (forall t n s l g c conf,
        let r := compute_bloom_probability t n s l g c conf in
        let info :=
          format_who_comparison (risk_score r) (estimated_cells_per_ml r)
            (BloomProbability.who_severity r) in
        WhoComparison.risk_color info = BloomProbability.risk_color r
        /\ proximity_text info <> far_exceeds_high_threshold).
Proof.
  split; [| split; [| split]].
  - intros cells H. unfold _who_severity.
    destruct (Z.ltb_spec cells 20000); [simpl; lia |].
    destruct (Z.ltb_spec cells 100000); [simpl; lia |].
    destruct (Z.ltb_spec cells 10000000); simpl; lia.
  - intros score [H0 H1]. unfold risk_level_of, _classify_risk.
    repeat destruct Qlt_le_dec; cbn; repeat split;
      try lra; try (left; lra); now right.
  - intros score cells sev. cbv zeta.
    split.
    + apply format_who_comparison_color.
    + unfold format_who_comparison, _who_severity. cbn.
      destruct (cells <? 20000)%Z; [reflexivity |].
      destruct (cells <? 100000)%Z; [reflexivity |].
      destruct (cells <? 10000000)%Z; reflexivity.
  - intros t n s l g c conf r info.
    destruct (bloom_probability_fields t n s l g c conf) as [Hc He].
    fold r in Hc, He.
    destruct (compute_bloom_probability_score t n s l g c conf) as [Hb _].
    fold r in Hb.
    destruct (severity_of_score _ (Q2R_bounds_100 _ Hb)) as [Hle _].
    subst info. rewrite He. clearbody r.
    generalize dependent (_estimate_cells (Q2R (risk_score r))).
    intros cells _ Hle.
    split.
    + now rewrite Hc, format_who_comparison_color.
    + unfold format_who_comparison. cbn.
      destruct (Z.ltb_spec cells 20000); [discriminate |].
      destruct (Z.ltb_spec cells 100000); [discriminate |].
      destruct (Z.ltb_spec cells 10000000); [discriminate | lia].
Qed.

End RiskTables.

(** ** The geometric mean of [calculate_bloom_risk] *)

Section GeometricMean.
Import BloomProbability.
Local Open Scope R_scope.

Lemma exp_le (x y : R) : x <= y -> exp x <= exp y.
Proof.
  intros [H | ->]; [left; now apply exp_increasing | right; reflexivity].
Qed.





Lemma Q2R_clip_range (x : Q) :
  0.001 <= Q2R (Py.clip x 0.001 100) <= 100.
Proof.
  destruct (clip_bounds x 0.001 100 ltac:(discriminate)) as [H0 H1].
  apply Qle_Rle in H0, H1. rewrite Q2R_lit in H0, H1.
  split; lra.
Qed.


End GeometricMean.

(** ** The limiting factor and the doubling time *)

Section GrowthKinetics.
Import GrowthRate ExpBounds.
Local Open Scope Q_scope.

Lemma ln_2_lower : (0.69 <= ln 2)%R.
Proof.
  destruct (exp_enclosure 69%Z 100%Z 50 ltac:(discriminate)
              eq_refl eq_refl) as [Hlo Hhi].
  set (hi := exp_hi 69%Z 100%Z 50) in Hhi. vm_compute in hi. subst hi.
  set (one := fx_one) in Hlo, Hhi. vm_compute in one. subst one.
  assert (H : (exp (69 / 100) < 2)%R) by lra.
  destruct (Rle_or_lt 0.69 (ln 2)) as [Hle | Hlt]; [exact Hle |].
  apply exp_increasing in Hlt. rewrite exp_ln in Hlt by lra.
  replace 0.69%R with (69 / 100)%R in Hlt by lra. lra.
Qed.

(** The rate before rounding is positive: no factor can be zero. *)
Lemma growth_rate_positive (f_t f_n f_l f_s c : Q) :
  0.01 <= f_t <= 1 -> 0.01 <= f_n <= 1 -> 0.01 <= f_l <= 1 ->
  0.01 <= f_s <= 1 -> 0.01 <= c <= 1 ->
  0 < MU_MAX * f_t * f_n * f_l * f_s * c <= MU_MAX.
Proof.
  intros Ht Hn Hl Hs Hc. unfold MU_MAX.
  assert (H1 : 0 < 1.2 * f_t <= 1.2) by nra.
  assert (H2 : 0 < 1.2 * f_t * f_n <= 1.2) by nra.
  assert (H3 : 0 < 1.2 * f_t * f_n * f_l <= 1.2) by nra.
  assert (H4 : 0 < 1.2 * f_t * f_n * f_l * f_s <= 1.2) by nra.
  nra.
Qed.

(** The limiting factor that [compute_growth_rate] names holds a least
    value among the four factor values, and the first such one in the order
    Temperature, Nutrients, Light, Stagnation.  A reported doubling time is
    at least 13.8 hours and comes with a reported rate of at least 0.001;
    when none is reported the rate is at most 0.001. *)
Theorem growth_limiting_factor_and_doubling (t n l s w : Q) :
  let r := compute_growth_rate t n l s w in
  (exists v,
      In (limiting_factor r, v) (factor_values r)
      /\ forall kv, In kv (factor_values r) -> v <= snd kv)
  /\ match doubling_time_hours r with
     | Some d => 13.8 <= d /\ 0.001 <= mu_per_day r
     | None => mu_per_day r <= 0.001
     end.
Proof.
  intros r. subst r. unfold compute_growth_rate.
  cbn [limiting_factor factor_values doubling_time_hours mu_per_day map tl
         fst snd].
  set (f_t := Py.clip (t / 100) 0.01 1.0).
  set (f_n := Py.clip (n / 100) 0.01 1.0).
  set (f_l := Py.clip (l / 100) 0.01 1.0).
  set (f_s := Py.clip (s / 100) 0.01 1.0).
  split.
  - unfold argmin_from. cbn [snd fst].
    pose proof (round_mono f_t f_n 1000). pose proof (round_mono f_n f_t 1000).
    pose proof (round_mono f_t f_l 1000). pose proof (round_mono f_l f_t 1000).
    pose proof (round_mono f_t f_s 1000). pose proof (round_mono f_s f_t 1000).
    pose proof (round_mono f_n f_l 1000). pose proof (round_mono f_l f_n 1000).
    pose proof (round_mono f_n f_s 1000). pose proof (round_mono f_s f_n 1000).
    pose proof (round_mono f_l f_s 1000). pose proof (round_mono f_s f_l 1000).
    repeat destruct Qlt_le_dec;
      eexists; (split; [cbn [In]; eauto 6 |]);
      intros kv [<- | [<- | [<- | [<- | []]]]]; cbn [snd];
      try apply Qle_refl;
      repeat match goal with
             | H : ?a <= ?b -> _ |- _ =>
                 first [ specialize (H ltac:(lra)) | clear H ]
             end; lra.
  - set (c := _arrhenius_correction w).
    assert (Hf : forall x, 0.01 <= Py.clip (x / 100) 0.01 1.0 <= 1).
    { intros x.
      destruct (clip_bounds (x / 100) 0.01 1.0 ltac:(discriminate)).
      split; lra. }
    pose proof (growth_rate_positive f_t f_n f_l f_s c (Hf t) (Hf n) (Hf l)
                  (Hf s) (arrhenius_range w)) as [Hpos Hmax].
    set (raw := MU_MAX * f_t * f_n * f_l * f_s * c) in *.
    assert (Emu : Py.clip raw 0 MU_MAX == raw)
      by (apply clip_id; lra).
    set (mu := Py.clip raw 0 MU_MAX) in *.
    assert (Hmu : 0 < mu <= 1.2) by (unfold MU_MAX in *; lra).
    assert (Hr : Py.round 0.001 10000 == 0.001) by reflexivity.
    destruct (Qlt_le_dec 0.001 mu) as [Hgt | Hle].
    + split.
      * apply Qle_trans with (Py.roundR 13.8 10).
        -- unfold Py.roundR.
           replace (13.8 * IZR 10)%R with (IZR 138) by lra.
           rewrite round_half_evenR_IZR. discriminate.
        -- apply roundR_mono.
           pose proof ln_2_lower as Hln.
           assert (Hm : (0 < Q2R mu <= 1.2)%R).
           { destruct Hmu as [Ha Hb]. apply Qlt_Rlt in Ha.
             apply Qle_Rle in Hb.
             rewrite Q2R_lit in Hb. rewrite Q2R_zero in Ha. lra. }
           assert (Hi : (/ 1.2 <= / Q2R mu)%R)
             by (apply Rinv_le_contravar; lra).
           unfold Rdiv. nra.
      * rewrite <- Hr. apply round_mono. lra.
    + rewrite <- Hr. now apply round_mono.
Qed.

End GrowthKinetics.

(** ** Monotonicity of the two aggregators *)

Section AggregatorsMonotone.
Import BloomProbability.

Lemma cyfi_adjustment_range (cyfi : option (option Q)) :
  (0 <= cyfi_adjustment cyfi <= 15)%Q.
Proof.
  unfold cyfi_adjustment. destruct cyfi as [[c |] |];
    repeat destruct Qlt_le_dec; split; discriminate.
Qed.

Lemma cyfi_adjustment_mono (c c' : Q) :
  (c <= c')%Q ->
  (cyfi_adjustment (Some (Some c)) <= cyfi_adjustment (Some (Some c')))%Q.
Proof.
  intros H. unfold cyfi_adjustment.
  repeat destruct Qlt_le_dec; try discriminate; lra.
Qed.

Lemma interaction_boost_mono (t t' n n' : Q) :
  (t <= t')%Q -> (n <= n')%Q ->
  (interaction_boost t n <= interaction_boost t' n')%Q.
Proof.
  intros Ht Hn. unfold interaction_boost.
  repeat destruct Qlt_le_dec; try lra; try (q_minmax; lra).
Qed.

Lemma ln_le (x y : R) : (0 < x)%R -> (x <= y)%R -> (ln x <= ln y)%R.
Proof.
  intros Hx [H | ->]; [left; now apply ln_increasing | right; reflexivity].
Qed.

Lemma Q2R_clip_mono (x y : Q) :
  (x <= y)%Q ->
  (0 < Q2R (Py.clip x 0.001 100) <= Q2R (Py.clip y 0.001 100))%R.
Proof.
  intros H. pose proof (Q2R_clip_range x) as Hx.
  split; [lra | apply Qle_Rle, clip_mono, H].
Qed.

Lemma geo_mean_mono (t t' n n' s s' l l' mu mu' : Q) :
  (t <= t')%Q -> (n <= n')%Q -> (s <= s')%Q -> (l <= l')%Q ->
  (mu <= mu')%Q ->
  (geo_mean (clipped_scores t n s l mu)
   <= geo_mean (clipped_scores t' n' s' l' mu'))%R.
Proof.
  intros Ht Hn Hs Hl Hmu.
  unfold geo_mean, clipped_scores, geo_weights.
  cbn [combine map fold_left fst snd]. rewrite !Q2R_lit.
  assert (Hg : (Py.clip (mu / 1.2 * 100) 0 100
                <= Py.clip (mu' / 1.2 * 100) 0 100)%Q)
    by (apply clip_mono; q_div; lra).
  destruct (Q2R_clip_mono _ _ Ht) as [P1 L1].
  destruct (Q2R_clip_mono _ _ Hn) as [P2 L2].
  destruct (Q2R_clip_mono _ _ Hs) as [P3 L3].
  destruct (Q2R_clip_mono _ _ Hl) as [P4 L4].
  destruct (Q2R_clip_mono _ _ Hg) as [P5 L5].
  pose proof (ln_le _ _ P1 L1). pose proof (ln_le _ _ P2 L2).
  pose proof (ln_le _ _ P3 L3). pose proof (ln_le _ _ P4 L4).
  pose proof (ln_le _ _ P5 L5).
  apply exp_le. lra.
Qed.

(** Neither aggregator ever answers a higher input with a lower score:
    [compute_bloom_probability] is non-decreasing in the four sub-scores, in
    the growth rate and in the satellite adjustment (which is itself
    non-decreasing in the cell count and lies in [0, 15]), and
    [calculate_bloom_risk] is non-decreasing in its five inputs, the jump of
    the interaction boost at 60 included. *)
Theorem aggregators_monotone :
  (forall t t' n n' s s' l l' mu mu' cy cy' conf conf',
      (t <= t')%Q -> (n <= n')%Q -> (s <= s')%Q -> (l <= l')%Q ->
      (mu <= mu')%Q -> (cyfi_adjustment cy <= cyfi_adjustment cy')%Q ->
      (risk_score
         (compute_bloom_probability t n s l
            {| gd_mu_per_day := Some mu |} cy conf)
       <= risk_score
            (compute_bloom_probability t' n' s' l'
               {| gd_mu_per_day := Some mu' |} cy' conf'))%Q)
  /\ (forall c c' : Q,
        (c <= c')%Q ->
        (cyfi_adjustment (Some (Some c))
         <= cyfi_adjustment (Some (Some c')))%Q)
  /\ (forall cy, (0 <= cyfi_adjustment cy <= 15)%Q)
  /\ (forall t t' n n' s s' l l' mu mu',
        (t <= t')%Q -> (n <= n')%Q -> (s <= s')%Q -> (l <= l')%Q ->
        (mu <= mu')%Q ->
        (br_risk_score (calculate_bloom_risk t n s l mu)
         <= br_risk_score (calculate_bloom_risk t' n' s' l' mu'))%Q).
Proof.
  split; [| split; [exact cyfi_adjustment_mono
                   | split; [exact cyfi_adjustment_range |]]].
  - intros t t' n n' s s' l l' mu mu' cy cy' conf conf' Ht Hn Hs Hl Hmu Hc.
    unfold compute_bloom_probability. cbn [gd_mu_per_day].
    do 2 destruct (_classify_risk _) as [[? ?] ?]. cbn [risk_score].
    apply round_mono, clip_mono.
    assert (Hg : (Py.clip (mu / 1.2 * 100) 0 100
                  <= Py.clip (mu' / 1.2 * 100) 0 100)%Q)
      by (apply clip_mono; q_div; lra).
    lra.
  - intros t t' n n' s s' l l' mu mu' Ht Hn Hs Hl Hmu.
    unfold calculate_bloom_risk.
    do 2 destruct (_classify_risk _) as [[? ?] ?]. cbn [br_risk_score].
    apply roundR_mono, clipR_mono. unfold unclipped_risk.
    pose proof (geo_mean_mono _ _ _ _ _ _ _ _ _ _ Ht Hn Hs Hl Hmu).
    pose proof (Qle_Rle _ _ (interaction_boost_mono _ _ _ _ Ht Hn)).
    lra.
Qed.

End AggregatorsMonotone.
